(** * rcoder: transport, retry, cache, work queue and scenario detection

    A shallow embedding of the parts of the rcoder client that carry its
    delivery guarantees, and the properties that hold of them:

    - [Core]      : [core_optimized.py], class [RcoderCore]
                    (connection pool, [_call], the result cache, [execute]);
    - [Queue]     : [async_proxy.py], classes [MessageQueue] and
                    [AsyncProxyManager] (the persisted queue and its worker);
    - [Optimizer] : [auto_optimizer.py], [_detect_network_scenario].

    Python values are modelled as follows.  [bytes] is [list byte]; [str] is
    [string] (its UTF-8 bytes, so that substring tests agree with Python's
    tests on code points); a [dict] used as a table is a [gmap], a [set] a
    [gset]; a decoded JSON document is a [Json] tree.  Times and delays are
    rationals: every delay the retry loop computes from the shipped settings
    is a dyadic rational far inside the exact range of a double, so [Q]
    arithmetic agrees with the interpreter there.  Exceptions are values of
    [Exn], and a call that may raise returns a [Res]. *)

From Stdlib Require Import QArith Qround Qabs ZArith Lia Lqa Sorted.
From Stdlib Require Import Strings.Ascii Strings.Byte DecimalString.
From Stdlib Require DecimalPos DecimalZ.
From stdpp Require Import gmap strings list.

Open Scope string_scope.
Open Scope list_scope.

(* [set_solver] clears hypotheses by name and says so when one is gone. *)
Set Warnings "-clear-no-such-hyp".

(* ===================================================================== *)
(** ** Python values and the few built-ins the code relies on *)
(* ===================================================================== *)

Module Py.

(** Exceptions, by the [except] clause of [_call] that catches them.
    [SocketError] stands for [socket.error] (that is [OSError]) and its
    subclasses [ConnectionResetError], [ConnectionRefusedError] and
    [socket.timeout]; [PyException] for every other [Exception], whether
    raised by the code ([raise Exception(msg)]) or by the interpreter
    ([TypeError], [KeyError], [AttributeError], [UnicodeDecodeError]). The
    string is [str(e)]. *)
Inductive Exn : Type :=
| SocketError (msg : string)
| JSONDecodeError (msg : string)
| PyException (msg : string).

Definition exn_str (e : Exn) : string :=
  match e with
  | SocketError m => m
  | JSONDecodeError m => m
  | PyException m => m
  end.

(** The result of a call that may raise. *)
Inductive Res (A : Type) : Type :=
| Ok (a : A)
| Raise (e : Exn).
Arguments Ok {A} a.
Arguments Raise {A} e.

Definition bind {A B} (r : Res A) (k : A -> Res B) : Res B :=
  match r with
  | Ok a => k a
  | Raise e => Raise e
  end.

Notation "'let*' x ':=' r 'in' k" := (bind r (fun x => k))
  (at level 10, x name, r at level 100, k at level 200).

(** A decoded JSON document. *)
#[warnings="-register-all"]
Inductive Json : Type :=
| JNull
| JBool (b : bool)
| JNum (q : Q)
| JStr (s : string)
| JArr (l : list Json)
| JObj (kv : list (string * Json)).

(** [bytes.startswith]. *)
Fixpoint startswith (p s : list byte) : bool :=
  match p, s with
  | [], _ => true
  | a :: p', c :: s' => Byte.eqb a c && startswith p' s'
  | _ :: _, [] => false
  end.

(** [needle in hay] on [str]. *)
Fixpoint str_in (needle hay : string) : bool :=
  String.prefix needle hay ||
  match hay with
  | EmptyString => false
  | String _ t => str_in needle t
  end.

(** [str.lower] on the ASCII letters; the bytes of a character outside
    ASCII are left as they are. *)
Definition lower_ascii (c : ascii) : ascii :=
  let n := nat_of_ascii c in
  if (65 <=? n)%nat && (n <=? 90)%nat then ascii_of_nat (n + 32) else c.

Fixpoint lower (s : string) : string :=
  match s with
  | EmptyString => EmptyString
  | String c t => String (lower_ascii c) (lower t)
  end.

(** Lookup in a JSON object, first binding of the key. *)
Fixpoint assoc (k : string) (kv : list (string * Json)) : option Json :=
  match kv with
  | [] => None
  | (k', v) :: rest => if String.eqb k k' then Some v else assoc k rest
  end.

Definition json_is_str (s : string) (j : Json) : bool :=
  match j with
  | JStr s' => String.eqb s s'
  | _ => false
  end.

(** [key in v]: membership of a key in a dict, of an element in a list, of
    a substring in a str; a [TypeError] on the remaining types. *)
Definition contains_key (k : string) (v : Json) : Res bool :=
  match v with
  | JObj kv => Ok (match assoc k kv with Some _ => true | None => false end)
  | JArr l => Ok (existsb (json_is_str k) l)
  | JStr s => Ok (str_in k s)
  | _ => Raise (PyException "argument of type is not iterable")
  end.

(** [v[key]] with a string key. *)
Definition getitem (v : Json) (k : string) : Res Json :=
  match v with
  | JObj kv =>
      match assoc k kv with
      | Some x => Ok x
      | None => Raise (PyException ("'" +:+ k +:+ "'"))
      end
  | JArr _ => Raise (PyException "list indices must be integers or slices, not str")
  | JStr _ => Raise (PyException "string indices must be integers, not 'str'")
  | _ => Raise (PyException "object is not subscriptable")
  end.

(** [v[0]]. *)
Definition getitem0 (v : Json) : Res Json :=
  match v with
  | JArr (x :: _) => Ok x
  | JArr [] => Raise (PyException "list index out of range")
  | JStr (String c _) => Ok (JStr (String c EmptyString))
  | JStr EmptyString => Raise (PyException "string index out of range")
  | JObj _ => Raise (PyException "0")
  | _ => Raise (PyException "object is not subscriptable")
  end.

(** [v.get(key, default)]: only a dict has the method. *)
Definition dict_get (v : Json) (k : string) (default : Json) : Res Json :=
  match v with
  | JObj kv => Ok (match assoc k kv with Some x => x | None => default end)
  | _ => Raise (PyException "object has no attribute 'get'")
  end.

(** Truth value of a JSON value, as [or] and [if] test it. *)
Definition truthy (v : Json) : bool :=
  match v with
  | JNull => false
  | JBool b => b
  | JNum q => negb (Qeq_bool q 0)
  | JStr s => negb (String.eqb s "")
  | JArr l => match l with [] => false | _ => true end
  | JObj kv => match kv with [] => false | _ => true end
  end.

(** [str(n)] of an [int]. *)
Definition str_int (n : Z) : string := NilZero.string_of_int (Z.to_int n).

(** Strict comparison on rationals, and Python's two-argument [min], which
    returns its first argument unless the second is strictly smaller. *)
Definition Qltb (a b : Q) : bool := negb (Qle_bool b a).

Definition py_min (a b : Q) : Q := if Qltb b a then b else a.

(** What the interpreter's libraries compute.  The client only calls them;
    they are taken as given. *)
Class Runtime : Type := {
  (** [json.loads] on the bytes read from the socket *)
  json_loads : list byte -> Res Json;
  (** [json.loads] on a [str] *)
  json_loads_str : string -> Res Json;
  (** [str(v)] of a decoded value *)
  py_str : Json -> string;
  (** [gzip.compress] *)
  gzip_compress : list byte -> list byte;
  (** the members of a stream that starts with the gzip magic number,
      inflated and checked; [None] when [gzip] raises on them *)
  gzip_members : list byte -> option (list byte);
  (** [f"{x:.1f}"] *)
  fmt_1f : Q -> string
}.

Lemma Qltb_lt a b : Qltb a b = true <-> (a < b)%Q.
Proof.
  unfold Qltb. rewrite negb_true_iff, <- not_true_iff_false, Qle_bool_iff.
  split; [apply Qnot_le_lt | apply Qlt_not_le].
Qed.

Lemma Qltb_ge a b : Qltb a b = false <-> (b <= a)%Q.
Proof. unfold Qltb. rewrite negb_false_iff. apply Qle_bool_iff. Qed.

Lemma py_min_le_l a b : (py_min a b <= a)%Q.
Proof.
  unfold py_min. destruct (Qltb b a) eqn:E.
  - apply Qlt_le_weak, Qltb_lt, E.
  - apply Qle_refl.
Qed.

Lemma py_min_le_r a b : (py_min a b <= b)%Q.
Proof.
  unfold py_min. destruct (Qltb b a) eqn:E.
  - apply Qle_refl.
  - apply Qltb_ge, E.
Qed.

Lemma py_min_glb a b c : (c <= a)%Q -> (c <= b)%Q -> (c <= py_min a b)%Q.
Proof. intros Ha Hb. unfold py_min. destruct (Qltb b a); assumption. Qed.

Lemma prefix_app (p s : string) : String.prefix p (p +:+ s) = true.
Proof.
  induction p as [|c p IH]; simpl.
  - destruct s; reflexivity.
  - rewrite IH. destruct (Ascii.ascii_dec c c); [reflexivity | congruence].
Qed.

Lemma str_in_app_r (n a b : string) : str_in n b = true -> str_in n (a +:+ b) = true.
Proof.
  intros H. induction a as [|c a IH]; simpl; [exact H|].
  rewrite IH. apply orb_true_r.
Qed.

Lemma str_in_prefix (p s : string) : str_in p (p +:+ s) = true.
Proof.
  destruct p as [|c p]; [destruct s; reflexivity|].
  change (str_in (String c p) (String c p +:+ s))
    with (String.prefix (String c p) (String c p +:+ s) || str_in (String c p) (p +:+ s)).
  rewrite prefix_app. reflexivity.
Qed.

End Py.

(* ===================================================================== *)
(** ** core_optimized.py: class RcoderCore *)
(* ===================================================================== *)

Module Core.
Import Py.

(** A connection is known by its identity ([id(conn)] in the source). *)
Abbreviation Conn := nat.

(** The settings of a client.  [pool_maxsize] is the [maxsize] the pool
    queue was built with ([connection_pool_size] at construction). *)
Record Config : Type := {
  password : option string;
  enable_compression : bool;
  enable_connection_pool : bool;
  pool_maxsize : nat;
  connection_expiry : Q;
  cache_expiry : Q;
  retry_delay : Q;
  max_retry_delay : Q;
  enable_exponential_backoff : bool
}.

(** The state a client mutates: the pool queue, [_connection_times], the
    result cache; and, for the record, the connections it closed, the
    number of attempts started, the arguments of [time.sleep] in order, and
    the number of clock readings taken so far. *)
Record State : Type := {
  connection_pool : list Conn;
  connection_times : gmap nat Q;
  closed : list Conn;
  command_cache : gmap string (Json * Q);
  attempts : nat;
  slept : list Q;
  ticks : nat
}.

(** What the network does during one attempt: whether the zero-byte probe
    succeeds on a pooled connection, what [_create_connection] yields if it
    is called, and what sending the request and reading until the
    terminator yields on the connection in hand ([response_data], or the
    exception raised on the way). *)
Record Attempt : Type := {
  probe : Conn -> bool;
  create : Res Conn;
  exchange : Res (list byte)
}.

Definition set_pool (p : list Conn) (st : State) : State :=
  {| connection_pool := p; connection_times := connection_times st;
     closed := closed st; command_cache := command_cache st;
     attempts := attempts st; slept := slept st; ticks := ticks st |}.

Definition set_times (t : gmap nat Q) (st : State) : State :=
  {| connection_pool := connection_pool st; connection_times := t;
     closed := closed st; command_cache := command_cache st;
     attempts := attempts st; slept := slept st; ticks := ticks st |}.

Definition set_closed (c : list Conn) (st : State) : State :=
  {| connection_pool := connection_pool st; connection_times := connection_times st;
     closed := c; command_cache := command_cache st;
     attempts := attempts st; slept := slept st; ticks := ticks st |}.

Definition set_cache (c : gmap string (Json * Q)) (st : State) : State :=
  {| connection_pool := connection_pool st; connection_times := connection_times st;
     closed := closed st; command_cache := c;
     attempts := attempts st; slept := slept st; ticks := ticks st |}.

Definition count_attempt (st : State) : State :=
  {| connection_pool := connection_pool st; connection_times := connection_times st;
     closed := closed st; command_cache := command_cache st;
     attempts := S (attempts st); slept := slept st; ticks := ticks st |}.

(** [time.sleep(d)] *)
Definition sleep (d : Q) (st : State) : State :=
  {| connection_pool := connection_pool st; connection_times := connection_times st;
     closed := closed st; command_cache := command_cache st;
     attempts := attempts st; slept := slept st ++ [d]; ticks := ticks st |}.

Definition tick (st : State) : State :=
  {| connection_pool := connection_pool st; connection_times := connection_times st;
     closed := closed st; command_cache := command_cache st;
     attempts := attempts st; slept := slept st; ticks := S (ticks st) |}.

(** [b'COMPRESSED:'] *)
Definition marker : list byte := String.list_byte_of_string "COMPRESSED:".

(** [queue.Queue.full]: a queue built with [maxsize <= 0] is never full. *)
Definition full (cfg : Config) (pool : list Conn) : bool :=
  (0 <? pool_maxsize cfg)%nat && (pool_maxsize cfg <=? length pool)%nat.

(** The loop of [_get_connection] that puts the valid connections back,
    each one only while the queue is not full. *)
Fixpoint put_back (cfg : Config) (pool valid : list Conn) : list Conn :=
  match valid with
  | [] => pool
  | c :: rest => put_back cfg (if full cfg pool then pool else pool ++ [c]) rest
  end.

Definition password_set (cfg : Config) : bool :=
  match password cfg with
  | Some p => negb (String.eqb p "")
  | None => false
  end.

Section Client.

Context {RT : Runtime}.
(** The network, one entry per attempt in the order the attempts are
    started, and the clock, one entry per reading in the order the readings
    are taken. Only the readings that are compared or stored count: the
    ones that stamp a request or measure the execution time of [execute]
    for nothing do not. *)
Variable net : nat -> Attempt.
Variable clock : nat -> Q.

(** [gzip.decompress]: empty input is the empty stream; anything that does
    not start with the magic number 1f 8b is refused ([BadGzipFile]). *)
Definition gzip_decompress (data : list byte) : option (list byte) :=
  match data with
  | [] => Some []
  | x1f :: x8b :: _ => gzip_members data
  | _ => None
  end.

Definition _compress_data (cfg : Config) (data : list byte) : list byte :=
  if negb (enable_compression cfg) then data
  else
    let compressed := gzip_compress data in
    if (length compressed <? length data)%nat then compressed else data.

Definition _decompress_data (cfg : Config) (data : list byte) : list byte :=
  if negb (enable_compression cfg) then data
  else
    match gzip_decompress data with
    | Some d => d
    | None => data
    end.

(** The bytes [_call] sends for a serialized request (before the
    terminator). *)
Definition encode_request (cfg : Config) (request_data : list byte) : list byte :=
  if enable_compression cfg then
    let compressed_data := _compress_data cfg request_data in
    if (length compressed_data <? length request_data)%nat
    then marker ++ compressed_data
    else request_data
  else request_data.

(** The treatment of a compressed response in [_call]:
    [if response_data.startswith(b'COMPRESSED:'):
       response_data = self._decompress_data(response_data[10:])]. *)
Definition unmark_response (cfg : Config) (response_data : list byte) : list byte :=
  if startswith marker response_data
  then _decompress_data cfg (drop 10 response_data)
  else response_data.

Definition _get_connection (cfg : Config) (a : Attempt) (st : State)
  : Res Conn * State :=
  if negb (enable_connection_pool cfg) then (create a, st)
  else
    let current_time := clock (ticks st) in
    let st := tick st in
    let alive c :=
      Qltb (current_time - default 0%Q (connection_times st !! c)) (connection_expiry cfg)
      && probe a c in
    let valid_connections := List.filter alive (connection_pool st) in
    match put_back cfg [] valid_connections with
    | conn :: rest =>
        (Ok conn,
         set_times (<[conn := current_time]> (connection_times st)) (set_pool rest st))
    | [] => (create a, set_pool [] st)
    end.

Definition _return_connection (cfg : Config) (conn : Conn) (st : State)
  : bool * State :=
  if enable_connection_pool cfg && negb (full cfg (connection_pool st)) then
    let now := clock (ticks st) in
    let st := tick st in
    (true,
     set_times (<[conn := now]> (connection_times st))
       (set_pool (connection_pool st ++ [conn]) st))
  else (false, set_closed (conn :: closed st) st).

(** *** [_call] *)

(** How [_call] ends: it returns a value, or raises.  [Diverged] marks a
    loop of the model that ran out of fuel: for [_call] it is shown never
    to occur, for [execute] it stands for a restart wait that is still
    polling. *)
Inductive Outcome : Type :=
| Returned (v : Json)
| Raised (e : Exn)
| Diverged.

(** ['auth' in m.lower() or 'password' in m.lower() or 'login' in m.lower()] *)
Definition auth_flavored (m : string) : bool :=
  str_in "auth" (lower m) || str_in "password" (lower m) || str_in "login" (lower m).

Definition auth_failed_msg (m : string) : string :=
  "认证失败: " +:+ m +:+ ". 请检查用户名和密码是否正确。".

Definition auth_failed (m : string) : Exn := PyException (auth_failed_msg m).

Definition server_error (m : string) : Exn :=
  PyException ("服务器错误: " +:+ m).

(** [error_msg = response['error'].get('message', str(response['error']))] *)
Definition error_msg (response : Json) : Res Json :=
  let* err := getitem response "error" in
  dict_get err "message" (JStr (py_str err)).

(** The check of a decoded response: the exception it raises on an error
    member, or nothing. [error_msg.lower()] needs a [str]. *)
Definition check_error (response : Json) : Res unit :=
  let* has_error := contains_key "error" response in
  if has_error then
    let* m := error_msg response in
    match m with
    | JStr m => Raise (if auth_flavored m then auth_failed m else server_error m)
    | _ => Raise (PyException "object has no attribute 'lower'")
    end
  else Ok tt.

(** What the [try] block of one iteration comes to once [response_data]
    has been read: a response to return, an empty response, or an
    exception on its way to the [except] clauses. *)
Inductive Body : Type :=
| BReturn (response : Json)
| BEmpty
| BRaise (e : Exn).

Definition decode_response (cfg : Config) (response_data : list byte) : Body :=
  match unmark_response cfg response_data with
  | [] => BEmpty
  | data =>
      match json_loads data with
      | Raise e => BRaise e
      | Ok response =>
          match check_error response with
          | Raise e => BRaise e
          | Ok _ => BReturn response
          end
      end
  end.

(** The [try] block: the connection in hand (if one was acquired) and what
    the block comes to. *)
Definition try_block (cfg : Config) (a : Attempt) (st : State)
  : option Conn * Body * State :=
  match _get_connection cfg a st with
  | (Raise e, st) => (None, BRaise e, st)
  | (Ok conn, st) =>
      match exchange a with
      | Raise e => (Some conn, BRaise e, st)
      | Ok response_data => (Some conn, decode_response cfg response_data, st)
      end
  end.

(** The delay computed before a retry, [retry_count] already incremented. *)
Definition backoff (cfg : Config) (current_delay : Q) (retry_count : nat) : Q :=
  if enable_exponential_backoff cfg
  then py_min (current_delay * inject_Z (2 ^ Z.of_nat retry_count)) (max_retry_delay cfg * 2)
  else py_min (current_delay * (3 # 2)) (max_retry_delay cfg).

(** One iteration either ends the call or goes round again with a new
    [retry_count] and [current_delay]. *)
Inductive Step : Type :=
| Done (o : Outcome)
| Continue (retry_count : nat) (current_delay : Q).

(** [retry_count += 1; current_delay = ...; time.sleep(current_delay);
    continue] *)
Definition retry (cfg : Config) (retry_count : nat) (current_delay : Q) (st : State)
  : Step * State :=
  let retry_count := S retry_count in
  let current_delay := backoff cfg current_delay retry_count in
  (Continue retry_count current_delay, sleep current_delay st).

Definition connection_refused (m : string) : bool :=
  str_in "Connection refused" m || str_in "10061" m.

Definition connect_failed (cfg : Config) (m : string) : Exn :=
  PyException
    (if password_set cfg
     then "连接失败: " +:+ m +:+ ". 可能的原因: 服务器未运行、端口错误或认证失败。"
     else "连接失败: " +:+ m +:+ ". 可能的原因: 服务器未运行或端口错误。").

(** The three [except] clauses. *)
Definition handle (cfg : Config) (retry_on_failure : bool) (max_retries : nat)
    (retry_count : nat) (current_delay : Q) (e : Exn) (st : State) : Step * State :=
  let may_retry := retry_on_failure && (retry_count <? max_retries)%nat in
  match e with
  | SocketError m =>
      if connection_refused m then (Done (Raised (connect_failed cfg m)), st)
      else if may_retry then retry cfg retry_count current_delay st
      else (Done (Raised e), st)
  | JSONDecodeError _ =>
      if may_retry then retry cfg retry_count current_delay st
      else (Done (Raised e), st)
  | PyException m =>
      if may_retry then
        if str_in "认证失败" m then (Done (Raised e), st)
        else retry cfg retry_count current_delay st
      else (Done (Raised e), st)
  end.

(** The [finally] clause: [if conn: self._return_connection(conn)]. *)
Definition finally (cfg : Config) (conn : option Conn) (st : State) : State :=
  match conn with
  | Some c => snd (_return_connection cfg c st)
  | None => st
  end.

(** One iteration of the [while] loop. *)
Definition iteration (cfg : Config) (retry_on_failure : bool) (max_retries : nat)
    (retry_count : nat) (current_delay : Q) (st : State) : Step * State :=
  let a := net (attempts st) in
  let '(conn, body, st) := try_block cfg a (count_attempt st) in
  let '(step, st) :=
    match body with
    | BReturn response => (Done (Returned response), st)
    | BEmpty =>
        if retry_on_failure && (retry_count <? max_retries)%nat
        then retry cfg retry_count current_delay st
        else handle cfg retry_on_failure max_retries retry_count current_delay
               (PyException "Empty response from server") st
    | BRaise e => handle cfg retry_on_failure max_retries retry_count current_delay e st
    end in
  (step, finally cfg conn st).

(** [while retry_count <= max_retries: ...]; leaving the loop by its
    condition ends the function, which then returns [None]. *)
Fixpoint call_loop (fuel : nat) (cfg : Config) (retry_on_failure : bool)
    (max_retries : nat) (retry_count : nat) (current_delay : Q) (st : State)
  : Outcome * State :=
  match fuel with
  | O => (Diverged, st)
  | S fuel =>
      if (retry_count <=? max_retries)%nat then
        match iteration cfg retry_on_failure max_retries retry_count current_delay st with
        | (Done o, st) => (o, st)
        | (Continue retry_count current_delay, st) =>
            call_loop fuel cfg retry_on_failure max_retries retry_count current_delay st
        end
      else (Returned JNull, st)
  end.

(** [_call(method, params, retry_on_failure, max_retries)].  The request
    document does not bear on the control flow: what the server answers is
    the entry of [net] for the attempt.  Every round but the last raises
    [retry_count], so [max_retries + 2] rounds of fuel are never used up. *)
Definition _call (cfg : Config) (retry_on_failure : bool) (max_retries : nat)
    (st : State) : Outcome * State :=
  call_loop (S (S max_retries)) cfg retry_on_failure max_retries 0 (retry_delay cfg) st.

(** *** The result cache and [execute] *)

(** [f"execute:{server}:{command}"] *)
Definition cache_key (server command : string) : string :=
  "execute:" +:+ server +:+ ":" +:+ command.

(** The cache test that opens [execute]: a hit needs the key and
    [time.time() - cached['timestamp'] < self._cache_expiry]; the clock is
    read only when the key is there. *)
Definition cache_check (cfg : Config) (key : string) (st : State)
  : option Json * State :=
  match command_cache st !! key with
  | Some (result, timestamp) =>
      let now := clock (ticks st) in
      let st := tick st in
      if Qltb (now - timestamp) (cache_expiry cfg) then (Some result, st) else (None, st)
  | None => (None, st)
  end.

(** [self._command_cache[cache_key] = {'result': result, 'timestamp': time.time()}] *)
Definition cache_store (key : string) (result : Json) (st : State) : State :=
  let now := clock (ticks st) in
  let st := tick st in
  set_cache (<[key := (result, now)]> (command_cache st)) st.

Definition store_if (use_cache : bool) (key : string) (result : Json) (st : State) : State :=
  if use_cache then cache_store key result st else st.

Definition is_restart_command (command : string) : bool :=
  existsb (fun keyword => str_in keyword (lower command))
    ["restart"; "systemctl restart"; "service restart"; "reboot"].

(** [json.loads(text)] on a member of a decoded document. *)
Definition loads_member (text : Json) : Res Json :=
  match text with
  | JStr s => json_loads_str s
  | _ => Raise (PyException "the JSON object must be str, bytes or bytearray")
  end.

(** [data = json.loads(result["result"]["content"][0]["text"])] and
    [data.get("stdout", "") or data.get("stderr", "") or data.get("error", "")] *)
Definition command_output (result : Json) : Res Json :=
  let* r := getitem result "result" in
  let* content := getitem r "content" in
  let* first := getitem0 content in
  let* text := getitem first "text" in
  let* data := loads_member text in
  let* out := dict_get data "stdout" (JStr "") in
  if truthy out then Ok out
  else
    let* err := dict_get data "stderr" (JStr "") in
    if truthy err then Ok err else dict_get data "error" (JStr "").

(** The polling loop of the restart wait. Each round sleeps, reads the
    clock and probes the service with [_call(..., max_retries=1)]; whatever
    the probe raises is caught and the loop goes on. *)
Fixpoint restart_wait (fuel : nat) (cfg : Config) (key : string) (use_cache : bool)
    (restart_check_interval restart_max_wait : Z) (start_time elapsed : Q) (st : State)
  : Outcome * State :=
  match fuel with
  | O => (Diverged, st)
  | S fuel =>
      if Qltb elapsed (inject_Z restart_max_wait) then
        let st := sleep (inject_Z restart_check_interval) st in
        let elapsed := (clock (ticks st) - start_time)%Q in
        let st := tick st in
        let '(test, st) := _call cfg true 1 st in
        let again :=
          restart_wait fuel cfg key use_cache restart_check_interval restart_max_wait
            start_time elapsed in
        match test with
        | Returned test_result =>
            match contains_key "result" test_result with
            | Ok true =>
                let result := JStr ("重启完成 (耗时: " +:+ fmt_1f elapsed +:+ "秒)") in
                (Returned result, store_if use_cache key result st)
            | _ => again st
            end
        | _ => again st
        end
      else
        let result := JStr ("重启命令已执行，但等待超时 (" +:+ str_int restart_max_wait +:+ "秒)") in
        (Returned result, store_if use_cache key result st)
  end.

(** [execute(server, command, timeout, wait_for_restart,
    restart_check_interval, restart_max_wait, use_cache)].  [timeout] only
    travels in the request and is left out; [fuel] bounds the rounds of the
    restart wait. *)
Definition execute (fuel : nat) (cfg : Config) (server command : string)
    (wait_for_restart : bool) (restart_check_interval restart_max_wait : Z)
    (use_cache : bool) (st : State) : Outcome * State :=
  let key := cache_key server command in
  let '(hit, st) := if use_cache then cache_check cfg key st else (None, st) in
  match hit with
  | Some result => (Returned result, st)
  | None =>
      if is_restart_command command && wait_for_restart then
        (* the outcome of the restart command itself is only printed *)
        let '(_, st) := _call cfg true 3 st in
        let start_time := clock (ticks st) in
        let st := tick st in
        restart_wait fuel cfg key use_cache restart_check_interval restart_max_wait
          start_time 0 st
      else
        match _call cfg true 3 st with
        | (Returned result, st) =>
            match contains_key "result" result with
            | Raise e => (Raised e, st)
            | Ok true =>
                match command_output result with
                | Raise e => (Raised e, st)
                | Ok output => (Returned output, store_if use_cache key output st)
                end
            | Ok false =>
                let result_str := JStr (py_str result) in
                (Returned result_str, store_if use_cache key result_str st)
            end
        | (o, st) => (o, st)
        end
  end.

(** *** Bookkeeping: what each step leaves alone *)

Lemma get_connection_trace cfg a st r st' :
  _get_connection cfg a st = (r, st') ->
  attempts st' = attempts st /\ slept st' = slept st /\
  closed st' = closed st /\ command_cache st' = command_cache st.
Proof.
  unfold _get_connection. destruct (enable_connection_pool cfg); simpl.
  - destruct (put_back _ _ _); intros [= <- <-]; simpl; auto.
  - intros [= <- <-]; auto.
Qed.

Lemma return_connection_trace cfg c st :
  let st' := snd (_return_connection cfg c st) in
  attempts st' = attempts st /\ slept st' = slept st /\
  command_cache st' = command_cache st.
Proof.
  unfold _return_connection.
  destruct (enable_connection_pool cfg && negb (full cfg (connection_pool st))); simpl; auto.
Qed.

Lemma finally_trace cfg conn st :
  attempts (finally cfg conn st) = attempts st /\
  slept (finally cfg conn st) = slept st /\
  command_cache (finally cfg conn st) = command_cache st.
Proof.
  destruct conn as [c|]; simpl; [apply return_connection_trace | auto].
Qed.

Lemma try_block_trace cfg a st conn body st' :
  try_block cfg a st = (conn, body, st') ->
  attempts st' = attempts st /\ slept st' = slept st /\
  closed st' = closed st /\ command_cache st' = command_cache st.
Proof.
  unfold try_block. destruct (_get_connection cfg a st) as [r st1] eqn:G.
  apply get_connection_trace in G.
  destruct r as [c|e]; [destruct (exchange a)|]; intros [= <- <- <-]; exact G.
Qed.

(** A handler either ends the call, with nothing slept, or schedules the
    next round: one more retry, the backoff delay slept, and only while the
    budget lasts. *)
Lemma retry_spec cfg rc d st :
  retry cfg rc d st = (Continue (S rc) (backoff cfg d (S rc)), sleep (backoff cfg d (S rc)) st).
Proof. reflexivity. Qed.

Lemma handle_cases cfg rof max rc d e st :
  (exists o, handle cfg rof max rc d e st = (Done (Raised o), st)) \/
  (rof = true /\ (rc < max)%nat /\ handle cfg rof max rc d e st = retry cfg rc d st).
Proof.
  unfold handle.
  destruct rof; simpl; [destruct (rc <? max)%nat eqn:L; simpl|].
  - apply Nat.ltb_lt in L.
    destruct e as [m|m|m]; [destruct (connection_refused m) | | destruct (str_in _ m)]; eauto.
  - destruct e as [m|m|m]; [destruct (connection_refused m) | | ]; eauto.
  - destruct e as [m|m|m]; [destruct (connection_refused m) | | ]; eauto.
Qed.

Lemma iteration_cases cfg rof max rc d st :
  let st1 := count_attempt st in
  forall conn body st2, try_block cfg (net (attempts st)) st1 = (conn, body, st2) ->
  (exists o, o <> Diverged /\
     iteration cfg rof max rc d st = (Done o, finally cfg conn st2)) \/
  (rof = true /\ (rc < max)%nat /\
   iteration cfg rof max rc d st
   = (Continue (S rc) (backoff cfg d (S rc)),
      finally cfg conn (sleep (backoff cfg d (S rc)) st2))).
Proof.
  intros st1 conn body st2 T. unfold iteration. fold st1. rewrite T.
  destruct body as [r| |e].
  - left. exists (Returned r). split; [discriminate | reflexivity].
  - destruct (rof && (rc <? max)%nat) eqn:M.
    + right. apply andb_true_iff in M as [-> L]. apply Nat.ltb_lt in L. auto.
    + destruct (handle_cases cfg rof max rc d (PyException "Empty response from server") st2)
        as [[o H]|(-> & L & H)]; rewrite H.
      * left. exists (Raised o). split; [discriminate | reflexivity].
      * right. auto.
  - destruct (handle_cases cfg rof max rc d e st2) as [[o H]|(-> & L & H)]; rewrite H.
    + left. exists (Raised o). split; [discriminate | reflexivity].
    + right. auto.
Qed.

(** [_call] always ends: the fuel of the model is never used up. *)
Lemma call_loop_ends fuel cfg rof max rc d st :
  (rc <= S max)%nat -> (S max < rc + fuel)%nat ->
  fst (call_loop fuel cfg rof max rc d st) <> Diverged.
Proof.
  revert rc d st. induction fuel as [|fuel IH]; intros rc d st Hrc Hf; [lia|].
  simpl. destruct (rc <=? max)%nat eqn:L; [|simpl; discriminate].
  destruct (try_block cfg (net (attempts st)) (count_attempt st)) as [[conn body] st2] eqn:T.
  destruct (iteration_cases cfg rof max rc d st conn body st2 T)
    as [(o & Ho & H)|(-> & Hlt & H)]; rewrite H.
  - exact Ho.
  - apply IH; lia.
Qed.

Lemma call_ends cfg rof max st : fst (_call cfg rof max st) <> Diverged.
Proof. apply call_loop_ends; lia. Qed.

(** *** The compression marker *)

Lemma startswith_marker z : startswith marker (marker ++ z) = true.
Proof. reflexivity. Qed.

(** The marker has eleven bytes, and the request side prefixes all of
    them. *)
Lemma marker_length : length marker = 11%nat.
Proof. reflexivity. Qed.

(** Cutting the marker off at its length and decompressing restores the
    document, gzip being a codec: this is what the response side is after. *)
Lemma unmark_at_marker_length cfg d :
  enable_compression cfg = true ->
  gzip_decompress (gzip_compress d) = Some d ->
  _decompress_data cfg (drop (length marker) (marker ++ gzip_compress d)) = d.
Proof.
  intros E R. unfold _decompress_data. rewrite E. simpl negb. cbv iota.
  change (drop (length marker) (marker ++ gzip_compress d)) with (gzip_compress d).
  rewrite R. reflexivity.
Qed.

(** C1 (refuted on the code). A response made of the marker and the
    gzip-compressed form of a document [d] is not decoded from [d]: the
    slice [response_data[10:]] keeps the last byte of the eleven-byte
    marker, the colon, so [gzip.decompress] refuses the bytes and
    [_decompress_data] hands them back as they are; what reaches
    [json.loads] is the colon followed by the compressed bytes, which is
    not [d] for any [d] that does not itself start with a colon (no JSON
    document does). *)
Theorem C1_marked_response_keeps_colon (cfg : Config) (d : list byte) :
  unmark_response cfg (marker ++ gzip_compress d) = x3a :: gzip_compress d /\
  (forall c rest, d = c :: rest -> c <> x3a ->
     unmark_response cfg (marker ++ gzip_compress d) <> d).
Proof.
  assert (U : unmark_response cfg (marker ++ gzip_compress d) = x3a :: gzip_compress d).
  { unfold unmark_response. rewrite startswith_marker.
    change (drop 10 (marker ++ gzip_compress d)) with (x3a :: gzip_compress d).
    unfold _decompress_data. destruct (enable_compression cfg); reflexivity. }
  split; [exact U|].
  intros c rest -> Hc. rewrite U. intros [= E _]. congruence.
Qed.

(** *** Authentication errors are never retried *)

Lemma auth_failed_mark m : str_in "认证失败" (auth_failed_msg m) = true.
Proof.
  exact (str_in_prefix "认证失败" (": " +:+ m +:+ ". 请检查用户名和密码是否正确。")).
Qed.

Lemma handle_auth_failed cfg rof max rc d m st :
  handle cfg rof max rc d (auth_failed m) st = (Done (Raised (auth_failed m)), st).
Proof.
  unfold handle, auth_failed.
  destruct (rof && (rc <? max)%nat); [|reflexivity].
  rewrite (auth_failed_mark m). reflexivity.
Qed.

(** A decoded response carries an authentication-flavored error with
    message [m]: it has an [error] member, the message drawn from it is the
    string [m], and [m] mentions auth, password or login in any case. *)
Definition carries_auth_error (response : Json) (m : string) : Prop :=
  contains_key "error" response = Ok true /\
  error_msg response = Ok (JStr m) /\
  auth_flavored m = true.

Lemma check_error_auth response m :
  carries_auth_error response m -> check_error response = Raise (auth_failed m).
Proof.
  intros (C & E & A). unfold check_error. rewrite C. simpl. rewrite E. simpl.
  rewrite A. reflexivity.
Qed.

(** C3. Whenever the response read in an attempt carries an
    authentication-flavored error, [_call] raises the authentication
    failure out of that very attempt: no further attempt is started and
    nothing is slept, whatever the retry budget left ([retry_count] anywhere
    up to [max_retries], retrying enabled or not). *)
Theorem C3_auth_error_never_retried
    (fuel : nat) (cfg : Config) (retry_on_failure : bool) (max_retries retry_count : nat)
    (current_delay : Q) (st st1 : State) (conn : Conn)
    (response_data : list byte) (response : Json) (m : string) :
  (retry_count <= max_retries)%nat ->
  _get_connection cfg (net (attempts st)) (count_attempt st) = (Ok conn, st1) ->
  exchange (net (attempts st)) = Ok response_data ->
  unmark_response cfg response_data <> [] ->
  json_loads (unmark_response cfg response_data) = Ok response ->
  carries_auth_error response m ->
  exists st',
    call_loop (S fuel) cfg retry_on_failure max_retries retry_count current_delay st
    = (Raised (auth_failed m), st') /\
    attempts st' = S (attempts st) /\
    slept st' = slept st.
Proof.
  intros Hrc G X NE J A.
  assert (T : try_block cfg (net (attempts st)) (count_attempt st)
              = (Some conn, BRaise (auth_failed m), st1)).
  { unfold try_block. rewrite G, X. unfold decode_response.
    destruct (unmark_response cfg response_data) as [|b data] eqn:U; [congruence|].
    rewrite J, (check_error_auth _ _ A). reflexivity. }
  exists (finally cfg (Some conn) st1).
  destruct (try_block_trace _ _ _ _ _ _ T) as (Ha & Hs & _).
  destruct (finally_trace cfg (Some conn) st1) as (Fa & Fs & _).
  split; [|split].
  - simpl call_loop. apply Nat.leb_le in Hrc. rewrite Hrc.
    unfold iteration. rewrite T, handle_auth_failed. reflexivity.
  - rewrite Fa, Ha. reflexivity.
  - rewrite Fs, Hs. reflexivity.
Qed.

(** *** The retry bound *)

(** The failures [_call] retries: an empty response, a socket error other
    than a refused connection, an undecodable payload, and any other
    exception that is not marked as an authentication failure (a server
    error among them). *)
Definition retryable_exn (e : Exn) : bool :=
  match e with
  | SocketError m => negb (connection_refused m)
  | JSONDecodeError _ => true
  | PyException m => negb (str_in "认证失败" m)
  end.

Definition retryable_body (b : Body) : bool :=
  match b with
  | BReturn _ => false
  | BEmpty => true
  | BRaise e => retryable_exn e
  end.

(** An attempt fails in a retryable class: opening a connection, if it
    comes to that, succeeds or fails retryably, and the exchange ends in a
    retryable failure. *)
Definition retryable_attempt (cfg : Config) (a : Attempt) : bool :=
  match create a with
  | Ok _ => true
  | Raise e => retryable_exn e
  end &&
  retryable_body
    match exchange a with
    | Ok response_data => decode_response cfg response_data
    | Raise e => BRaise e
    end.

Lemma get_connection_raise cfg a st e st' :
  _get_connection cfg a st = (Raise e, st') -> create a = Raise e.
Proof.
  unfold _get_connection. destruct (enable_connection_pool cfg); simpl.
  - destruct (put_back _ _ _); [|discriminate]. congruence.
  - congruence.
Qed.

Lemma try_block_retryable cfg a st conn body st' :
  retryable_attempt cfg a = true ->
  try_block cfg a st = (conn, body, st') -> retryable_body body = true.
Proof.
  unfold retryable_attempt, try_block. intros [C X]%andb_true_iff.
  destruct (_get_connection cfg a st) as [[c|e] st1] eqn:G.
  - destruct (exchange a); intros [= <- <- <-]; exact X.
  - apply get_connection_raise in G. rewrite G in C. intros [= <- <- <-]. exact C.
Qed.

Lemma handle_retryable cfg max rc d e st :
  retryable_exn e = true ->
  handle cfg true max rc d e st
  = if (rc <? max)%nat then retry cfg rc d st else (Done (Raised e), st).
Proof.
  unfold handle, retryable_exn. simpl andb.
  destruct e as [m|m|m]; intros R.
  - apply negb_true_iff in R. rewrite R. reflexivity.
  - reflexivity.
  - apply negb_true_iff in R. rewrite R. destruct (rc <? max)%nat; reflexivity.
Qed.

(** A retryable failure with budget left: one more attempt counted, the
    backoff delay slept, and the loop goes round. *)
Lemma iteration_retry cfg max rc d st :
  retryable_attempt cfg (net (attempts st)) = true -> (rc < max)%nat ->
  exists st',
    iteration cfg true max rc d st = (Continue (S rc) (backoff cfg d (S rc)), st') /\
    attempts st' = S (attempts st) /\
    slept st' = slept st ++ [backoff cfg d (S rc)].
Proof.
  intros R L.
  destruct (try_block cfg (net (attempts st)) (count_attempt st)) as [[conn body] st2] eqn:T.
  pose proof (try_block_retryable _ _ _ _ _ _ R T) as B.
  destruct (try_block_trace _ _ _ _ _ _ T) as (Ha & Hs & _).
  apply Nat.ltb_lt in L.
  exists (finally cfg conn (sleep (backoff cfg d (S rc)) st2)).
  destruct (finally_trace cfg conn (sleep (backoff cfg d (S rc)) st2)) as (Fa & Fs & _).
  split; [|split].
  - unfold iteration. rewrite T.
    destruct body as [r| |e]; [discriminate B| |].
    + simpl andb. rewrite L. reflexivity.
    + rewrite (handle_retryable _ _ _ _ _ _ B), L. reflexivity.
  - rewrite Fa. simpl. exact Ha.
  - rewrite Fs. simpl. rewrite Hs. reflexivity.
Qed.

(** A retryable failure with the budget used up: the failure surfaces. *)
Lemma iteration_give_up cfg max rc d st :
  retryable_attempt cfg (net (attempts st)) = true -> (max <= rc)%nat ->
  exists e st',
    iteration cfg true max rc d st = (Done (Raised e), st') /\
    attempts st' = S (attempts st) /\
    slept st' = slept st.
Proof.
  intros R L.
  destruct (try_block cfg (net (attempts st)) (count_attempt st)) as [[conn body] st2] eqn:T.
  pose proof (try_block_retryable _ _ _ _ _ _ R T) as B.
  destruct (try_block_trace _ _ _ _ _ _ T) as (Ha & Hs & _). simpl in Ha, Hs.
  apply Nat.ltb_ge in L.
  destruct (finally_trace cfg conn st2) as (Fa & Fs & _).
  destruct body as [r| |e]; [discriminate B| |].
  - exists (PyException "Empty response from server"), (finally cfg conn st2).
    split; [|split; congruence].
    unfold iteration. rewrite T. simpl andb. rewrite L.
    unfold handle. simpl andb. rewrite L. reflexivity.
  - exists e, (finally cfg conn st2).
    split; [|split; congruence].
    unfold iteration. rewrite T, (handle_retryable _ _ _ _ _ _ B), L. reflexivity.
Qed.

(** Under exponential backoff a delay that is non-negative and within the
    cap is followed by one that is at least as long, and again
    non-negative and within the cap. *)
Lemma backoff_exponential cfg d n :
  enable_exponential_backoff cfg = true ->
  (0 <= d)%Q -> (d <= max_retry_delay cfg * 2)%Q ->
  (d <= backoff cfg d n)%Q /\ (0 <= backoff cfg d n)%Q /\
  (backoff cfg d n <= max_retry_delay cfg * 2)%Q.
Proof.
  intros E D0 DM. unfold backoff. rewrite E.
  assert (P : (1 <= inject_Z (2 ^ Z.of_nat n))%Q).
  { rewrite <- (Zle_Qle 1). pose proof (Z.pow_pos_nonneg 2 (Z.of_nat n)). lia. }
  assert (G : (d <= d * inject_Z (2 ^ Z.of_nat n))%Q).
  { rewrite <- (Qmult_1_r d) at 1. rewrite !(Qmult_comm d).
    apply Qmult_le_compat_r; assumption. }
  split; [|split].
  - apply py_min_glb; assumption.
  - apply py_min_glb; eapply Qle_trans; eassumption.
  - apply py_min_le_r.
Qed.

Lemma backoff_exponential_first cfg d n :
  enable_exponential_backoff cfg = true ->
  (0 <= d)%Q -> (0 <= max_retry_delay cfg)%Q ->
  (0 <= backoff cfg d n)%Q /\ (backoff cfg d n <= max_retry_delay cfg * 2)%Q.
Proof.
  intros E D0 M0. unfold backoff. rewrite E. split; [|apply py_min_le_r].
  apply py_min_glb.
  - apply Qmult_le_0_compat; [assumption|].
    rewrite <- (Zle_Qle 0). apply Z.pow_nonneg. lia.
  - apply Qmult_le_0_compat; [assumption | discriminate].
Qed.

(** C2. With [max_retries = 3] and a failure of a retryable class on
    every attempt (an empty response on every read, for one), [_call]
    starts exactly four attempts and then raises; it sleeps three times in
    between, and under exponential backoff (with a non-negative initial
    delay and cap) each delay is at least as long as the one before. *)
Theorem C2_retry_bound (cfg : Config) (st : State) :
  (forall i, (i < 4)%nat -> retryable_attempt cfg (net (attempts st + i)) = true) ->
  exists e st' d1 d2 d3,
    _call cfg true 3 st = (Raised e, st') /\
    attempts st' = (attempts st + 4)%nat /\
    slept st' = slept st ++ [d1; d2; d3] /\
    (enable_exponential_backoff cfg = true ->
     (0 <= retry_delay cfg)%Q -> (0 <= max_retry_delay cfg)%Q ->
     (d1 <= d2)%Q /\ (d2 <= d3)%Q).
Proof.
  intros R.
  set (d1 := backoff cfg (retry_delay cfg) 1).
  set (d2 := backoff cfg d1 2).
  set (d3 := backoff cfg d2 3).
  assert (R0 : retryable_attempt cfg (net (attempts st)) = true).
  { rewrite <- (Nat.add_0_r (attempts st)). apply R. lia. }
  destruct (iteration_retry cfg 3 0 (retry_delay cfg) st R0) as (st1 & I1 & A1 & S1); [lia|].
  assert (R1 : retryable_attempt cfg (net (attempts st1)) = true).
  { rewrite A1, <- Nat.add_1_r. apply R. lia. }
  destruct (iteration_retry cfg 3 1 d1 st1 R1) as (st2 & I2 & A2 & S2); [lia|].
  assert (R2 : retryable_attempt cfg (net (attempts st2)) = true).
  { rewrite A2, A1. replace (S (S (attempts st))) with (attempts st + 2)%nat by lia.
    apply R. lia. }
  destruct (iteration_retry cfg 3 2 d2 st2 R2) as (st3 & I3 & A3 & S3); [lia|].
  assert (R3 : retryable_attempt cfg (net (attempts st3)) = true).
  { rewrite A3, A2, A1. replace (S (S (S (attempts st)))) with (attempts st + 3)%nat by lia.
    apply R. lia. }
  destruct (iteration_give_up cfg 3 3 d3 st3 R3) as (e & st4 & I4 & A4 & S4); [lia|].
  exists e, st4, d1, d2, d3. split; [|split; [|split]].
  - unfold _call. simpl call_loop. fold d1 in I1. rewrite I1.
    fold d2 in I2. rewrite I2. fold d3 in I3. rewrite I3, I4. reflexivity.
  - lia.
  - rewrite S4, S3, S2, S1, <- !app_assoc. reflexivity.
  - intros E D0 M0.
    destruct (backoff_exponential_first cfg (retry_delay cfg) 1 E D0 M0) as [P1 C1].
    destruct (backoff_exponential cfg d1 2 E P1 C1) as (L12 & P2 & C2).
    destruct (backoff_exponential cfg d2 3 E P2 C2) as (L23 & _).
    split; assumption.
Qed.

(** *** The connection goes back whatever the attempt came to *)

Lemma iteration_state cfg rof max rc d st conn body st2 :
  try_block cfg (net (attempts st)) (count_attempt st) = (conn, body, st2) ->
  exists stx,
    snd (iteration cfg rof max rc d st) = finally cfg conn stx /\
    connection_pool stx = connection_pool st2 /\ closed stx = closed st2.
Proof.
  intros T.
  destruct (iteration_cases cfg rof max rc d st conn body st2 T)
    as [(o & _ & H)|(_ & _ & H)]; rewrite H; simpl; eauto.
Qed.

(** C5 (as the code has it). In every round of [_call] that acquired a
    connection, the [finally] clause hands it to [_return_connection]
    whatever the round came to (a response, an empty read, an undecodable
    payload, an error while sending or receiving): the connection is
    appended to the pool when pooling is enabled and the pool is not full,
    and closed otherwise. Only a round in which no connection could be
    acquired leaves pool and closed connections as they were. *)
Theorem C5_connection_returned_whatever_outcome
    (cfg : Config) (retry_on_failure : bool) (max_retries retry_count : nat)
    (current_delay : Q) (st st2 : State) (conn : option Conn) (body : Body) :
  try_block cfg (net (attempts st)) (count_attempt st) = (conn, body, st2) ->
  let st' := snd (iteration cfg retry_on_failure max_retries retry_count current_delay st) in
  match conn with
  | Some c =>
      if enable_connection_pool cfg && negb (full cfg (connection_pool st2))
      then connection_pool st' = connection_pool st2 ++ [c] /\ closed st' = closed st2
      else connection_pool st' = connection_pool st2 /\ closed st' = c :: closed st2
  | None => connection_pool st' = connection_pool st2 /\ closed st' = closed st2
  end.
Proof.
  intros T st'. subst st'.
  destruct (iteration_state cfg retry_on_failure max_retries retry_count current_delay
              st conn body st2 T) as (stx & -> & P & C).
  destruct conn as [c|]; simpl; [|auto].
  unfold _return_connection. rewrite P.
  destruct (enable_connection_pool cfg && negb (full cfg (connection_pool st2)));
    simpl; rewrite ?P, ?C; auto.
Qed.

(** *** [execute]: what is cached, and what is raised *)

Lemma store_if_lookup key result st :
  exists ts, command_cache (store_if true key result st) !! key = Some (result, ts).
Proof. eexists. simpl. apply lookup_insert_eq. Qed.

Lemma restart_wait_result fuel cfg key use_cache i m start elapsed st :
  match restart_wait fuel cfg key use_cache i m start elapsed st with
  | (Returned r, st') =>
      use_cache = true -> exists ts, command_cache st' !! key = Some (r, ts)
  | (Raised _, _) => False
  | (Diverged, _) => True
  end.
Proof.
  revert elapsed st. induction fuel as [|fuel IH]; intros elapsed st; simpl; [exact I|].
  destruct (Qltb elapsed (inject_Z m)).
  - destruct (_call cfg true 1 _) as [test st1].
    destruct test as [test_result|e|]; try apply IH.
    destruct (contains_key "result" test_result) as [[|]|e]; try apply IH.
    intros ->. apply store_if_lookup.
  - intros ->. apply store_if_lookup.
Qed.

(** Whatever a cached [execute] returns is in the cache under its key. *)
Lemma execute_caches fuel cfg server command wfr i m st r st1 :
  execute fuel cfg server command wfr i m true st = (Returned r, st1) ->
  exists ts, command_cache st1 !! cache_key server command = Some (r, ts).
Proof.
  unfold execute. unfold cache_check.
  destruct (command_cache st !! cache_key server command) as [[result ts]|] eqn:L.
  - destruct (Qltb _ _).
    + intros [= <- <-]. exists ts. exact L.
    + destruct (is_restart_command command && wfr).
      * destruct (_call cfg true 3 _) as [o st2].
        pose proof (restart_wait_result fuel cfg (cache_key server command) true i m
                      (clock (ticks st2)) 0 (tick st2)) as W.
        intros E. rewrite E in W. auto.
      * destruct (_call cfg true 3 _) as [[result'|e|] st2]; try discriminate.
        destruct (contains_key "result" result') as [[|]|e]; try discriminate.
        -- destruct (command_output result'); [|discriminate].
           intros [= <- <-]. apply store_if_lookup.
        -- intros [= <- <-]. apply store_if_lookup.
  - destruct (is_restart_command command && wfr).
    + destruct (_call cfg true 3 _) as [o st2].
      pose proof (restart_wait_result fuel cfg (cache_key server command) true i m
                    (clock (ticks st2)) 0 (tick st2)) as W.
      intros E. rewrite E in W. auto.
    + destruct (_call cfg true 3 _) as [[result'|e|] st2]; try discriminate.
      destruct (contains_key "result" result') as [[|]|e]; try discriminate.
      * destruct (command_output result'); [|discriminate].
        intros [= <- <-]. apply store_if_lookup.
      * intros [= <- <-]. apply store_if_lookup.
Qed.

(** C9. For a fixed server and command with [use_cache=True]: once a call
    of [execute] has returned, its result is in the cache with the time it
    was stored, and a second call whose clock reading is within
    [cache_expiry] of that time returns the identical result and starts no
    attempt on the network. *)
Theorem C9_cached_execute_repeats
    (fuel : nat) (cfg : Config) (server command : string) (wait_for_restart : bool)
    (restart_check_interval restart_max_wait : Z) (st st1 : State) (r : Json) :
  execute fuel cfg server command wait_for_restart restart_check_interval
    restart_max_wait true st = (Returned r, st1) ->
  exists ts,
    command_cache st1 !! cache_key server command = Some (r, ts) /\
    forall fuel' wait_for_restart' restart_check_interval' restart_max_wait',
      Qltb (clock (ticks st1) - ts) (cache_expiry cfg) = true ->
      exists st2,
        execute fuel' cfg server command wait_for_restart' restart_check_interval'
          restart_max_wait' true st1 = (Returned r, st2) /\
        attempts st2 = attempts st1 /\
        command_cache st2 = command_cache st1.
Proof.
  intros E. destruct (execute_caches _ _ _ _ _ _ _ _ _ _ E) as [ts L].
  exists ts. split; [exact L|].
  intros fuel' w' i' m' Fresh. exists (tick st1).
  unfold execute, cache_check. rewrite L, Fresh. auto.
Qed.

(** C4 (as the code has it). On the ordinary path [execute] has no
    handler of its own: on a cache miss, whatever [_call] raises once the
    retry budget is spent, authentication failure or not, is raised by
    [execute] unchanged. On the restart-wait path (a restart command with
    [wait_for_restart]) every exception is caught, authentication failures
    included, so [execute] never raises there. *)
Theorem C4_execute_propagates_failures
    (fuel : nat) (cfg : Config) (server command : string) (wait_for_restart : bool)
    (restart_check_interval restart_max_wait : Z) (use_cache : bool) (st st0 : State) :
  (if use_cache then cache_check cfg (cache_key server command) st else (None, st))
  = (None, st0) ->
  (is_restart_command command && wait_for_restart = false ->
   forall e st', _call cfg true 3 st0 = (Raised e, st') ->
     execute fuel cfg server command wait_for_restart restart_check_interval
       restart_max_wait use_cache st = (Raised e, st')) /\
  (is_restart_command command && wait_for_restart = true ->
   forall e, fst (execute fuel cfg server command wait_for_restart restart_check_interval
                    restart_max_wait use_cache st) <> Raised e).
Proof.
  intros Miss. unfold execute. rewrite Miss. split; intros -> e.
  - intros st' ->. reflexivity.
  - destruct (_call cfg true 3 st0) as [o st2].
    pose proof (restart_wait_result fuel cfg (cache_key server command) use_cache
                  restart_check_interval restart_max_wait (clock (ticks st2)) 0 (tick st2)) as W.
    destruct (restart_wait _ _ _ _ _ _ _ _ _) as [[v|e'|] st3]; simpl; congruence || easy.
Qed.

End Client.

(** *** A concrete client and network *)

(** JSON text is written with single quotes and turned into the real
    thing here. *)
Fixpoint quoted (s : string) : string :=
  match s with
  | EmptyString => EmptyString
  | String c t => String (if Ascii.eqb c "'" then ascii_of_nat 34 else c) (quoted t)
  end.

Definition doc (s : string) : list byte :=
  String.list_byte_of_string (quoted s) ++ [x0a].

Fixpoint bytes_eqb (a b : list byte) : bool :=
  match a, b with
  | [], [] => true
  | x :: a', y :: b' => Byte.eqb x y && bytes_eqb a' b'
  | _, _ => false
  end.

Definition auth_error_doc : list byte :=
  doc "{'error':{'code':401,'message':'Authentication failed'}}".

Definition auth_error_json : Json :=
  JObj [("error", JObj [("code", JNum 401); ("message", JStr "Authentication failed")])].

Definition uptime_text : string := quoted "{'stdout':'up 3 days'}".

Definition uptime_doc : list byte :=
  doc "{'result':{'content':[{'type':'text','text':'{\'stdout\':\'up 3 days\'}'}]}}".

Definition uptime_json : Json :=
  JObj [("result",
         JObj [("content", JArr [JObj [("type", JStr "text"); ("text", JStr uptime_text)]])])].

(** A runtime that decodes the documents above and refuses every other
    payload; its gzip stores the data behind the magic number. *)
Definition demo_runtime : Runtime := {|
  json_loads b :=
    if bytes_eqb b auth_error_doc then Ok auth_error_json
    else if bytes_eqb b uptime_doc then Ok uptime_json
    else Raise (JSONDecodeError "Expecting value: line 1 column 1 (char 0)");
  json_loads_str s :=
    if String.eqb s uptime_text then Ok (JObj [("stdout", JStr "up 3 days")])
    else Raise (JSONDecodeError "Expecting value: line 1 column 1 (char 0)");
  py_str _ := "{...}";
  gzip_compress d := x1f :: x8b :: d;
  gzip_members b := Some (drop 2 b);
  fmt_1f q :=
    let tenths := Qfloor (q * 10 + (1 # 2)) in
    str_int (tenths / 10) +:+ "." +:+ str_int (tenths mod 10)
|}.

(** The settings [__init__] leaves, and the same with exponential backoff
    switched on (as the strategy for a very unstable network does). *)
Definition default_config : Config := {|
  password := None;
  enable_compression := true;
  enable_connection_pool := true;
  pool_maxsize := 5;
  connection_expiry := 300;
  cache_expiry := 60;
  retry_delay := 1 # 2;
  max_retry_delay := 5;
  enable_exponential_backoff := false
|}.

Definition backoff_config : Config := {|
  password := None;
  enable_compression := true;
  enable_connection_pool := true;
  pool_maxsize := 5;
  connection_expiry := 300;
  cache_expiry := 60;
  retry_delay := 1 # 2;
  max_retry_delay := 5;
  enable_exponential_backoff := true
|}.

Definition init_state : State := {|
  connection_pool := [];
  connection_times := ∅;
  closed := [];
  command_cache := ∅;
  attempts := 0;
  slept := [];
  ticks := 0
|}.

(** A server that is reachable and answers every request with the given
    bytes; a clock that advances ten seconds per reading. *)
Definition answering (response_data : list byte) : nat -> Attempt :=
  fun _ => {| probe := fun _ => true; create := Ok 1%nat; exchange := Ok response_data |}.

Definition demo_clock : nat -> Q := fun n => inject_Z (10 * Z.of_nat n).

(** The compressed form of a small response, marked, comes out of the
    response side of [_call] with the colon still in front. *)
Example marked_response_example :
  let d := String.list_byte_of_string "{}" in
  @unmark_response demo_runtime default_config (marker ++ @gzip_compress demo_runtime d)
  = [x3a; x1f; x8b; x7b; x7d].
Proof. reflexivity. Qed.

(** Four attempts on a server that sends nothing back, then the failure;
    the delays slept are 1, 4 and 10 seconds. *)
Lemma C2_retry_bound_witness :
  exists e st' d1 d2 d3,
    @_call demo_runtime (answering []) demo_clock backoff_config true 3 init_state
    = (Raised e, st') /\
    attempts st' = (attempts init_state + 4)%nat /\
    slept st' = slept init_state ++ [d1; d2; d3] /\
    (enable_exponential_backoff backoff_config = true ->
     (0 <= retry_delay backoff_config)%Q -> (0 <= max_retry_delay backoff_config)%Q ->
     (d1 <= d2)%Q /\ (d2 <= d3)%Q).
Proof.
  apply (@C2_retry_bound demo_runtime (answering []) demo_clock backoff_config init_state).
  intros i Hi. reflexivity.
Defined.

Example empty_server_delays :
  let st' := snd (@_call demo_runtime (answering []) demo_clock backoff_config true 3 init_state) in
  attempts st' = 4%nat /\ Forall2 Qeq (slept st') [1; 4; 10]%Q.
Proof. split; [reflexivity | repeat constructor]. Qed.

(** A server that answers with an authentication error: one attempt, no
    sleep, although three retries were left. *)
Lemma C3_auth_error_witness :
  exists st',
    @call_loop demo_runtime (answering auth_error_doc) demo_clock 4 default_config true 3 0
      (retry_delay default_config) init_state
    = (Raised (auth_failed "Authentication failed"), st') /\
    attempts st' = S (attempts init_state) /\
    slept st' = slept init_state.
Proof.
  eapply (@C3_auth_error_never_retried demo_runtime (answering auth_error_doc) demo_clock
            3 default_config true 3 0 (retry_delay default_config) init_state _ 1%nat
            auth_error_doc auth_error_json "Authentication failed").
  - lia.
  - reflexivity.
  - reflexivity.
  - discriminate.
  - reflexivity.
  - repeat split.
Defined.

(** An empty read, on a connection that was opened for the attempt: the
    call fails without a response, and the connection is in the pool
    afterwards. *)
Lemma C5_empty_read_connection_pooled :
  fst (@_call demo_runtime (answering []) demo_clock default_config true 0 init_state)
  = Raised (PyException "Empty response from server") /\
  connection_pool
    (snd (@_call demo_runtime (answering []) demo_clock default_config true 0 init_state))
  = [1%nat].
Proof. split; reflexivity. Qed.

Lemma C5_connection_returned_witness :
  let st' :=
    snd (@iteration demo_runtime (answering []) demo_clock default_config true 3 0 (1 # 2)
           init_state) in
  connection_pool st' = [] ++ [1%nat] /\ closed st' = [].
Proof.
  exact (@C5_connection_returned_whatever_outcome demo_runtime (answering []) demo_clock
           default_config true 3 0 (1 # 2) init_state
           (snd (@try_block demo_runtime demo_clock default_config (answering [] 0%nat)
                   (count_attempt init_state)))
           (Some 1%nat) BEmpty eq_refl).
Defined.

(** [execute] on a server that sends nothing back raises, although the
    failure is no authentication failure; and a restart wait on a server
    that rejects the credentials returns a string. *)
Lemma C4_execute_raises_on_empty_response :
  fst (@execute demo_runtime (answering []) demo_clock 0 default_config "local" "uptime"
         false 2 60 true init_state)
  = Raised (PyException "Empty response from server") /\
  fst (@execute demo_runtime (answering auth_error_doc) demo_clock 5 default_config "local"
         "systemctl restart nginx" true 2 60 false init_state)
  = Returned (JStr "重启命令已执行，但等待超时 (60秒)").
Proof. split; reflexivity. Qed.

Lemma C4_execute_propagates_witness :
  fst (@execute demo_runtime (answering []) demo_clock 0 default_config "local" "uptime"
         false 2 60 true init_state)
  = Raised (PyException "Empty response from server").
Proof.
  destruct (@C4_execute_propagates_failures demo_runtime (answering []) demo_clock 0
              default_config "local" "uptime" false 2 60 true init_state init_state eq_refl)
    as [P _].
  destruct (@_call demo_runtime (answering []) demo_clock default_config true 3 init_state)
    as [o st'] eqn:E.
  assert (O : o = Raised (PyException "Empty response from server")).
  { apply (f_equal fst) in E. symmetry. exact E. }
  subst o. rewrite (P eq_refl _ _ eq_refl). reflexivity.
Defined.

(** Two calls for uptime twenty seconds apart: one exchange with the
    server, the same answer twice. *)
Lemma C9_cached_execute_witness :
  let first :=
    @execute demo_runtime (answering uptime_doc) demo_clock 0 default_config "local" "uptime"
      false 2 60 true init_state in
  fst first = Returned (JStr "up 3 days") /\
  exists st2,
    @execute demo_runtime (answering uptime_doc) demo_clock 0 default_config "local" "uptime"
      false 2 60 true (snd first) = (Returned (JStr "up 3 days"), st2) /\
    attempts st2 = attempts (snd first) /\
    command_cache st2 = command_cache (snd first).
Proof.
  intros first. split; [reflexivity|].
  destruct (@C9_cached_execute_repeats demo_runtime (answering uptime_doc) demo_clock 0
              default_config "local" "uptime" false 2 60 init_state (snd first)
              (JStr "up 3 days") eq_refl) as (ts & L & Again).
  apply (Again 0%nat false 2%Z 60%Z).
  assert (T : ts = inject_Z 20).
  { cut (Some (JStr "up 3 days", ts) = Some (JStr "up 3 days", inject_Z 20)); [congruence|].
    rewrite <- L. reflexivity. }
  rewrite T. reflexivity.
Defined.

(** *** Further facts about [_call] *)

Section CallFacts.

Context {RT : Runtime}.
Variable net : nat -> Attempt.
Variable clock : nat -> Q.

(** The cap of the backoff in force. *)
Definition delay_cap (cfg : Config) : Q :=
  if enable_exponential_backoff cfg then (max_retry_delay cfg * 2)%Q else max_retry_delay cfg.

Lemma backoff_capped cfg d n : (backoff cfg d n <= delay_cap cfg)%Q.
Proof.
  unfold backoff, delay_cap. destruct (enable_exponential_backoff cfg); apply py_min_le_r.
Qed.

(** A response passes the check only if it has no [error] member. *)
Lemma check_error_ok response :
  check_error response = Ok tt -> contains_key "error" response = Ok false.
Proof.
  unfold check_error. destruct (contains_key "error" response) as [[|]|e]; simpl.
  - destruct (error_msg response) as [[]|e]; simpl; try discriminate.
  - reflexivity.
  - discriminate.
Qed.

Lemma decode_response_return cfg response_data r :
  decode_response cfg response_data = BReturn r -> contains_key "error" r = Ok false.
Proof.
  unfold decode_response. destruct (unmark_response cfg response_data); [discriminate|].
  destruct (json_loads _) as [response|e]; [|discriminate].
  destruct (check_error response) as [[]|e] eqn:C; [|discriminate].
  intros [= <-]. apply check_error_ok, C.
Qed.

Lemma try_block_return cfg a st conn r st' :
  try_block clock cfg a st = (conn, BReturn r, st') -> contains_key "error" r = Ok false.
Proof.
  unfold try_block. destruct (_get_connection clock cfg a st) as [[c|e] st1]; [|discriminate].
  destruct (exchange a) as [response_data|e]; [|discriminate].
  intros [= _ D _]. exact (decode_response_return _ _ _ D).
Qed.

(** One round of the loop, whatever the network does: one more attempt,
    the cache untouched; the round ends the call, with nothing slept, or
    schedules a retry within the budget and sleeps the backoff delay. *)
Lemma iteration_spec cfg rof max rc d st :
  let '(step, st') := iteration net clock cfg rof max rc d st in
  attempts st' = S (attempts st) /\
  command_cache st' = command_cache st /\
  match step with
  | Done o =>
      o <> Diverged /\ slept st' = slept st /\
      forall r, o = Returned r -> contains_key "error" r = Ok false
  | Continue rc' d' =>
      rof = true /\ (rc < max)%nat /\ rc' = S rc /\ d' = backoff cfg d (S rc) /\
      slept st' = slept st ++ [d']
  end.
Proof.
  destruct (try_block clock cfg (net (attempts st)) (count_attempt st))
    as [[conn body] st2] eqn:T.
  destruct (try_block_trace _ _ _ _ _ _ _ T) as (Ha & Hs & _ & Hc). simpl in Ha, Hs, Hc.
  assert (R : forall r, body = BReturn r -> contains_key "error" r = Ok false).
  { intros r ->. exact (try_block_return _ _ _ _ _ _ T). }
  unfold iteration. rewrite T.
  destruct body as [r| |e].
  - destruct (finally_trace clock cfg conn st2) as (Fa & Fs & Fc).
    split_and!; try congruence. intros r' [= <-]. auto.
  - destruct (rof && (rc <? max)%nat) eqn:M.
    + apply andb_true_iff in M as [-> L]. apply Nat.ltb_lt in L. simpl.
      destruct (finally_trace clock cfg conn (sleep (backoff cfg d (S rc)) st2)) as (Fa & Fs & Fc).
      split_and!; auto; try (simpl in *; congruence).
    + destruct (handle_cases cfg rof max rc d (PyException "Empty response from server") st2)
        as [[o H]|(-> & L & H)]; rewrite H.
      * destruct (finally_trace clock cfg conn st2) as (Fa & Fs & Fc).
        split_and!; try congruence; try discriminate.
      * simpl.
        destruct (finally_trace clock cfg conn (sleep (backoff cfg d (S rc)) st2))
          as (Fa & Fs & Fc).
        split_and!; auto; try (simpl in *; congruence).
  - destruct (handle_cases cfg rof max rc d e st2) as [[o H]|(-> & L & H)]; rewrite H.
    + destruct (finally_trace clock cfg conn st2) as (Fa & Fs & Fc).
      split_and!; try congruence; try discriminate.
    + simpl.
      destruct (finally_trace clock cfg conn (sleep (backoff cfg d (S rc)) st2))
        as (Fa & Fs & Fc).
      split_and!; auto; try (simpl in *; congruence).
Qed.

(** The whole loop, from any round within the budget. *)
Lemma call_loop_run fuel cfg rof max : forall rc d st,
  (rc <= max)%nat -> (S max < rc + fuel)%nat ->
  exists n delays,
    let '(o, st') := call_loop net clock fuel cfg rof max rc d st in
    o <> Diverged /\
    (1 <= n)%nat /\ (n <= S max - rc)%nat /\
    attempts st' = (attempts st + n)%nat /\
    slept st' = slept st ++ delays /\ S (length delays) = n /\
    Forall (fun x => (x <= delay_cap cfg)%Q) delays /\
    command_cache st' = command_cache st /\
    (rof = false -> n = 1%nat) /\
    (forall r, o = Returned r -> contains_key "error" r = Ok false).
Proof.
  induction fuel as [|fuel IH]; intros rc d st Hrc Hf; [lia|].
  simpl. pose proof Hrc as L. apply Nat.leb_le in L. rewrite L.
  pose proof (iteration_spec cfg rof max rc d st) as I.
  destruct (iteration net clock cfg rof max rc d st) as [[o|rc' d'] st1].
  - destruct I as (Ha & Hc & Ho & Hs & Hr).
    exists 1%nat, []. rewrite app_nil_r. split_and!; auto; try lia.
  - destruct I as (Ha & Hc & -> & Hlt & -> & -> & Hs).
    destruct (IH (S rc) (backoff cfg d (S rc)) st1) as (n & delays & R); [lia | lia |].
    exists (S n), (backoff cfg d (S rc) :: delays).
    destruct (call_loop net clock fuel cfg true max (S rc) (backoff cfg d (S rc)) st1)
      as [o st'].
    destruct R as (Ho & N1 & N2 & Ra & Rs & Rl & Rf & Rc & _ & Rr).
    split_and!; auto; try lia.
    + rewrite Rs, Hs, <- app_assoc. reflexivity.
    + constructor; [apply backoff_capped | exact Rf].
    + congruence.
Qed.

Lemma call_attempts_grow cfg retry_on_failure max_retries st :
  (attempts st < attempts (snd (_call net clock cfg retry_on_failure max_retries st)))%nat.
Proof.
  unfold _call.
  destruct (call_loop_run (S (S max_retries)) cfg retry_on_failure max_retries 0
              (retry_delay cfg) st) as (n & delays & R); [lia | lia |].
  destruct (call_loop net clock _ cfg retry_on_failure max_retries 0 _ st) as [o st'].
  destruct R as (_ & N1 & N2 & Ra & _). simpl. lia.
Qed.

(** X1. [_call] starts at least one attempt and at most [max_retries + 1],
    sleeps exactly once between two consecutive attempts and never after
    the last, and with [retry_on_failure=False] makes a single attempt;
    this holds whatever the network does. *)
Theorem call_attempts_bounded (cfg : Config) (retry_on_failure : bool)
    (max_retries : nat) (st : State) :
  let st' := snd (_call net clock cfg retry_on_failure max_retries st) in
  (attempts st < attempts st' <= attempts st + S max_retries)%nat /\
  (length (slept st') + S (attempts st) = length (slept st) + attempts st')%nat /\
  (retry_on_failure = false -> attempts st' = S (attempts st)).
Proof.
  unfold _call.
  destruct (call_loop_run (S (S max_retries)) cfg retry_on_failure max_retries 0
              (retry_delay cfg) st) as (n & delays & R); [lia | lia |].
  destruct (call_loop net clock _ cfg retry_on_failure max_retries 0 _ st) as [o st'].
  destruct R as (_ & N1 & N2 & Ra & Rs & Rl & _ & _ & Rn & _). simpl.
  split_and!.
  - lia.
  - lia.
  - rewrite Rs, length_app. lia.
  - intros E. specialize (Rn E). lia.
Qed.

(** X2. Every delay [_call] sleeps is at most the cap in force:
    [_max_retry_delay] under linear backoff, twice that under exponential
    backoff. *)
Theorem call_delays_capped (cfg : Config) (retry_on_failure : bool)
    (max_retries : nat) (st : State) :
  exists delays,
    slept (snd (_call net clock cfg retry_on_failure max_retries st)) = slept st ++ delays /\
    Forall (fun x => (x <= delay_cap cfg)%Q) delays.
Proof.
  unfold _call.
  destruct (call_loop_run (S (S max_retries)) cfg retry_on_failure max_retries 0
              (retry_delay cfg) st) as (n & delays & R); [lia | lia |].
  destruct (call_loop net clock _ cfg retry_on_failure max_retries 0 _ st) as [o st'].
  exists delays. simpl. split; apply R.
Qed.

(** X3. A response that [_call] returns never has an [error] member: a
    response with one always ends in an exception. *)
Theorem call_returns_no_error (cfg : Config) (retry_on_failure : bool)
    (max_retries : nat) (st : State) (r : Json) :
  fst (_call net clock cfg retry_on_failure max_retries st) = Returned r ->
  contains_key "error" r = Ok false.
Proof.
  unfold _call.
  destruct (call_loop_run (S (S max_retries)) cfg retry_on_failure max_retries 0
              (retry_delay cfg) st) as (n & delays & R); [lia | lia |].
  destruct (call_loop net clock _ cfg retry_on_failure max_retries 0 _ st) as [o st'].
  simpl. intros ->. apply R. reflexivity.
Qed.

Lemma call_keeps_cache cfg rof max st :
  command_cache (snd (_call net clock cfg rof max st)) = command_cache st.
Proof.
  unfold _call.
  destruct (call_loop_run (S (S max)) cfg rof max 0 (retry_delay cfg) st)
    as (n & delays & R); [lia | lia |].
  destruct (call_loop net clock _ cfg rof max 0 _ st) as [o st']. simpl. apply R.
Qed.

(** *** The pool *)

(** The pool holds no more connections than the queue was built for (a
    queue built with size 0 is unbounded). *)
Definition pool_bounded (cfg : Config) (st : State) : Prop :=
  (0 < pool_maxsize cfg)%nat -> (length (connection_pool st) <= pool_maxsize cfg)%nat.

Lemma full_spec cfg pool :
  full cfg pool = true <-> (0 < pool_maxsize cfg <= length pool)%nat.
Proof.
  unfold full. rewrite andb_true_iff, Nat.ltb_lt, Nat.leb_le. reflexivity.
Qed.

(** Once the queue is full nothing more is put. *)
Lemma put_back_full cfg valid : forall pool,
  full cfg pool = true -> put_back cfg pool valid = pool.
Proof.
  induction valid as [|c valid IH]; intros pool F; simpl; [reflexivity|].
  rewrite F. apply IH, F.
Qed.

Lemma put_back_prefix cfg valid : forall pool,
  exists k, put_back cfg pool valid = pool ++ take k valid.
Proof.
  induction valid as [|c valid IH]; intros pool; simpl.
  - exists 0%nat. rewrite app_nil_r. reflexivity.
  - destruct (full cfg pool) eqn:F.
    + exists 0%nat. rewrite (put_back_full cfg valid pool F), app_nil_r. reflexivity.
    + destruct (IH (pool ++ [c])) as [k E]. exists (S k). rewrite E, <- app_assoc. reflexivity.
Qed.

Lemma put_back_bounded cfg valid : forall pool,
  (0 < pool_maxsize cfg)%nat ->
  (length pool <= pool_maxsize cfg)%nat ->
  (length (put_back cfg pool valid) <= pool_maxsize cfg)%nat.
Proof.
  induction valid as [|c valid IH]; intros pool M L; simpl; [exact L|].
  destruct (full cfg pool) eqn:F; [apply IH; assumption|].
  apply IH; [exact M|]. rewrite length_app. simpl.
  destruct (decide (pool_maxsize cfg <= length pool)%nat) as [G|]; [|lia].
  assert (full cfg pool = true) by (apply full_spec; lia). congruence.
Qed.

(** Whether a pooled connection is fit for reuse at the time of the
    call: within expiry since it was last handed out or returned, and
    answering the zero-byte probe. *)
Definition alive (cfg : Config) (a : Attempt) (st : State) (c : Conn) : bool :=
  Qltb (clock (ticks st) - default 0%Q (connection_times st !! c)) (connection_expiry cfg)
  && probe a c.

(** X5. With pooling on, [_get_connection] hands out the first pooled
    connection that is within expiry and answers the probe, and opens a
    new one only if there is none; every connection left in the pool was
    pooled before and is fit for reuse, so an expired or dead connection is
    never handed out again. *)
Theorem get_connection_reuses_alive (cfg : Config) (a : Attempt) (st : State) :
  enable_connection_pool cfg = true ->
  let '(r, st') := _get_connection clock cfg a st in
  match List.filter (alive cfg a st) (connection_pool st) with
  | c :: _ => r = Ok c
  | [] => r = create a
  end /\
  forall c, c ∈ connection_pool st' ->
            c ∈ connection_pool st /\ alive cfg a st c = true.
Proof.
  intros E. unfold _get_connection. rewrite E. simpl negb. cbv iota.
  change (List.filter _ (connection_pool (tick st)))
    with (List.filter (alive cfg a st) (connection_pool st)).
  destruct (put_back_prefix cfg (List.filter (alive cfg a st) (connection_pool st)) [])
    as [k P]. simpl in P.
  assert (Sub : forall c, c ∈ take k (List.filter (alive cfg a st) (connection_pool st)) ->
                          c ∈ connection_pool st /\ alive cfg a st c = true).
  { intros c Hc.
    assert (Hin : c ∈ List.filter (alive cfg a st) (connection_pool st)).
    { rewrite <- (take_drop k). apply elem_of_app. left. exact Hc. }
    apply list_elem_of_In, filter_In in Hin as [H1 H2].
    split; [apply list_elem_of_In, H1 | exact H2]. }
  destruct (List.filter (alive cfg a st) (connection_pool st)) as [|c valid] eqn:V.
  - simpl. split; [reflexivity|]. intros c Hc. inversion Hc.
  - assert (H0 : exists rest, put_back cfg [] (c :: valid) = c :: rest).
    { simpl.
      assert (F : full cfg [] = false).
      { destruct (full cfg []) eqn:F; [|reflexivity]. apply full_spec in F. simpl in F. lia. }
      rewrite F. destruct (put_back_prefix cfg valid [c]) as [j Pj]. rewrite Pj. eauto. }
    destruct H0 as [rest H0]. rewrite H0 in *.
    split; [reflexivity|]. simpl. intros x Hx. apply Sub. rewrite <- P. right. exact Hx.
Qed.

Lemma get_connection_bounded cfg a st :
  pool_bounded cfg st -> pool_bounded cfg (snd (_get_connection clock cfg a st)).
Proof.
  intros B. unfold _get_connection. destruct (enable_connection_pool cfg); simpl; [|exact B].
  intros M.
  pose proof (put_back_bounded cfg (List.filter
     (fun c => Qltb (clock (ticks st) - default 0%Q (connection_times (tick st) !! c))
                 (connection_expiry cfg) && probe a c) (connection_pool (tick st))) [] M) as P.
  simpl in P. specialize (P (Nat.le_0_l _)).
  destruct (put_back cfg [] _) as [|c rest]; simpl in *; lia.
Qed.

Lemma return_connection_bounded cfg c st :
  pool_bounded cfg st -> pool_bounded cfg (snd (_return_connection clock cfg c st)).
Proof.
  intros B. unfold _return_connection.
  destruct (enable_connection_pool cfg); simpl; [|exact B].
  destruct (full cfg (connection_pool st)) eqn:F; simpl; [exact B|].
  intros M. simpl. rewrite length_app. simpl.
  destruct (decide (pool_maxsize cfg <= length (connection_pool st))%nat) as [G|]; [|lia].
  assert (full cfg (connection_pool st) = true) by (apply full_spec; lia). congruence.
Qed.

Lemma try_block_state cfg a st conn body st2 :
  try_block clock cfg a st = (conn, body, st2) ->
  st2 = snd (_get_connection clock cfg a st).
Proof.
  unfold try_block. destruct (_get_connection clock cfg a st) as [[c|e] st1]; simpl.
  - destruct (exchange a); intros [= _ _ <-]; reflexivity.
  - intros [= _ _ <-]. reflexivity.
Qed.

Lemma iteration_bounded cfg rof max rc d st :
  pool_bounded cfg st -> pool_bounded cfg (snd (iteration net clock cfg rof max rc d st)).
Proof.
  intros B.
  destruct (try_block clock cfg (net (attempts st)) (count_attempt st))
    as [[conn body] st2] eqn:T.
  destruct (iteration_state net clock cfg rof max rc d st conn body st2 T) as (stx & -> & P & _).
  assert (Bx : pool_bounded cfg stx).
  { unfold pool_bounded. rewrite P, (try_block_state _ _ _ _ _ _ T).
    apply get_connection_bounded. exact B. }
  destruct conn as [c|]; simpl; [apply return_connection_bounded|]; exact Bx.
Qed.

Lemma call_loop_bounded fuel cfg rof max : forall rc d st,
  pool_bounded cfg st -> pool_bounded cfg (snd (call_loop net clock fuel cfg rof max rc d st)).
Proof.
  induction fuel as [|fuel IH]; intros rc d st B; simpl; [exact B|].
  destruct (rc <=? max)%nat; [|exact B].
  pose proof (iteration_bounded cfg rof max rc d st B) as I.
  destruct (iteration net clock cfg rof max rc d st) as [[o|rc' d'] st1]; simpl in *.
  - exact I.
  - apply IH, I.
Qed.

Lemma call_bounded cfg rof max st :
  pool_bounded cfg st -> pool_bounded cfg (snd (_call net clock cfg rof max st)).
Proof. apply call_loop_bounded. Qed.

Lemma store_if_bounded cfg use_cache key result st :
  pool_bounded cfg st -> pool_bounded cfg (store_if clock use_cache key result st).
Proof. destruct use_cache; exact id. Qed.

Lemma restart_wait_bounded fuel cfg key use_cache i m start : forall elapsed st,
  pool_bounded cfg st ->
  pool_bounded cfg (snd (restart_wait net clock fuel cfg key use_cache i m start elapsed st)).
Proof.
  induction fuel as [|fuel IH]; intros elapsed st B; simpl; [exact B|].
  destruct (Qltb elapsed (inject_Z m)); [|apply store_if_bounded, B].
  pose proof (call_bounded cfg true 1 (tick (sleep (inject_Z i) st)) B) as C.
  destruct (_call net clock cfg true 1 _) as [test st1]. simpl in C.
  destruct test as [test_result|e|]; try (apply IH, C).
  destruct (contains_key "result" test_result) as [[|]|e]; try (apply IH, C).
  apply store_if_bounded, C.
Qed.

(** X6. The pool never outgrows the size its queue was built with: a
    state whose pool is within the bound is taken to one whose pool is
    within the bound by [_call] and by [execute], whatever the network
    does and however the call ends. *)
Theorem pool_stays_bounded (cfg : Config) (st : State) :
  pool_bounded cfg st ->
  (forall retry_on_failure max_retries,
     pool_bounded cfg (snd (_call net clock cfg retry_on_failure max_retries st))) /\
  (forall fuel server command wait_for_restart restart_check_interval restart_max_wait
          use_cache,
     pool_bounded cfg
       (snd (execute net clock fuel cfg server command wait_for_restart
               restart_check_interval restart_max_wait use_cache st))).
Proof.
  intros B. split; [intros; apply call_bounded, B|].
  intros fuel server command wfr i m use_cache. unfold execute.
  assert (B0 : pool_bounded cfg
                 (snd (if use_cache then cache_check clock cfg (cache_key server command) st
                       else (None, st)))).
  { destruct use_cache; [|exact B]. unfold cache_check.
    destruct (command_cache st !! _) as [[result ts]|]; [|exact B].
    destruct (Qltb _ _); exact B. }
  destruct (if use_cache then _ else _) as [[hit|] st0]; simpl in B0; [exact B0|].
  destruct (is_restart_command command && wfr).
  - pose proof (call_bounded cfg true 3 st0 B0) as C.
    destruct (_call net clock cfg true 3 st0) as [o st1]. simpl in C.
    apply restart_wait_bounded. exact C.
  - pose proof (call_bounded cfg true 3 st0 B0) as C.
    destruct (_call net clock cfg true 3 st0) as [[result|e|] st1]; simpl in C; try exact C.
    destruct (contains_key "result" result) as [[|]|e]; simpl; try exact C.
    + destruct (command_output result); simpl; [apply store_if_bounded|]; exact C.
    + apply store_if_bounded, C.
Qed.

(** *** Refused connections *)

(** X4. A socket error whose text mentions a refused connection
    ("Connection refused", or the Windows code 10061) is never retried:
    [_call] raises the connection failure out of that very attempt,
    whatever budget is left, and sleeps nothing. *)
Theorem connection_refused_not_retried
    (fuel : nat) (cfg : Config) (retry_on_failure : bool) (max_retries retry_count : nat)
    (current_delay : Q) (st st1 : State) (conn : option Conn) (m : string) :
  (retry_count <= max_retries)%nat ->
  try_block clock cfg (net (attempts st)) (count_attempt st)
  = (conn, BRaise (SocketError m), st1) ->
  connection_refused m = true ->
  exists st',
    call_loop net clock (S fuel) cfg retry_on_failure max_retries retry_count current_delay st
    = (Raised (connect_failed cfg m), st') /\
    attempts st' = S (attempts st) /\ slept st' = slept st.
Proof.
  intros Hrc T R. exists (finally clock cfg conn st1).
  destruct (try_block_trace _ _ _ _ _ _ _ T) as (Ha & Hs & _). simpl in Ha, Hs.
  destruct (finally_trace clock cfg conn st1) as (Fa & Fs & _).
  split_and!.
  - simpl call_loop. apply Nat.leb_le in Hrc. rewrite Hrc.
    unfold iteration. rewrite T. unfold handle. rewrite R. reflexivity.
  - congruence.
  - congruence.
Qed.

(** *** [execute] and the cache *)

Lemma restart_wait_cache fuel cfg key use_cache i m start : forall elapsed st,
  let st' := snd (restart_wait net clock fuel cfg key use_cache i m start elapsed st) in
  command_cache st' = command_cache st \/
  (use_cache = true /\ exists r ts, command_cache st' = <[key := (r, ts)]> (command_cache st)).
Proof.
  induction fuel as [|fuel IH]; intros elapsed st; simpl; [auto|].
  assert (S : forall r st0, command_cache st0 = command_cache st ->
            command_cache (store_if clock use_cache key r st0) = command_cache st \/
            (use_cache = true /\ exists r' ts,
               command_cache (store_if clock use_cache key r st0)
               = <[key := (r', ts)]> (command_cache st))).
  { intros r st0 E. destruct use_cache; simpl; [|auto]. right. rewrite E. eauto. }
  destruct (Qltb elapsed (inject_Z m)); [|apply S; reflexivity].
  pose proof (call_keeps_cache cfg true 1 (tick (sleep (inject_Z i) st))) as C.
  destruct (_call net clock cfg true 1 _) as [test st1]. simpl in C.
  assert (A : forall el,
            command_cache (snd (restart_wait net clock fuel cfg key use_cache i m start el st1))
            = command_cache st \/
            (use_cache = true /\ exists r ts,
               command_cache (snd (restart_wait net clock fuel cfg key use_cache i m start el st1))
               = <[key := (r, ts)]> (command_cache st))).
  { intros el. specialize (IH el st1). simpl in IH. rewrite C in IH. exact IH. }
  destruct test as [test_result|e|]; try apply A.
  destruct (contains_key "result" test_result) as [[|]|e]; try apply A.
  apply S, C.
Qed.

(** What [execute] may do to the cache: nothing, or, with
    [use_cache=True], one entry stored under its own key. *)
Lemma execute_cache_change
    (fuel : nat) (cfg : Config) (server command : string) (wait_for_restart : bool)
    (restart_check_interval restart_max_wait : Z) (use_cache : bool) (st : State) :
  command_cache
    (snd (execute net clock fuel cfg server command wait_for_restart
            restart_check_interval restart_max_wait use_cache st))
  = command_cache st \/
  (use_cache = true /\ exists r ts,
     command_cache
       (snd (execute net clock fuel cfg server command wait_for_restart
               restart_check_interval restart_max_wait use_cache st))
     = <[cache_key server command := (r, ts)]> (command_cache st)).
Proof.
  unfold execute.
assert (S : forall r st0, command_cache st0 = command_cache st ->
          command_cache (store_if clock use_cache (cache_key server command) r st0)
          = command_cache st \/
          (use_cache = true /\ exists r' ts,
             command_cache (store_if clock use_cache (cache_key server command) r st0)
             = <[cache_key server command := (r', ts)]> (command_cache st))).
{ intros r st0 E. destruct use_cache; simpl; [|auto]. right. rewrite E. eauto. }
assert (C0 : command_cache
               (snd (if use_cache
                     then cache_check clock cfg (cache_key server command) st
                     else (None, st))) = command_cache st).
{ destruct use_cache; [|reflexivity]. unfold cache_check.
  destruct (command_cache st !! _) as [[result ts]|]; [|reflexivity].
  destruct (Qltb _ _); reflexivity. }
destruct (if use_cache then _ else _) as [[hit|] st0]; simpl in C0; [auto|].
pose proof (call_keeps_cache cfg true 3 st0) as C.
destruct (is_restart_command command && wait_for_restart).
- destruct (_call net clock cfg true 3 st0) as [o st1]. simpl in C.
  pose proof (restart_wait_cache fuel cfg (cache_key server command) use_cache
                restart_check_interval restart_max_wait (clock (ticks st1)) 0 (tick st1))
    as W.
  simpl in W. rewrite C, C0 in W. exact W.
- destruct (_call net clock cfg true 3 st0) as [[result|e|] st1]; simpl in C;
    try (left; simpl; congruence).
  destruct (contains_key "result" result) as [[|]|e]; simpl; try (left; congruence).
  + destruct (command_output result); simpl; [apply S|left]; congruence.
  + apply S. congruence.
Qed.

(** X8. [execute] changes the cache at most at its own key
    [execute:server:command], and not at all with [use_cache=False]: the
    entries of other commands and the entries kept under other keys
    ([server_info], [available_tools], [list_connections]) are left as
    they are. *)
Theorem execute_cache_footprint
    (fuel : nat) (cfg : Config) (server command : string) (wait_for_restart : bool)
    (restart_check_interval restart_max_wait : Z) (use_cache : bool) (st : State) :
  let st' := snd (execute net clock fuel cfg server command wait_for_restart
                    restart_check_interval restart_max_wait use_cache st) in
  (use_cache = false -> command_cache st' = command_cache st) /\
  (forall key, key <> cache_key server command ->
     command_cache st' !! key = command_cache st !! key).
Proof.
  pose proof (execute_cache_change fuel cfg server command wait_for_restart
                restart_check_interval restart_max_wait use_cache st) as E.
  intros st'. subst st'. split.
  - intros ->. destruct E as [E|[E _]]; [exact E | discriminate].
  - intros key Ne. destruct E as [->|(_ & r & ts & ->)]; [reflexivity|].
    apply lookup_insert_ne. congruence.
Qed.

(** The cache holds an entry for the key that is within expiry at the
    next clock reading. *)
Definition fresh_hit (cfg : Config) (key : string) (st : State) : bool :=
  match command_cache st !! key with
  | Some (_, timestamp) => Qltb (clock (ticks st) - timestamp) (cache_expiry cfg)
  | None => false
  end.

Lemma store_if_attempts use_cache key r st :
  attempts (store_if clock use_cache key r st) = attempts st.
Proof. destruct use_cache; reflexivity. Qed.

Lemma restart_wait_attempts fuel cfg key use_cache i m start : forall elapsed st,
  (attempts st <=
   attempts (snd (restart_wait net clock fuel cfg key use_cache i m start elapsed st)))%nat.
Proof.
  induction fuel as [|fuel IH]; intros elapsed st; simpl; [lia|].
  destruct (Qltb elapsed (inject_Z m)); [|simpl; rewrite store_if_attempts; lia].
  pose proof (call_attempts_grow cfg true 1 (tick (sleep (inject_Z i) st))) as C.
  destruct (_call net clock cfg true 1 _) as [test st1]. simpl in C.
  assert (A : forall el,
            (attempts st <=
             attempts (snd (restart_wait net clock fuel cfg key use_cache i m start el st1)))%nat).
  { intros el. specialize (IH el st1). lia. }
  destruct test as [test_result|e|]; try apply A.
  destruct (contains_key "result" test_result) as [[|]|e]; try apply A.
  simpl. rewrite store_if_attempts. lia.
Qed.

(** X9. [execute] goes to the network exactly when it has no fresh cache
    entry to answer from: with [use_cache=True] and an entry for the key
    that is within [cache_expiry] it starts no attempt, and in every other
    case (no entry, a stale entry, or [use_cache=False]) it starts at least
    one. A stale entry is never returned without a request. *)
Theorem execute_network_iff_no_fresh_entry
    (fuel : nat) (cfg : Config) (server command : string) (wait_for_restart : bool)
    (restart_check_interval restart_max_wait : Z) (use_cache : bool) (st : State) :
  let st' := snd (execute net clock fuel cfg server command wait_for_restart
                    restart_check_interval restart_max_wait use_cache st) in
  if use_cache && fresh_hit cfg (cache_key server command) st
  then attempts st' = attempts st
  else (attempts st < attempts st')%nat.
Proof.
  unfold execute, fresh_hit, cache_check.
  assert (Miss : forall st0, attempts st0 = attempts st ->
    (attempts st <
     attempts
       (snd (if is_restart_command command && wait_for_restart
             then
               let '(_, st1) := _call net clock cfg true 3 st0 in
               restart_wait net clock fuel cfg (cache_key server command) use_cache
                 restart_check_interval restart_max_wait (clock (ticks st1)) 0 (tick st1)
             else
               match _call net clock cfg true 3 st0 with
               | (Returned result, st1) =>
                   match contains_key "result" result with
                   | Raise e => (Raised e, st1)
                   | Ok true =>
                       match command_output result with
                       | Raise e => (Raised e, st1)
                       | Ok output =>
                           (Returned output,
                            store_if clock use_cache (cache_key server command) output st1)
                       end
                   | Ok false =>
                       (Returned (JStr (py_str result)),
                        store_if clock use_cache (cache_key server command)
                          (JStr (py_str result)) st1)
                   end
               | (o, st1) => (o, st1)
               end)))%nat).
  { intros st0 E0.
    pose proof (call_attempts_grow cfg true 3 st0) as C.
    destruct (is_restart_command command && wait_for_restart).
    - destruct (_call net clock cfg true 3 st0) as [o st1]. simpl in C.
      pose proof (restart_wait_attempts fuel cfg (cache_key server command) use_cache
                    restart_check_interval restart_max_wait (clock (ticks st1)) 0 (tick st1)) as W.
      simpl in W. lia.
    - destruct (_call net clock cfg true 3 st0) as [[result|e|] st1]; simpl in C;
        try (simpl; lia).
      destruct (contains_key "result" result) as [[|]|e]; simpl; try lia.
      + destruct (command_output result); simpl; rewrite ?store_if_attempts; lia.
      + rewrite store_if_attempts. lia. }
  destruct use_cache; simpl andb.
  - destruct (command_cache st !! cache_key server command) as [[result ts]|].
    + destruct (Qltb _ _); [reflexivity|]. apply Miss. reflexivity.
    + apply Miss. reflexivity.
  - apply Miss. reflexivity.
Qed.

(** *** [execute_batch], serial *)

(** The first loop of [execute_batch]: the commands that have a fresh
    cache entry are answered from it and remembered. *)
Fixpoint batch_from_cache (cfg : Config) (server : string) (use_cache : bool)
    (commands : list string) (results : gmap string Json) (cached_commands : list string)
    (st : State) : gmap string Json * list string * State :=
  match commands with
  | [] => (results, cached_commands, st)
  | command :: rest =>
      match (if use_cache then command_cache st !! cache_key server command else None) with
      | Some (result, timestamp) =>
          let now := clock (ticks st) in
          let st := tick st in
          if Qltb (now - timestamp) (cache_expiry cfg)
          then batch_from_cache cfg server use_cache rest (<[command := result]> results)
                 (cached_commands ++ [command]) st
          else batch_from_cache cfg server use_cache rest results cached_commands st
      | None => batch_from_cache cfg server use_cache rest results cached_commands st
      end
  end.

(** [f"Error: {e}"] *)
Definition error_text (e : Exn) : Json := JStr ("Error: " +:+ exn_str e).

(** The serial loop: each command that was not answered from the cache
    is executed with the defaults of [execute] (no restart wait), and an
    exception becomes the text of its entry. *)
Fixpoint batch_execute (cfg : Config) (server : string) (use_cache : bool)
    (uncached_commands : list string) (results : gmap string Json) (st : State)
  : gmap string Json * State :=
  match uncached_commands with
  | [] => (results, st)
  | command :: rest =>
      let '(o, st) := execute net clock 0 cfg server command false 2 60 use_cache st in
      let results :=
        match o with
        | Returned result => <[command := result]> results
        | Raised e => <[command := error_text e]> results
        | Diverged => results
        end in
      batch_execute cfg server use_cache rest results st
  end.

(** [execute_batch(server, commands, timeout, use_cache, parallel=False)] *)
Definition execute_batch (cfg : Config) (server : string) (commands : list string)
    (use_cache : bool) (st : State) : gmap string Json * State :=
  let '(results, cached_commands, st) :=
    batch_from_cache cfg server use_cache commands ∅ [] st in
  let uncached_commands := filter (fun cmd => cmd ∉ cached_commands) commands in
  batch_execute cfg server use_cache uncached_commands results st.

(** Without a restart wait [execute] ends. *)
Lemma execute_ordinary_ends fuel cfg server command i m use_cache st :
  fst (execute net clock fuel cfg server command false i m use_cache st) <> Diverged.
Proof.
  unfold execute. rewrite andb_false_r.
  destruct (if use_cache then _ else _) as [[hit|] st0]; [discriminate|].
  pose proof (call_ends net clock cfg true 3 st0) as C.
  destruct (_call net clock cfg true 3 st0) as [[result|e|] st1]; simpl in *;
    try discriminate; [|contradiction].
  destruct (contains_key "result" result) as [[|]|e]; try discriminate.
  destruct (command_output result); discriminate.
Qed.

Lemma batch_from_cache_spec cfg server use_cache commands :
  forall results cached st,
  let '(results', cached', st') :=
    batch_from_cache cfg server use_cache commands results cached st in
  exists new,
    cached' = cached ++ new /\
    dom results' = dom results ∪ list_to_set new /\
    (forall c, c ∈ new -> c ∈ commands) /\
    attempts st' = attempts st /\ command_cache st' = command_cache st.
Proof.
  induction commands as [|command rest IH]; intros results cached st; simpl.
  - exists []. rewrite app_nil_r. split_and!; auto; try set_solver.
  - destruct (if use_cache then _ else _) as [[result ts]|].
    + destruct (Qltb _ _).
      * specialize (IH (<[command := result]> results) (cached ++ [command]) (tick st)).
        destruct (batch_from_cache _ _ _ rest _ _ _) as [[results' cached'] st'].
        destruct IH as (new & -> & D & Sub & A & C).
        exists (command :: new). rewrite <- app_assoc. split_and!; auto.
        -- rewrite D, dom_insert_L. set_solver.
        -- intros c [->|H]%elem_of_cons; [left | right; auto].
      * specialize (IH results cached (tick st)).
        destruct (batch_from_cache _ _ _ rest _ _ _) as [[results' cached'] st'].
        destruct IH as (new & -> & D & Sub & A & C).
        exists new. split_and!; auto. intros c H. right. auto.
    + specialize (IH results cached st).
      destruct (batch_from_cache _ _ _ rest _ _ _) as [[results' cached'] st'].
      destruct IH as (new & -> & D & Sub & A & C).
      exists new. split_and!; auto. intros c H. right. auto.
Qed.

Lemma batch_execute_dom cfg server use_cache uncached : forall results st,
  dom (fst (batch_execute cfg server use_cache uncached results st))
  = dom results ∪ list_to_set uncached.
Proof.
  induction uncached as [|command rest IH]; intros results st; simpl; [set_solver|].
  pose proof (execute_ordinary_ends 0 cfg server command 2 60 use_cache st) as E.
  destruct (execute net clock 0 cfg server command false 2 60 use_cache st) as [[v|e|] st1];
    simpl in E; [| |contradiction]; rewrite IH, dom_insert_L; set_solver.
Qed.

(** X10. The serial [execute_batch] answers for every command and for
    nothing else: the keys of the dict it returns are exactly the commands
    it was given, whether each of them was answered from the cache,
    executed, or failed (a failure becomes the entry's "Error: ..." text
    and does not stop the batch). *)
Theorem execute_batch_answers_every_command
    (cfg : Config) (server : string) (commands : list string) (use_cache : bool)
    (st : State) :
  dom (fst (execute_batch cfg server commands use_cache st)) = list_to_set commands.
Proof.
  unfold execute_batch.
  pose proof (batch_from_cache_spec cfg server use_cache commands ∅ [] st) as B.
  destruct (batch_from_cache cfg server use_cache commands ∅ [] st)
    as [[results cached] st1].
  destruct B as (new & -> & D & Sub & _). simpl.
  rewrite batch_execute_dom, D, dom_empty_L.
  apply set_eq. intros c.
  rewrite !elem_of_union, !elem_of_list_to_set, list_elem_of_filter.
  split.
  - intros [[H|H]|[_ H]]; [inversion H | auto | exact H].
  - intros H. destruct (decide (c ∈ new)); [left; right; assumption | right; auto].
Qed.

Lemma batch_from_cache_all_fresh cfg server commands : forall results cached st,
  (forall c, c ∈ commands ->
     exists r ts, command_cache st !! cache_key server c = Some (r, ts) /\
                  forall n, Qltb (clock n - ts) (cache_expiry cfg) = true) ->
  let '(results', cached', st') :=
    batch_from_cache cfg server true commands results cached st in
  cached' = cached ++ commands /\
  (forall c r ts, c ∈ commands ->
     command_cache st !! cache_key server c = Some (r, ts) -> results' !! c = Some r) /\
  (forall c, c ∉ commands -> results' !! c = results !! c).
Proof.
  induction commands as [|command rest IH]; intros results cached st F; simpl.
  - rewrite app_nil_r. split_and!; auto. intros c r ts H. inversion H.
  - destruct (F command) as (r & ts & L & Fr); [left|]. rewrite L, Fr.
    specialize (IH (<[command := r]> results) (cached ++ [command]) (tick st)).
    destruct (batch_from_cache _ _ _ rest _ _ _) as [[results' cached'] st'].
    destruct IH as (-> & Hit & Other).
    { intros c Hc. apply F. right. exact Hc. }
    rewrite <- app_assoc. split_and!; auto.
    + intros c r' ts' Hc L'. destruct (decide (c ∈ rest)) as [In|Out].
      * exact (Hit c r' ts' In L').
      * apply elem_of_cons in Hc as [->|Hc]; [|contradiction].
        rewrite (Other command Out), lookup_insert_eq. congruence.
    + intros c Hc. rewrite Other by (intros H; apply Hc; right; exact H).
      apply lookup_insert_ne. intros ->. apply Hc. left.
Qed.

(** X11. When every command of a batch has a cache entry that is within
    expiry, the serial [execute_batch] with [use_cache=True] starts no
    attempt on the network and answers each command with its cached
    result. *)
Theorem execute_batch_all_cached
    (cfg : Config) (server : string) (commands : list string) (st : State) :
  (forall c, c ∈ commands ->
     exists r ts, command_cache st !! cache_key server c = Some (r, ts) /\
                  forall n, Qltb (clock n - ts) (cache_expiry cfg) = true) ->
  let '(results, st') := execute_batch cfg server commands true st in
  attempts st' = attempts st /\
  forall c r ts, c ∈ commands ->
    command_cache st !! cache_key server c = Some (r, ts) -> results !! c = Some r.
Proof.
  intros F. unfold execute_batch.
  pose proof (batch_from_cache_all_fresh cfg server commands ∅ [] st F) as B.
  pose proof (batch_from_cache_spec cfg server true commands ∅ [] st) as S.
  destruct (batch_from_cache cfg server true commands ∅ [] st) as [[results cached] st1].
  destruct B as (-> & Hit & _). destruct S as (_ & _ & _ & _ & A & _).
  simpl app.
  assert (E : filter (fun cmd => cmd ∉ commands) commands = []).
  { destruct (filter (fun cmd => cmd ∉ commands) commands) as [|x l] eqn:Fl; [reflexivity|].
    assert (Hx : x ∈ filter (fun cmd => cmd ∉ commands) commands) by (rewrite Fl; left).
    apply list_elem_of_filter in Hx as [N I]. contradiction. }
  rewrite E. simpl. split; [exact A | exact Hit].
Qed.

(** *** The helpers of RemoteHost *)

(** [RemoteHost.run(command, timeout, wait_for_restart, use_cache)] *)
Definition run (fuel : nat) (cfg : Config) (server command : string)
    (wait_for_restart use_cache : bool) (st : State) : Outcome * State :=
  execute net clock fuel cfg server command wait_for_restart 2 60 use_cache st.

(** [RemoteHost.systemctl(action, service)] *)
Definition systemctl (fuel : nat) (cfg : Config) (server action service : string)
    (st : State) : Outcome * State :=
  run fuel cfg server ("sudo systemctl " +:+ action +:+ " " +:+ service)
    (String.eqb action "restart") false st.

Lemma lower_app a b : lower (a +:+ b) = lower a +:+ lower b.
Proof. induction a as [|c a IH]; simpl; [reflexivity|]. rewrite IH. reflexivity. Qed.

Lemma systemctl_restart_is_restart service :
  is_restart_command ("sudo systemctl " +:+ "restart" +:+ " " +:+ service) = true.
Proof.
  unfold is_restart_command.
  change ("sudo systemctl " +:+ "restart" +:+ " " +:+ service)
    with ("sudo systemctl " +:+ ("restart" +:+ (" " +:+ service))).
  rewrite !lower_app.
  change (existsb _ _)
    with (str_in "restart" ("sudo systemctl " +:+ ("restart" +:+ lower (" " +:+ service)))
          || existsb
               (fun keyword =>
                  str_in keyword
                    ("sudo systemctl " +:+ ("restart" +:+ lower (" " +:+ service))))
               ["systemctl restart"; "service restart"; "reboot"]).
  rewrite (str_in_app_r "restart" "sudo systemctl " _ (str_in_prefix "restart" _)).
  reflexivity.
Qed.

(** The restart wait ends in one of its two texts, if it ends. *)
Lemma restart_wait_text fuel cfg key use_cache i m start : forall elapsed st,
  let o := fst (restart_wait net clock fuel cfg key use_cache i m start elapsed st) in
  o = Diverged \/ exists text, o = Returned (JStr text).
Proof.
  induction fuel as [|fuel IH]; intros elapsed st; simpl; [auto|].
  destruct (Qltb elapsed (inject_Z m)); [|simpl; eauto].
  destruct (_call net clock cfg true 1 _) as [test st1].
  destruct test as [test_result|e|]; try apply IH.
  destruct (contains_key "result" test_result) as [[|]|e]; try apply IH.
  simpl. eauto.
Qed.

(** X12. [systemctl('restart', service)] never raises, whatever the
    service is called and whatever the network does: the command it builds
    is a restart command, so it runs under the restart wait, which returns
    one of its two status texts (or is still polling); and it leaves the
    cache alone. *)
Theorem systemctl_restart_never_raises
    (fuel : nat) (cfg : Config) (server service : string) (st : State) :
  let '(o, st') := systemctl fuel cfg server "restart" service st in
  (o = Diverged \/ exists text, o = Returned (JStr text)) /\
  command_cache st' = command_cache st.
Proof.
  pose proof (execute_cache_change fuel cfg server
                ("sudo systemctl " +:+ "restart" +:+ " " +:+ service) true 2 60 false st)
    as [F|[F _]]; [|discriminate F].
  unfold systemctl, run in *. simpl String.eqb.
  assert (T : let o := fst (execute net clock fuel cfg server
                              ("sudo systemctl " +:+ "restart" +:+ " " +:+ service)
                              true 2 60 false st) in
              o = Diverged \/ exists text, o = Returned (JStr text)).
  { unfold execute. rewrite (systemctl_restart_is_restart service). simpl.
    destruct (_call net clock cfg true 3 st) as [o st1]. apply restart_wait_text. }
  destruct (execute net clock fuel cfg server _ true 2 60 false st) as [o st'].
  simpl in *. split; [exact T | exact F].
Qed.

(** *** The calls cached under a fixed key *)

(** The body shared by [list_connections], [get_server_info] and
    [get_available_tools]: answer from the cache while the entry under
    [key] is younger than [ttl], else call the server and cache what it
    returns. *)
Definition cached_call (cfg : Config) (key : string) (ttl : Q) (st : State)
  : Outcome * State :=
  let miss st :=
    match _call net clock cfg true 3 st with
    | (Returned result, st) => (Returned result, cache_store clock key result st)
    | (o, st) => (o, st)
    end in
  match command_cache st !! key with
  | Some (result, timestamp) =>
      let now := clock (ticks st) in
      let st := tick st in
      if Qltb (now - timestamp) ttl then (Returned result, st) else miss st
  | None => miss st
  end.

Definition list_connections (cfg : Config) : State -> Outcome * State :=
  cached_call cfg "list_connections" (cache_expiry cfg).

Definition get_server_info (cfg : Config) : State -> Outcome * State :=
  cached_call cfg "server_info" (cache_expiry cfg * 5).

Definition get_available_tools (cfg : Config) : State -> Outcome * State :=
  cached_call cfg "available_tools" (cache_expiry cfg * 5).

Lemma cached_call_spec cfg key ttl st :
  match cached_call cfg key ttl st with
  | (Returned r, st') => exists ts, command_cache st' !! key = Some (r, ts)
  | (_, st') => command_cache st' = command_cache st
  end.
Proof.
  unfold cached_call.
  assert (M : forall st0, command_cache st0 = command_cache st ->
    match
      match _call net clock cfg true 3 st0 with
      | (Returned result, st1) => (Returned result, cache_store clock key result st1)
      | (o, st1) => (o, st1)
      end
    with
    | (Returned r, st') => exists ts, command_cache st' !! key = Some (r, ts)
    | (_, st') => command_cache st' = command_cache st
    end).
  { intros st0 E. pose proof (call_keeps_cache cfg true 3 st0) as C.
    destruct (_call net clock cfg true 3 st0) as [[result|e|] st1]; simpl in C;
      [|congruence|congruence].
    eexists. simpl. apply lookup_insert_eq. }
  destruct (command_cache st !! key) as [[result ts]|] eqn:L; [|apply M; reflexivity].
  destruct (Qltb _ _); [|apply M; reflexivity].
  exists ts. exact L.
Qed.

(** X13. The server information is fetched once per five cache lifetimes,
    and running commands in between does not disturb it: after
    [get_server_info] has returned, any [execute] may follow, and a second
    [get_server_info] whose clock reading is within five times
    [cache_expiry] of the stored time returns the same value with no
    attempt on the network. A [get_server_info] that raises caches
    nothing. *)
Theorem server_info_survives_execute (cfg : Config) (st st1 : State) (r : Json) :
  get_server_info cfg st = (Returned r, st1) ->
  exists ts,
    command_cache st1 !! "server_info" = Some (r, ts) /\
    forall fuel server command wait_for_restart restart_check_interval restart_max_wait
           use_cache,
      let st2 := snd (execute net clock fuel cfg server command wait_for_restart
                        restart_check_interval restart_max_wait use_cache st1) in
      Qltb (clock (ticks st2) - ts) (cache_expiry cfg * 5) = true ->
      exists st3,
        get_server_info cfg st2 = (Returned r, st3) /\ attempts st3 = attempts st2.
Proof.
  intros G. pose proof (cached_call_spec cfg "server_info" (cache_expiry cfg * 5) st) as S.
  unfold get_server_info in G. rewrite G in S. destruct S as [ts L].
  exists ts. split; [exact L|].
  intros fuel server command wfr i m use_cache st2 Fresh.
  assert (L2 : command_cache st2 !! "server_info" = Some (r, ts)).
  { subst st2. rewrite <- L.
    destruct (execute_cache_change fuel cfg server command wfr i m use_cache st1)
      as [->|(_ & r' & ts' & ->)]; [reflexivity|].
    apply lookup_insert_ne. unfold cache_key. simpl. discriminate. }
  exists (tick st2). unfold get_server_info, cached_call. rewrite L2, Fresh. auto.
Qed.

Lemma server_info_failure_caches_nothing cfg st e st1 :
  get_server_info cfg st = (Raised e, st1) -> command_cache st1 = command_cache st.
Proof.
  intros G. pose proof (cached_call_spec cfg "server_info" (cache_expiry cfg * 5) st) as S.
  unfold get_server_info in G. rewrite G in S. exact S.
Qed.

(** *** The cache helpers keyed by digest *)

(** [_get_cached_result] and [_set_cached_result], given the key that
    [_get_cache_key] computes (the MD5 digest of the method and the
    serialized parameters). *)
Definition _get_cached_result (cfg : Config) (cache_key : string) (st : State)
  : option Json * State :=
  match command_cache st !! cache_key with
  | Some (result, timestamp) =>
      let now := clock (ticks st) in
      let st := tick st in
      if Qltb (now - timestamp) (cache_expiry cfg) then (Some result, st)
      else (None, set_cache (delete cache_key (command_cache st)) st)
  | None => (None, st)
  end.

(** The entries the sweep keeps: those with
    [current_time - v['timestamp'] < self._cache_expiry]. *)
Definition unexpired (cfg : Config) (current_time : Q) (entry : string * (Json * Q)) : Prop :=
  Qltb (current_time - snd (snd entry)) (cache_expiry cfg) = true.

#[local] Instance unexpired_dec cfg t entry : Decision (unexpired cfg t entry).
Proof. unfold unexpired. apply _. Defined.

Definition _set_cached_result (cfg : Config) (cache_key : string) (result : Json)
    (st : State) : State :=
  let st := cache_store clock cache_key result st in
  let current_time := clock (ticks st) in
  let st := tick st in
  set_cache (filter (unexpired cfg current_time) (command_cache st)) st.

(** X14. After [_set_cached_result] no expired entry is left in the
    cache: every entry that remains, under whatever key, was stored less
    than [cache_expiry] before the time of the sweep. The entry just
    stored is subject to the same sweep. *)
Theorem set_cached_result_sweeps (cfg : Config) (cache_key : string) (result : Json)
    (st : State) (k : string) (r : Json) (ts : Q) :
  command_cache (_set_cached_result cfg cache_key result st) !! k = Some (r, ts) ->
  (clock (S (ticks st)) - ts < cache_expiry cfg)%Q /\
  (k = cache_key /\ r = result /\ ts = clock (ticks st) \/
   k <> cache_key /\ command_cache st !! k = Some (r, ts)).
Proof.
  unfold _set_cached_result. simpl.
  intros [L U]%map_lookup_filter_Some. unfold unexpired in U. simpl in U.
  split; [apply Qltb_lt, U|].
  destruct (decide (k = cache_key)) as [->|Ne].
  - left. rewrite lookup_insert_eq in L. injection L as <- <-. auto.
  - right. rewrite lookup_insert_ne in L by congruence. auto.
Qed.

(** X15. A result stored by [_set_cached_result] is returned by
    [_get_cached_result] under the same key as long as the clock readings
    of the sweep and of the lookup are within [cache_expiry] of the time it
    was stored; once the reading of a lookup is not, the lookup returns
    nothing and removes the entry, leaving the other keys alone. *)
Theorem cached_result_round_trip (cfg : Config) (cache_key : string) (result : Json)
    (st : State) :
  let t0 := clock (ticks st) in
  let t1 := clock (S (ticks st)) in
  let t2 := clock (S (S (ticks st))) in
  let st1 := _set_cached_result cfg cache_key result st in
  (Qltb (t1 - t0) (cache_expiry cfg) = true ->
   if Qltb (t2 - t0) (cache_expiry cfg)
   then fst (_get_cached_result cfg cache_key st1) = Some result
   else fst (_get_cached_result cfg cache_key st1) = None /\
        command_cache (snd (_get_cached_result cfg cache_key st1)) !! cache_key = None /\
        forall k, k <> cache_key ->
          command_cache (snd (_get_cached_result cfg cache_key st1)) !! k
          = command_cache st1 !! k).
Proof.
  intros t0 t1 t2 st1 Swept.
  assert (L : command_cache st1 !! cache_key = Some (result, t0)).
  { subst st1. unfold _set_cached_result. simpl. apply map_lookup_filter_Some. split.
    - apply lookup_insert_eq.
    - exact Swept. }
  assert (T : clock (ticks st1) = t2) by reflexivity.
  unfold _get_cached_result. rewrite L, T.
  destruct (Qltb (t2 - t0) (cache_expiry cfg)); simpl.
  - reflexivity.
  - split_and!; [reflexivity | apply lookup_delete_eq |].
    intros k Ne. apply lookup_delete_ne. congruence.
Qed.

End CallFacts.

(** *** The further facts on the concrete client *)

Lemma call_returns_no_error_witness :
  contains_key "error" uptime_json = Ok false.
Proof.
  exact (@call_returns_no_error demo_runtime (answering uptime_doc) demo_clock
           default_config true 3 init_state uptime_json eq_refl).
Defined.

(** Two pooled connections, the first of which no longer answers. *)
Definition two_pooled : State := {|
  connection_pool := [1; 2]%nat;
  connection_times := <[1%nat := 0%Q]> (<[2%nat := 0%Q]> ∅);
  closed := [];
  command_cache := ∅;
  attempts := 0;
  slept := [];
  ticks := 0
|}.

Definition first_dead : Attempt :=
  {| probe := fun c => (c =? 2)%nat; create := Ok 3%nat; exchange := Ok [] |}.

Lemma get_connection_reuses_alive_witness :
  let '(r, st') := _get_connection demo_clock default_config first_dead two_pooled in
  match List.filter (alive demo_clock default_config first_dead two_pooled)
          (connection_pool two_pooled) with
  | c :: _ => r = Ok c
  | [] => r = create first_dead
  end /\
  forall c, c ∈ connection_pool st' ->
            c ∈ connection_pool two_pooled /\
            alive demo_clock default_config first_dead two_pooled c = true.
Proof.
  exact (get_connection_reuses_alive demo_clock default_config first_dead two_pooled eq_refl).
Defined.

Example first_dead_second_reused :
  fst (_get_connection demo_clock default_config first_dead two_pooled) = Ok 2%nat /\
  connection_pool (snd (_get_connection demo_clock default_config first_dead two_pooled)) = [].
Proof. split; reflexivity. Qed.

Lemma init_state_bounded : pool_bounded default_config init_state.
Proof. intros _. simpl. lia. Qed.

Lemma pool_stays_bounded_witness :
  (forall retry_on_failure max_retries,
     pool_bounded default_config
       (snd (@_call demo_runtime (answering []) demo_clock default_config retry_on_failure
               max_retries init_state))) /\
  (forall fuel server command wait_for_restart restart_check_interval restart_max_wait
          use_cache,
     pool_bounded default_config
       (snd (@execute demo_runtime (answering []) demo_clock fuel default_config server
               command wait_for_restart restart_check_interval restart_max_wait use_cache
               init_state))).
Proof.
  exact (@pool_stays_bounded demo_runtime (answering []) demo_clock default_config init_state
           init_state_bounded).
Defined.

(** A server that is not listening. *)
Definition refusing : nat -> Attempt :=
  fun _ => {| probe := fun _ => true;
              create := Raise (SocketError "[Errno 111] Connection refused");
              exchange := Ok [] |}.

Lemma connection_refused_witness :
  exists st',
    @call_loop demo_runtime refusing demo_clock 5 default_config true 3 0
      (retry_delay default_config) init_state
    = (Raised (connect_failed default_config "[Errno 111] Connection refused"), st') /\
    attempts st' = S (attempts init_state) /\ slept st' = slept init_state.
Proof.
  eapply (@connection_refused_not_retried demo_runtime refusing demo_clock 4 default_config
            true 3 0 (retry_delay default_config) init_state _ None
            "[Errno 111] Connection refused").
  - lia.
  - reflexivity.
  - reflexivity.
Defined.

(** A cache that holds the answer to [uptime], and a clock that stands
    at five seconds. *)
Definition uptime_cached : State := {|
  connection_pool := [];
  connection_times := ∅;
  closed := [];
  command_cache := {[ cache_key "local" "uptime" := (JStr "up 3 days", 0%Q) ]};
  attempts := 0;
  slept := [];
  ticks := 0
|}.

Definition still_clock : nat -> Q := fun _ => 5%Q.

Lemma execute_batch_all_cached_witness :
  let '(results, st') :=
    @execute_batch demo_runtime (answering []) still_clock default_config "local"
      ["uptime"] true uptime_cached in
  attempts st' = attempts uptime_cached /\
  forall c r ts, c ∈ ["uptime"] ->
    command_cache uptime_cached !! cache_key "local" c = Some (r, ts) ->
    results !! c = Some r.
Proof.
  apply (@execute_batch_all_cached demo_runtime (answering []) still_clock default_config
           "local" ["uptime"] uptime_cached).
  intros c ->%list_elem_of_singleton.
  exists (JStr "up 3 days"), 0%Q. split; [reflexivity | intros n; reflexivity].
Defined.

Example batch_of_two :
  let results :=
    fst (@execute_batch demo_runtime (answering []) still_clock default_config "local"
           ["uptime"; "df -h"] true uptime_cached) in
  results !! "uptime" = Some (JStr "up 3 days") /\
  results !! "df -h" = Some (JStr "Error: Empty response from server").
Proof. split; reflexivity. Qed.

Lemma server_info_survives_execute_witness :
  exists ts,
    command_cache
      (snd (@get_server_info demo_runtime (answering uptime_doc) demo_clock default_config
              init_state)) !! "server_info" = Some (uptime_json, ts) /\
    forall fuel server command wait_for_restart restart_check_interval restart_max_wait
           use_cache,
      let st2 :=
        snd (@execute demo_runtime (answering uptime_doc) demo_clock fuel default_config
               server command wait_for_restart restart_check_interval restart_max_wait
               use_cache
               (snd (@get_server_info demo_runtime (answering uptime_doc) demo_clock
                       default_config init_state))) in
      Qltb (demo_clock (ticks st2) - ts) (cache_expiry default_config * 5) = true ->
      exists st3,
        @get_server_info demo_runtime (answering uptime_doc) demo_clock default_config st2
        = (Returned uptime_json, st3) /\
        attempts st3 = attempts st2.
Proof.
  exact (@server_info_survives_execute demo_runtime (answering uptime_doc) demo_clock
           default_config init_state _ uptime_json eq_refl).
Defined.

Lemma set_cached_result_sweeps_witness :
  (still_clock (S (ticks init_state)) - 5 < cache_expiry default_config)%Q /\
  ("digest" = "digest" /\ JStr "ok" = JStr "ok" /\ 5%Q = still_clock (ticks init_state) \/
   "digest" <> "digest" /\ command_cache init_state !! "digest" = Some (JStr "ok", 5%Q)).
Proof.
  exact (set_cached_result_sweeps still_clock default_config "digest" (JStr "ok") init_state
           "digest" (JStr "ok") 5%Q eq_refl).
Defined.

Lemma cached_result_round_trip_witness :
  if Qltb (still_clock 2 - still_clock 0) (cache_expiry default_config)
  then fst (_get_cached_result still_clock default_config "digest"
              (_set_cached_result still_clock default_config "digest" (JStr "ok") init_state))
       = Some (JStr "ok")
  else
    fst (_get_cached_result still_clock default_config "digest"
           (_set_cached_result still_clock default_config "digest" (JStr "ok") init_state))
    = None /\
    command_cache
      (snd (_get_cached_result still_clock default_config "digest"
              (_set_cached_result still_clock default_config "digest" (JStr "ok") init_state)))
    !! "digest" = None /\
    forall k, k <> "digest" ->
      command_cache
        (snd (_get_cached_result still_clock default_config "digest"
                (_set_cached_result still_clock default_config "digest" (JStr "ok")
                   init_state))) !! k
      = command_cache
          (_set_cached_result still_clock default_config "digest" (JStr "ok") init_state) !! k.
Proof.
  exact (cached_result_round_trip still_clock default_config "digest" (JStr "ok") init_state
           eq_refl).
Defined.

(** *** Compressing and decompressing *)

Section Compression.

Context {RT : Runtime}.

(** X7. [_decompress_data] undoes [_compress_data], given that
    [gzip.decompress] undoes [gzip.compress] and that compressed data
    starts with the gzip magic number, on every payload that is empty or is
    not itself a gzip stream. A payload that is a gzip stream and does not
    shrink is sent as it is and comes back decompressed, that is, as other
    data than was sent. *)
Theorem compress_round_trip (cfg : Config) (data : list byte) :
  (forall x, gzip_members (gzip_compress x) = Some x) ->
  (forall x, exists rest, gzip_compress x = x1f :: x8b :: rest) ->
  (data = [] \/ gzip_decompress data = None ->
   _decompress_data cfg (_compress_data cfg data) = data) /\
  (forall x,
     enable_compression cfg = true -> gzip_decompress data = Some x ->
     (length data <= length (gzip_compress data))%nat ->
     _decompress_data cfg (_compress_data cfg data) = x).
Proof.
  intros Inverse Magic.
  assert (G : gzip_decompress (gzip_compress data) = Some data).
  { destruct (Magic data) as [rest E]. unfold gzip_decompress.
    rewrite <- (Inverse data), E. reflexivity. }
  unfold _decompress_data, _compress_data. split.
  - intros Plain. destruct (enable_compression cfg); cbn [negb]; [|reflexivity].
    destruct (length (gzip_compress data) <? length data)%nat.
    + rewrite G. reflexivity.
    + destruct Plain as [-> | ->]; reflexivity.
  - intros x -> D Le. cbn [negb].
    destruct (Nat.ltb_spec (length (gzip_compress data)) (length data)) as [Lt|_]; [lia|].
    rewrite D. reflexivity.
Qed.

End Compression.

Lemma compress_round_trip_witness :
  (doc "{'a':1}" = [] \/ @gzip_decompress demo_runtime (doc "{'a':1}") = None ->
   @_decompress_data demo_runtime default_config
     (@_compress_data demo_runtime default_config (doc "{'a':1}")) = doc "{'a':1}") /\
  (forall x,
     enable_compression default_config = true ->
     @gzip_decompress demo_runtime (doc "{'a':1}") = Some x ->
     (length (doc "{'a':1}") <= length (@gzip_compress demo_runtime (doc "{'a':1}")))%nat ->
     @_decompress_data demo_runtime default_config
       (@_compress_data demo_runtime default_config (doc "{'a':1}")) = x).
Proof.
  apply (@compress_round_trip demo_runtime default_config (doc "{'a':1}")).
  - intros x. reflexivity.
  - intros x. exists x. reflexivity.
Defined.

(** A payload that is a gzip stream already comes back as what it
    holds. *)
Example gzip_payload_comes_back_inflated :
  @_decompress_data demo_runtime default_config
    (@_compress_data demo_runtime default_config (x1f :: x8b :: doc "{'a':1}"))
  = doc "{'a':1}".
Proof. reflexivity. Qed.

End Core.

(* ===================================================================== *)
(** ** async_proxy.py: classes MessageQueue and AsyncProxyManager *)
(* ===================================================================== *)

Module Queue.
Import Py.

Inductive Status : Type := pending | processing | completed | failed.

#[global] Instance Status_eq_dec : EqDecision Status.
Proof. solve_decision. Defined.

(** A callback is a callable handed in by the caller: calling it on a
    feedback document returns, or raises. Whether [pickle] can write it
    depends on what it is (a module-level function can be written, a
    lambda or a nested function cannot). *)
Record Callback : Type := {
  picklable : bool;
  call : Json -> option Exn
}.

(** A queue item: the dict built by [send_command] and completed by the
    queue ([id], [status], [timestamp], [sequence], then
    [processing_time], [result] or [error], [completion_time]). *)
Record Item : Type := {
  item_id : string;
  status : Status;
  timestamp : Q;
  sequence : nat;
  proxy_command : string;
  callback : option Callback;
  processing_time : option Q;
  result : option Json;
  error : option string;
  completion_time : option Q
}.

(** What a caller hands to [enqueue]: a dict built for the call, as
    [send_command] does, with or without an [id] of its own. *)
Record Command : Type := {
  cmd_id : option string;
  cmd_proxy_command : string;
  cmd_callback : option Callback
}.

(** The queue file. *)
Inductive File : Type :=
| Missing
| Pickled (items : list Item)
| Corrupt.

Record MessageQueue : Type := {
  queue : list Item;
  processing_set : gset string;
  file : File
}.

Definition set_status (s : Status) (it : Item) : Item :=
  {| item_id := item_id it; status := s; timestamp := timestamp it;
     sequence := sequence it; proxy_command := proxy_command it;
     callback := callback it; processing_time := processing_time it;
     result := result it; error := error it; completion_time := completion_time it |}.

(** [item['status'] = 'processing'; item['processing_time'] = time.time()] *)
Definition mark_processing (now : Q) (it : Item) : Item :=
  {| item_id := item_id it; status := processing; timestamp := timestamp it;
     sequence := sequence it; proxy_command := proxy_command it;
     callback := callback it; processing_time := Some now;
     result := result it; error := error it; completion_time := completion_time it |}.

(** [item['status'] = 'completed'; item['result'] = result;
    item['completion_time'] = time.time()] *)
Definition mark_completed (r : Json) (now : Q) (it : Item) : Item :=
  {| item_id := item_id it; status := completed; timestamp := timestamp it;
     sequence := sequence it; proxy_command := proxy_command it;
     callback := callback it; processing_time := processing_time it;
     result := Some r; error := error it; completion_time := Some now |}.

(** [item['status'] = 'failed'; item['error'] = error;
    item['completion_time'] = time.time()] *)
Definition mark_failed (err : string) (now : Q) (it : Item) : Item :=
  {| item_id := item_id it; status := failed; timestamp := timestamp it;
     sequence := sequence it; proxy_command := proxy_command it;
     callback := callback it; processing_time := processing_time it;
     result := result it; error := Some err; completion_time := Some now |}.

Definition item_picklable (it : Item) : bool :=
  match callback it with
  | Some cb => picklable cb
  | None => true
  end.

(** [_save_queue]: the file is opened for writing, which empties it, and
    the list is pickled into it; a failure on the way is printed and leaves
    a file that cannot be loaded. *)
Definition _save_queue (mq : MessageQueue) : MessageQueue :=
  {| queue := queue mq; processing_set := processing_set mq;
     file := if forallb item_picklable (queue mq) then Pickled (queue mq) else Corrupt |}.

(** The reset of [_load_queue]:
    [if item['status'] == 'processing': item['status'] = 'pending']. *)
Definition reset (it : Item) : Item :=
  if decide (status it = processing) then set_status pending it else it.

Definition _load_queue (mq : MessageQueue) : MessageQueue :=
  match file mq with
  | Missing => mq
  | Pickled items =>
      {| queue := reset <$> items; processing_set := ∅; file := file mq |}
  | Corrupt =>
      {| queue := []; processing_set := processing_set mq; file := file mq |}
  end.

(** [MessageQueue.__init__] on a directory that holds the given file. *)
Definition init (f : File) : MessageQueue :=
  _load_queue {| queue := []; processing_set := ∅; file := f |}.

(** [f"msg_{int(time.time())}_{len(self.queue)}"] *)
Definition default_id (now : Q) (n : nat) : string :=
  "msg_" +:+ str_int (Qfloor now) +:+ "_" +:+ str_int (Z.of_nat n).

Definition enqueue_id (cmd : Command) (now : Q) (mq : MessageQueue) : string :=
  match cmd_id cmd with
  | Some i => i
  | None => default_id now (length (queue mq))
  end.

Definition new_item (cmd : Command) (now : Q) (mq : MessageQueue) : Item :=
  {| item_id := enqueue_id cmd now mq; status := pending; timestamp := now;
     sequence := length (queue mq); proxy_command := cmd_proxy_command cmd;
     callback := cmd_callback cmd; processing_time := None;
     result := None; error := None; completion_time := None |}.

Definition enqueue (cmd : Command) (now : Q) (mq : MessageQueue) : string * MessageQueue :=
  (enqueue_id cmd now mq,
   _save_queue {| queue := queue mq ++ [new_item cmd now mq];
                  processing_set := processing_set mq; file := file mq |}).

(** [item['status'] == 'pending' and item['id'] not in self.processing] *)
Definition eligible (busy : gset string) (it : Item) : bool :=
  bool_decide (status it = pending) && bool_decide (item_id it ∉ busy).

(** The scan of [dequeue]: the first eligible item, marked, and the list
    with that item marked in place. *)
Fixpoint claim (now : Q) (busy : gset string) (q : list Item) : option (Item * list Item) :=
  match q with
  | [] => None
  | it :: rest =>
      if eligible busy it then
        let it' := mark_processing now it in Some (it', it' :: rest)
      else
        match claim now busy rest with
        | Some (x, rest') => Some (x, it :: rest')
        | None => None
        end
  end.

Definition dequeue (now : Q) (mq : MessageQueue) : option Item * MessageQueue :=
  match claim now (processing_set mq) (queue mq) with
  | Some (it, q') =>
      (Some it,
       _save_queue {| queue := q'; processing_set := {[item_id it]} ∪ processing_set mq;
                      file := file mq |})
  | None => (None, mq)
  end.

(** The scan of [complete] and [fail]: the first item with the given id,
    updated in place. *)
Fixpoint update_first (f : Item -> Item) (i : string) (q : list Item) : option (list Item) :=
  match q with
  | [] => None
  | it :: rest =>
      if String.eqb (item_id it) i then Some (f it :: rest)
      else
        match update_first f i rest with
        | Some rest' => Some (it :: rest')
        | None => None
        end
  end.

(** After the item is updated, [self.processing.remove(item_id)] raises
    [KeyError] when the id is not in the set; the queue is then left
    updated and unsaved. *)
Definition finish (f : Item -> Item) (i : string) (mq : MessageQueue)
  : Res bool * MessageQueue :=
  match update_first f i (queue mq) with
  | Some q' =>
      if bool_decide (i ∈ processing_set mq) then
        (Ok true,
         _save_queue {| queue := q'; processing_set := processing_set mq ∖ {[i]};
                        file := file mq |})
      else
        (Raise (PyException ("'" +:+ i +:+ "'")),
         {| queue := q'; processing_set := processing_set mq; file := file mq |})
  | None => (Ok false, mq)
  end.

Definition complete (i : string) (r : Json) (now : Q) (mq : MessageQueue)
  : Res bool * MessageQueue :=
  finish (mark_completed r now) i mq.

Definition fail (i : string) (err : string) (now : Q) (mq : MessageQueue)
  : Res bool * MessageQueue :=
  finish (mark_failed err now) i mq.

(** *** The worker of AsyncProxyManager *)

Section Worker.

Context {RT : Runtime}.

Definition is_space (c : ascii) : bool :=
  let n := nat_of_ascii c in
  (n =? 32)%nat || ((9 <=? n)%nat && (n <=? 13)%nat).

Fixpoint lstrip (s : string) : string :=
  match s with
  | String c t => if is_space c then lstrip t else s
  | EmptyString => EmptyString
  end.

(** [str.strip()], on ASCII white space. *)
Definition strip (s : string) : string :=
  String.rev (lstrip (String.rev (lstrip s))).

(** [callback(arg)] under [if callback:]. *)
Definition notify (cb : option Callback) (arg : Json) : Res unit :=
  match cb with
  | Some c =>
      match call c arg with
      | Some e => Raise e
      | None => Ok tt
      end
  | None => Ok tt
  end.

(** The dict both handlers build. *)
Definition error_feedback (command_id error_msg : string) (now : Q) : Json :=
  JObj [("id", JStr command_id); ("status", JStr "error");
        ("result", JStr error_msg); ("timestamp", JNum now)].

(** The inner [try] of [_execute_proxy_command]: decode the feedback,
    read its status for the log line, notify the callback. *)
Definition read_feedback (output : Json) (cb : option Callback) : Res Json :=
  let* feedback :=
    match output with
    | JStr s => json_loads_str (strip s)
    | _ => Raise (PyException "object has no attribute 'strip'")
    end in
  let* _ := dict_get feedback "status" JNull in
  let* _ := notify cb feedback in
  Ok feedback.

(** The handler of either [try]: notify the callback of the error, return
    the error dict. *)
Definition report (prefix : string) (e : Exn) (command_id : string)
    (cb : option Callback) (now : Q) : Res Json :=
  let error_msg := prefix +:+ exn_str e in
  let* _ := notify cb (error_feedback command_id error_msg now) in
  Ok (error_feedback command_id error_msg now).

(** [_execute_proxy_command(proxy_command, command_id, callback)], given
    what [self.remote.run_async(proxy_command)] comes to. An exception
    raised inside the inner handler passes to the outer one; an exception
    raised inside the outer handler leaves the function. *)
Definition _execute_proxy_command (run : Res Json) (command_id : string)
    (cb : option Callback) (now : Q) : Res Json :=
  let attempt :=
    let* output := run in
    match read_feedback output cb with
    | Ok feedback => Ok feedback
    | Raise e => report "解析反馈失败: " e command_id cb now
    end in
  match attempt with
  | Ok r => Ok r
  | Raise e => report "执行代理命令失败: " e command_id cb now
  end.

(** What one round of [_process_queue] did. *)
Inductive Event : Type :=
| Idle
| Completed (it : Item)
| Crashed (it : Item) (e : Exn).

(** One round of the [while True] loop of [_process_queue]: nothing to do
    (sleep a tenth of a second); or an item is taken, executed and marked
    completed; or an exception on the way is printed and the loop sleeps a
    second. *)
Definition process_step (now : Q) (run : Res Json) (mq : MessageQueue)
  : Event * MessageQueue :=
  match dequeue now mq with
  | (None, mq) => (Idle, mq)
  | (Some item, mq) =>
      match _execute_proxy_command run (item_id item) (callback item) now with
      | Raise e => (Crashed item e, mq)
      | Ok r =>
          match complete (item_id item) r now mq with
          | (Ok _, mq) => (Completed item, mq)
          | (Raise e, mq) => (Crashed item e, mq)
          end
      end
  end.

(** A run of the manager: commands are submitted, and the worker goes
    round, in any interleaving. *)
Inductive Action : Type :=
| Submit (cmd : Command) (now : Q)
| Work (now : Q) (run : Res Json).

(** The sequence numbers of the items completed, in the order in which
    they were completed. *)
Fixpoint drive (acts : list Action) (mq : MessageQueue) : list nat * MessageQueue :=
  match acts with
  | [] => ([], mq)
  | Submit cmd now :: rest => drive rest (snd (enqueue cmd now mq))
  | Work now run :: rest =>
      let '(ev, mq) := process_step now run mq in
      let '(log, mq) := drive rest mq in
      (match ev with Completed it => sequence it :: log | _ => log end, mq)
  end.


End Worker.

(** *** Well-formed queues *)

(** The queue as [send_command] and the worker keep it: an item's
    sequence number is its position, ids are not shared, an item whose id
    is marked busy is not pending, and only ids of items are marked busy. *)
Record wf (mq : MessageQueue) : Prop := {
  wf_sequence : forall i it, queue mq !! i = Some it -> sequence it = i;
  wf_ids : NoDup (item_id <$> queue mq);
  wf_busy : forall it, it ∈ queue mq -> status it = pending -> item_id it ∉ processing_set mq;
  wf_known : forall x, x ∈ processing_set mq -> x ∈ item_id <$> queue mq
}.

Lemma claim_spec now busy q :
  match claim now busy q with
  | Some (it', q') =>
      exists i it,
        q !! i = Some it /\ eligible busy it = true /\
        it' = mark_processing now it /\ q' = <[i := it']> q /\
        forall j itj, (j < i)%nat -> q !! j = Some itj -> eligible busy itj = false
  | None => forall it, it ∈ q -> eligible busy it = false
  end.
Proof.
  induction q as [|x q IH]; simpl.
  - intros it H. inversion H.
  - destruct (eligible busy x) eqn:E.
    + exists 0%nat, x. repeat split; auto. intros j itj Hj. lia.
    + destruct (claim now busy q) as [[it' q']|].
      * destruct IH as (i & it & L & El & -> & -> & First).
        exists (S i), it. repeat split; auto.
        intros [|j] itj Hj; simpl; [congruence|]. apply First. lia.
      * intros it [->|H]%elem_of_cons; auto.
Qed.

Lemma update_first_spec f i q :
  match update_first f i q with
  | Some q' =>
      exists k it,
        q !! k = Some it /\ item_id it = i /\ q' = <[k := f it]> q /\
        forall j itj, (j < k)%nat -> q !! j = Some itj -> item_id itj <> i
  | None => forall it, it ∈ q -> item_id it <> i
  end.
Proof.
  induction q as [|x q IH]; simpl.
  - intros it H. inversion H.
  - destruct (String.eqb (item_id x) i) eqn:E.
    + apply String.eqb_eq in E. exists 0%nat, x. repeat split; auto. intros j itj Hj. lia.
    + apply String.eqb_neq in E.
      destruct (update_first f i q) as [q'|].
      * destruct IH as (k & it & L & Id & -> & First).
        exists (S k), it. repeat split; auto.
        intros [|j] itj Hj; simpl; [congruence|]. apply First. lia.
      * intros it [->|H]%elem_of_cons; auto.
Qed.

(** In a well-formed queue the items [dequeue] may take are the pending
    ones. *)
Lemma eligible_pending mq it :
  wf mq -> it ∈ queue mq -> eligible (processing_set mq) it = bool_decide (status it = pending).
Proof.
  intros W In. unfold eligible. destruct (bool_decide (status it = pending)) eqn:P; [|reflexivity].
  apply bool_decide_eq_true in P. simpl. apply bool_decide_eq_true.
  exact (wf_busy mq W it In P).
Qed.

Lemma ids_insert (q : list Item) i it it' :
  q !! i = Some it -> item_id it' = item_id it ->
  item_id <$> <[i := it']> q = item_id <$> q.
Proof.
  intros L Id. rewrite list_fmap_insert, Id. apply list_insert_id.
  rewrite list_lookup_fmap, L. reflexivity.
Qed.

(** Two positions of a queue without shared ids that hold the same id are
    one position. *)
Lemma same_id_same_index (q : list Item) i j a b :
  NoDup (item_id <$> q) -> q !! i = Some a -> q !! j = Some b ->
  item_id a = item_id b -> i = j.
Proof.
  intros N A B Id. eapply NoDup_lookup; [exact N| |].
  - rewrite list_lookup_fmap, A. reflexivity.
  - rewrite list_lookup_fmap, B. simpl. congruence.
Qed.

Lemma wf_ext mq mq' :
  queue mq' = queue mq -> processing_set mq' = processing_set mq -> wf mq -> wf mq'.
Proof.
  intros Q B [S N P K]. constructor; rewrite ?Q, ?B; assumption.
Qed.

(** No item before position [i] is pending. *)
Definition first_pending (q : list Item) (i : nat) : Prop :=
  forall j itj, (j < i)%nat -> q !! j = Some itj -> status itj <> pending.

(** Replacing an item by one with the same id and sequence number that is
    no longer pending keeps the queue well formed, as long as no other id
    becomes busy. *)
Lemma wf_replace mq i it it' busy' f' :
  wf mq -> queue mq !! i = Some it ->
  item_id it' = item_id it -> sequence it' = sequence it -> status it' <> pending ->
  (forall x, x <> item_id it -> x ∈ busy' -> x ∈ processing_set mq) ->
  wf {| queue := <[i := it']> (queue mq); processing_set := busy'; file := f' |}.
Proof.
  intros W L Id Sq St Busy. pose proof (lookup_lt_Some _ _ _ L) as Li.
  constructor; simpl.
  - intros j x Lj. destruct (decide (i = j)) as [<-|Ne].
    + rewrite list_lookup_insert_eq in Lj by exact Li. injection Lj as <-.
      rewrite Sq. exact (wf_sequence mq W i it L).
    + rewrite list_lookup_insert_ne in Lj by exact Ne. exact (wf_sequence mq W j x Lj).
  - rewrite (ids_insert _ _ _ _ L Id). exact (wf_ids mq W).
  - intros x [j Lj]%list_elem_of_lookup P. destruct (decide (i = j)) as [<-|Ne].
    + rewrite list_lookup_insert_eq in Lj by exact Li. injection Lj as <-. contradiction.
    + rewrite list_lookup_insert_ne in Lj by exact Ne.
      intros B. apply Busy in B.
      * revert B. apply (wf_busy mq W x); [|exact P]. apply list_elem_of_lookup. eauto.
      * intros E. apply Ne. symmetry.
        exact (same_id_same_index _ _ _ _ _ (wf_ids mq W) Lj L E).
  - intros x B. rewrite (ids_insert _ _ _ _ L Id).
    destruct (decide (x = item_id it)) as [->|Ne].
    + apply list_elem_of_fmap. exists it. split; [reflexivity|].
      apply list_elem_of_lookup. eauto.
    + apply (wf_known mq W). apply Busy; assumption.
Qed.

Lemma dequeue_some now mq it' mq' :
  wf mq -> dequeue now mq = (Some it', mq') ->
  exists i it,
    queue mq !! i = Some it /\ status it = pending /\
    it' = mark_processing now it /\
    queue mq' = <[i := it']> (queue mq) /\
    processing_set mq' = {[item_id it]} ∪ processing_set mq /\
    first_pending (queue mq) i /\ wf mq'.
Proof.
  intros W. unfold dequeue.
  pose proof (claim_spec now (processing_set mq) (queue mq)) as C.
  destruct (claim now (processing_set mq) (queue mq)) as [[x q']|]; [|discriminate].
  destruct C as (i & it & L & El & -> & -> & First). intros [= <- <-].
  assert (In : it ∈ queue mq) by (apply list_elem_of_lookup; eauto).
  rewrite (eligible_pending mq it W In) in El. apply bool_decide_eq_true in El.
  exists i, it. simpl. split_and!; auto.
  - intros j itj Hj Lj P.
    assert (Inj : itj ∈ queue mq) by (apply list_elem_of_lookup; eauto).
    specialize (First j itj Hj Lj). rewrite (eligible_pending mq itj W Inj) in First.
    apply bool_decide_eq_false in First. contradiction.
  - eapply wf_ext; [reflexivity | reflexivity |].
    apply (wf_replace mq i it); auto; try discriminate.
    intros x Hx [->%elem_of_singleton|B]%elem_of_union; [contradiction | exact B].
Qed.

Lemma dequeue_none now mq mq' :
  wf mq -> dequeue now mq = (None, mq') ->
  mq' = mq /\ forall it, it ∈ queue mq -> status it <> pending.
Proof.
  intros W. unfold dequeue.
  pose proof (claim_spec now (processing_set mq) (queue mq)) as C.
  destruct (claim now (processing_set mq) (queue mq)) as [[x q']|]; [discriminate|].
  intros [= <-]. split; [reflexivity|]. intros it In P.
  specialize (C it In). rewrite (eligible_pending mq it W In) in C.
  apply bool_decide_eq_false in C. contradiction.
Qed.

(** [complete] and [fail] on the id of an item that is marked busy: the
    item is updated where it stands and the id is released. *)
Lemma finish_busy f i it mq k :
  wf mq -> queue mq !! k = Some it -> item_id it = i -> i ∈ processing_set mq ->
  (forall x, item_id (f x) = item_id x) -> (forall x, sequence (f x) = sequence x) ->
  (forall x, status (f x) <> pending) ->
  exists mq',
    finish f i mq = (Ok true, mq') /\
    queue mq' = <[k := f it]> (queue mq) /\
    processing_set mq' = processing_set mq ∖ {[i]} /\ wf mq'.
Proof.
  intros W L Id B Fid Fseq Fst. unfold finish.
  pose proof (update_first_spec f i (queue mq)) as U.
  destruct (update_first f i (queue mq)) as [q'|].
  - destruct U as (k' & it0 & L' & Id' & -> & _).
    assert (k' = k) as ->.
    { apply (same_id_same_index _ _ _ _ _ (wf_ids mq W) L' L). congruence. }
    assert (it0 = it) as -> by congruence.
    rewrite (bool_decide_eq_true_2 _ B). eexists. split; [reflexivity|]. simpl.
    split_and!; auto. eapply wf_ext; [reflexivity | reflexivity |].
    apply (wf_replace mq k it); auto.
    intros x _ [Bx _]%elem_of_difference. exact Bx.
  - exfalso. apply (U it); [apply list_elem_of_lookup; eauto | exact Id].
Qed.

(** [complete] and [fail] keep a queue well formed on any id, busy or
    not, known or not. *)
Lemma wf_finish f i mq :
  wf mq ->
  (forall x, item_id (f x) = item_id x) -> (forall x, sequence (f x) = sequence x) ->
  (forall x, status (f x) <> pending) ->
  wf (snd (finish f i mq)).
Proof.
  intros W Fid Fseq Fst. unfold finish.
  pose proof (update_first_spec f i (queue mq)) as U.
  destruct (update_first f i (queue mq)) as [q'|]; [|exact W].
  destruct U as (k & it & L & Id & -> & _).
  destruct (bool_decide (i ∈ processing_set mq)); simpl.
  - eapply wf_ext; [reflexivity | reflexivity |].
    apply (wf_replace mq k it); auto.
    intros x _ [Bx _]%elem_of_difference. exact Bx.
  - apply (wf_replace mq k it); auto.
Qed.

Lemma wf_empty f : wf {| queue := []; processing_set := ∅; file := f |}.
Proof.
  constructor; simpl.
  - intros i it L. rewrite lookup_nil in L. discriminate.
  - constructor.
  - intros it H. inversion H.
  - intros x H. apply not_elem_of_empty in H. contradiction.
Qed.

Lemma wf_enqueue cmd now mq :
  wf mq -> enqueue_id cmd now mq ∉ (item_id <$> queue mq) ->
  wf (snd (enqueue cmd now mq)).
Proof.
  intros W Fresh. constructor; simpl.
  - intros i it L. apply lookup_app_Some in L as [L|[Len L]].
    + exact (wf_sequence mq W i it L).
    + destruct (i - length (queue mq))%nat as [|n] eqn:D; simpl in L; [|discriminate].
      injection L as <-. simpl. lia.
  - rewrite fmap_app. apply NoDup_app. split_and!.
    + exact (wf_ids mq W).
    + intros x Hx [-> | H]%elem_of_cons; [contradiction | inversion H].
    + simpl. apply NoDup_singleton.
  - intros it [Hin | ->%list_elem_of_singleton]%elem_of_app P.
    + exact (wf_busy mq W it Hin P).
    + simpl. intros B. apply Fresh. exact (wf_known mq W _ B).
  - intros x B. rewrite fmap_app. apply elem_of_app. left. exact (wf_known mq W x B).
Qed.

(** *** The worker takes the items in the order of their sequence numbers *)





Section WorkerFacts.

Context {RT : Runtime}.

(** One round of the worker, in a well-formed queue: idle exactly when
    nothing is pending; otherwise the pending item of lowest position is
    taken, and it ends completed, with the result stored, if and only if
    [_execute_proxy_command] returns. *)
Lemma process_step_spec now run mq :
  wf mq ->
  match process_step now run mq with
  | (Idle, mq') => mq' = mq /\ forall it, it ∈ queue mq -> status it <> pending
  | (Completed it', mq') =>
      exists i it r,
        queue mq !! i = Some it /\ status it = pending /\ first_pending (queue mq) i /\
        it' = mark_processing now it /\
        _execute_proxy_command run (item_id it) (callback it) now = Ok r /\
        queue mq' = <[i := mark_completed r now it']> (queue mq) /\ wf mq'
  | (Crashed it' e, mq') =>
      exists i it,
        queue mq !! i = Some it /\ status it = pending /\ first_pending (queue mq) i /\
        it' = mark_processing now it /\
        _execute_proxy_command run (item_id it) (callback it) now = Raise e /\
        queue mq' = <[i := it']> (queue mq) /\ wf mq'
  end.
Proof.
  intros W. unfold process_step.
  destruct (dequeue now mq) as [[it'|] mq1] eqn:D.
  - destruct (dequeue_some now mq it' mq1 W D) as (i & it & L & P & -> & Q1 & B1 & First & W1).
    pose proof (lookup_lt_Some _ _ _ L) as Li.
    change (item_id (mark_processing now it)) with (item_id it).
    change (callback (mark_processing now it)) with (callback it).
    destruct (_execute_proxy_command run (item_id it) (callback it) now) as [r|e] eqn:X.
    + assert (L1 : queue mq1 !! i = Some (mark_processing now it)).
      { rewrite Q1. apply list_lookup_insert_eq. exact Li. }
      assert (Bu : item_id it ∈ processing_set mq1).
      { rewrite B1. apply elem_of_union_l, elem_of_singleton. reflexivity. }
      destruct (finish_busy (mark_completed r now) (item_id it) (mark_processing now it)
                  mq1 i W1 L1 eq_refl Bu)
        as (mq2 & F & Q2 & _ & W2);
        [reflexivity | reflexivity | intros x; discriminate |].
      unfold complete. rewrite F. exists i, it, r. split_and!; auto.
      rewrite Q2, Q1. apply list_insert_insert_eq.
    + exists i, it. split_and!; auto.
  - apply (dequeue_none now mq mq1 W D).
Qed.





(** *** What [_execute_proxy_command] comes to *)

(** It raises only what the callback raised. *)
Lemma report_raise prefix e0 command_id cb now e :
  report prefix e0 command_id cb now = Raise e ->
  exists c arg, cb = Some c /\ call c arg = Some e.
Proof.
  unfold report, notify. destruct cb as [c|]; simpl; [|discriminate].
  destruct (call c _) as [e'|] eqn:C; simpl; [|discriminate].
  intros [= <-]. eauto.
Qed.

Lemma execute_proxy_command_raise run command_id cb now e :
  _execute_proxy_command run command_id cb now = Raise e ->
  exists c arg, cb = Some c /\ call c arg = Some e.
Proof.
  unfold _execute_proxy_command.
  destruct run as [output|e0]; simpl.
  - destruct (read_feedback output cb) as [feedback|e1]; [discriminate|].
    destruct (report "解析反馈失败: " e1 command_id cb now) as [r|e2] eqn:R1; [discriminate|].
    apply report_raise.
  - apply report_raise.
Qed.

(** So it returns whenever the item has no callback, or one that does not
    raise: a command that raises and a feedback that cannot be decoded both
    end in the error dict. *)
Lemma execute_proxy_command_returns run command_id cb now :
  (forall c arg, cb = Some c -> call c arg = None) ->
  exists r, _execute_proxy_command run command_id cb now = Ok r.
Proof.
  intros Quiet.
  destruct (_execute_proxy_command run command_id cb now) as [r|e] eqn:X; [eauto|].
  destruct (execute_proxy_command_raise _ _ _ _ _ X) as (c & arg & -> & C).
  rewrite (Quiet c arg eq_refl) in C. discriminate.
Qed.

(** C10 (as the code has it). In a well-formed queue, one round of the
    worker leaves the item it dequeued [completed], with the result dict
    stored, whenever [_execute_proxy_command] returns; that is the case
    when the item has no callback or its callback does not raise, also if
    the proxied command raises or its feedback cannot be decoded. When the
    callback raises out of [_execute_proxy_command] the item stays
    [processing]. No round sets a status to [failed]. *)
Theorem C10_worker_completes_unless_callback_raises
    (now : Q) (run : Res Json) (mq : MessageQueue) :
  wf mq ->
  let mq' := snd (process_step now run mq) in
  (forall it', fst (dequeue now mq) = Some it' ->
     match _execute_proxy_command run (item_id it') (callback it') now with
     | Ok r =>
         exists i, queue mq' !! i = Some (mark_completed r now it') /\
                   sequence it' = i
     | Raise _ =>
         exists i, queue mq' !! i = Some it' /\ status it' = processing
     end) /\
  (forall it', fst (dequeue now mq) = Some it' ->
     (forall c arg, callback it' = Some c -> call c arg = None) ->
     exists r, _execute_proxy_command run (item_id it') (callback it') now = Ok r) /\
  (forall i x, queue mq' !! i = Some x -> status x = failed ->
     exists y, queue mq !! i = Some y /\ status y = failed).
Proof.
  intros W mq'. subst mq'.
  pose proof (process_step_spec now run mq W) as S.
  destruct (dequeue now mq) as [[d|] mq1] eqn:D.
  - destruct (dequeue_some now mq d mq1 W D) as (i0 & it0 & L0 & P0 & -> & _).
    pose proof (lookup_lt_Some _ _ _ L0) as Li0.
    unfold process_step in *. rewrite D in *.
    change (item_id (mark_processing now it0)) with (item_id it0) in *.
    change (callback (mark_processing now it0)) with (callback it0) in *.
    destruct (_execute_proxy_command run (item_id it0) (callback it0) now) as [r|e] eqn:X.
    + destruct (complete (item_id it0) r now mq1) as [[b|e] mq2] eqn:C; simpl in *.
      * destruct S as (i & it & r' & L & P & First & M & X' & Q & W2).
        pose proof (f_equal item_id M) as Hid.
        pose proof (f_equal callback M) as Hcb.
        pose proof (f_equal sequence M) as Hseq. simpl in Hid, Hcb, Hseq.
        rewrite <- Hid, <- Hcb, X in X'. injection X' as <-.
        split_and!.
        -- intros it' [= <-].
           change (item_id (mark_processing now it0)) with (item_id it0).
           change (callback (mark_processing now it0)) with (callback it0).
           rewrite X. exists i. split.
           ++ rewrite Q. apply list_lookup_insert_eq. eapply lookup_lt_Some; eauto.
           ++ simpl. rewrite Hseq. exact (wf_sequence mq W i it L).
        -- intros it' [= <-] _. eauto.
        -- intros j x Lj F. rewrite Q in Lj. destruct (decide (i = j)) as [<-|Ne].
           ++ rewrite list_lookup_insert_eq in Lj by (eapply lookup_lt_Some; eauto).
              injection Lj as <-. discriminate F.
           ++ rewrite list_lookup_insert_ne in Lj by exact Ne. eauto.
      * destruct S as (i & it & _ & _ & _ & M & X' & _).
        pose proof (f_equal item_id M) as Hid.
        pose proof (f_equal callback M) as Hcb. simpl in Hid, Hcb.
        rewrite <- Hid, <- Hcb, X in X'. discriminate X'.
    + simpl in *. destruct S as (i & it & L & P & First & M & X' & Q & W2).
      split_and!.
      * intros it' [= <-].
        change (item_id (mark_processing now it0)) with (item_id it0).
        change (callback (mark_processing now it0)) with (callback it0).
        rewrite X. exists i. split; [|reflexivity].
        rewrite Q. apply list_lookup_insert_eq. eapply lookup_lt_Some; eauto.
      * intros it' [= <-]. apply execute_proxy_command_returns.
      * intros j x Lj F. rewrite Q in Lj. destruct (decide (i = j)) as [<-|Ne].
        -- rewrite list_lookup_insert_eq in Lj by (eapply lookup_lt_Some; eauto).
           injection Lj as <-. discriminate F.
        -- rewrite list_lookup_insert_ne in Lj by exact Ne. eauto.
  - unfold process_step in *. rewrite D in *. simpl in *. destruct S as [-> _].
    split_and!; try discriminate. eauto.
Qed.

End WorkerFacts.

(** *** Loading the persisted queue *)

Lemma reset_processing it : status it = processing -> reset it = set_status pending it.
Proof. intros P. unfold reset. destruct (decide (status it = processing)); [reflexivity|contradiction]. Qed.

Lemma reset_other it : status it <> processing -> reset it = it.
Proof. intros P. unfold reset. destruct (decide (status it = processing)); [contradiction|reflexivity]. Qed.


(** A queue loaded from a file that was written from a well-formed queue
    is well formed. *)
Lemma wf_init items :
  (forall i it, items !! i = Some it -> sequence it = i) ->
  NoDup (item_id <$> items) ->
  wf (init (Pickled items)).
Proof.
  intros Sq N. constructor; simpl.
  - intros i it L. rewrite list_lookup_fmap in L.
    destruct (items !! i) as [x|] eqn:Lx; [|discriminate]. injection L as <-.
    rewrite <- (Sq i x Lx). unfold reset. destruct (decide _); reflexivity.
  - rewrite <- list_fmap_compose.
    rewrite (list_fmap_ext (item_id ∘ reset) item_id items); [exact N|].
    intros i x _. simpl. unfold reset. destruct (decide _); reflexivity.
  - intros it _ _ H. apply not_elem_of_empty in H. contradiction.
  - intros x H. apply not_elem_of_empty in H. contradiction.
Qed.

(** C8. After [_load_queue] has loaded the persisted list, every item
    that was persisted as [processing] is still in the queue, at its
    place and otherwise unchanged, with status [pending]; the busy set is
    empty, so the item is one [dequeue] may take, and [dequeue] does take
    an item. Items persisted in another status are loaded as they are. *)
Theorem C8_processing_reloads_as_pending (items : list Item) (i : nat) (it : Item) :
  items !! i = Some it -> status it = processing ->
  let mq := init (Pickled items) in
  queue mq !! i = Some (set_status pending it) /\
  length (queue mq) = length items /\
  eligible (processing_set mq) (set_status pending it) = true /\
  (forall now, exists it' mq', dequeue now mq = (Some it', mq')) /\
  (forall j x, items !! j = Some x -> status x <> processing -> queue mq !! j = Some x).
Proof.
  intros L P mq. subst mq. simpl.
  assert (Q : (reset <$> items) !! i = Some (set_status pending it)).
  { rewrite list_lookup_fmap, L. simpl. rewrite (reset_processing it P). reflexivity. }
  split_and!.
  - exact Q.
  - apply length_fmap.
  - reflexivity.
  - intros now. unfold dequeue. simpl.
    pose proof (claim_spec now ∅ (reset <$> items)) as C.
    destruct (claim now ∅ (reset <$> items)) as [[it' q']|]; [eauto|].
    exfalso. assert (In : set_status pending it ∈ reset <$> items).
    { apply list_elem_of_lookup. eauto. }
    specialize (C _ In). discriminate C.
  - intros j x Lj Px. rewrite list_lookup_fmap, Lj. simpl.
    rewrite (reset_other x Px). reflexivity.
Qed.

(** *** A concrete queue *)

Definition command (i : string) (cb : option Callback) : Command :=
  {| cmd_id := Some i; cmd_proxy_command := "python -c ..."; cmd_callback := cb |}.

(** Three commands are submitted, then the worker goes round three times:
    the first command raises, the feedback of the second cannot be
    decoded, the third succeeds. *)
Definition abc : list Action :=
  [Submit (command "cmd_0_100" None) 100;
   Submit (command "cmd_1_100" None) 101;
   Submit (command "cmd_2_101" None) 102;
   Work 103 (Raise (SocketError "timed out"));
   Work 104 (Ok (JStr "not json"));
   Work 105 (Ok (JStr Core.uptime_text))].



Example abc_completed_in_order :
  let '(log, mq) := @drive Core.demo_runtime abc (init Missing) in
  log = [0; 1; 2]%nat /\
  status <$> queue mq = [completed; completed; completed] /\
  item_id <$> queue mq = ["cmd_0_100"; "cmd_1_100"; "cmd_2_101"].
Proof. vm_compute. repeat split. Qed.

(** A file that holds a completed, a processing and a pending item. *)
Definition stored (i : string) (s : Status) (n : nat) : Item :=
  {| item_id := i; status := s; timestamp := 100; sequence := n;
     proxy_command := "python -c ..."; callback := None; processing_time := None;
     result := None; error := None; completion_time := None |}.

Definition crashed_file : list Item :=
  [stored "cmd_0_100" completed 0; stored "cmd_1_100" processing 1;
   stored "cmd_2_101" pending 2].

Lemma C8_processing_reloads_witness :
  let mq := init (Pickled crashed_file) in
  queue mq !! 1%nat = Some (set_status pending (stored "cmd_1_100" processing 1)) /\
  length (queue mq) = length crashed_file /\
  eligible (processing_set mq) (set_status pending (stored "cmd_1_100" processing 1)) = true /\
  (forall now, exists it' mq', dequeue now mq = (Some it', mq')) /\
  (forall j x, crashed_file !! j = Some x -> status x <> processing -> queue mq !! j = Some x).
Proof.
  exact (C8_processing_reloads_as_pending crashed_file 1
           (stored "cmd_1_100" processing 1) eq_refl eq_refl).
Defined.

(** A callback that raises on whatever it is called with. *)
Definition raising_callback : Callback :=
  {| picklable := true; call := fun _ => Some (PyException "callback failed") |}.

Definition one_command (cb : option Callback) : MessageQueue :=
  snd (enqueue (command "cmd_0_100" cb) 100 (init Missing)).

Lemma one_command_wf cb : wf (one_command cb).
Proof.
  apply wf_enqueue; [apply wf_empty|]. simpl. intros H. inversion H.
Qed.

(** The worker dequeues the item, the command raises, the callback raises
    on the error notification: the round ends in the handler of
    [_process_queue], the item is left [processing], and the next round
    finds nothing to do. *)
Lemma C10_raising_callback_leaves_processing :
  let mq := one_command (Some raising_callback) in
  let mq' := snd (@process_step Core.demo_runtime 101 (Raise (SocketError "timed out")) mq) in
  item_id <$> fst (dequeue 101 mq) = Some "cmd_0_100" /\
  status <$> queue mq' = [processing] /\
  status <$> queue (snd (@process_step Core.demo_runtime 102 (Ok (JStr "not json")) mq'))
  = [processing].
Proof. vm_compute. repeat split. Qed.

Lemma C10_worker_completes_witness :
  let mq := one_command None in
  let mq' := snd (@process_step Core.demo_runtime 101 (Raise (SocketError "timed out")) mq) in
  (forall it', fst (dequeue 101 mq) = Some it' ->
     match @_execute_proxy_command Core.demo_runtime (Raise (SocketError "timed out"))
             (item_id it') (callback it') 101 with
     | Ok r =>
         exists i, queue mq' !! i = Some (mark_completed r 101 it') /\ sequence it' = i
     | Raise _ =>
         exists i, queue mq' !! i = Some it' /\ status it' = processing
     end) /\
  (forall it', fst (dequeue 101 mq) = Some it' ->
     (forall c arg, callback it' = Some c -> call c arg = None) ->
     exists r, @_execute_proxy_command Core.demo_runtime (Raise (SocketError "timed out"))
                 (item_id it') (callback it') 101 = Ok r) /\
  (forall i x, queue mq' !! i = Some x -> status x = failed ->
     exists y, queue mq !! i = Some y /\ status y = failed).
Proof.
  exact (@C10_worker_completes_unless_callback_raises Core.demo_runtime 101
           (Raise (SocketError "timed out")) (one_command None) (one_command_wf None)).
Defined.

Example one_command_completed :
  status <$> queue (snd (@process_step Core.demo_runtime 101 (Raise (SocketError "timed out"))
                           (one_command None)))
  = [completed].
Proof. vm_compute. reflexivity. Qed.

(** *** Saving, crashing and starting again *)

(** What a process finds when it starts on the file the queue last
    wrote. *)
Definition restart (mq : MessageQueue) : MessageQueue := init (file mq).

Lemma reset_keeps it : item_id (reset it) = item_id it /\ sequence (reset it) = sequence it.
Proof. unfold reset. destruct (decide _); split; reflexivity. Qed.

(** X16. Saving and starting again is a round trip up to the reset: if
    every item of the queue can be pickled, the process that starts on the
    file written by [_save_queue] has the same items in the same order,
    with [processing] turned into [pending] and nothing marked busy, and
    its queue is well formed if the saved one was. *)
Theorem save_restart_round_trip (mq : MessageQueue) :
  forallb item_picklable (queue mq) = true ->
  let mq' := restart (_save_queue mq) in
  queue mq' = reset <$> queue mq /\
  processing_set mq' = ∅ /\
  (wf mq -> wf mq').
Proof.
  intros P mq'. subst mq'. unfold restart, _save_queue. simpl. rewrite P.
  split_and!; [reflexivity | reflexivity |].
  intros W. apply wf_init; [exact (wf_sequence mq W) | exact (wf_ids mq W)].
Qed.

(** X17. One item whose callback cannot be pickled costs the whole queue:
    [_save_queue] fails on it (and only prints the error), the file it
    opened for writing cannot be loaded, and the process that starts on it
    has an empty queue. *)
Theorem unpicklable_callback_loses_queue (mq : MessageQueue) (it : Item) :
  it ∈ queue mq -> item_picklable it = false ->
  file (_save_queue mq) = Corrupt /\ queue (restart (_save_queue mq)) = [].
Proof.
  intros In P.
  assert (F : forallb item_picklable (queue mq) = false).
  { apply not_true_iff_false. intros A. rewrite forallb_forall in A.
    rewrite (A it) in P; [discriminate|]. apply list_elem_of_In, In. }
  unfold restart, _save_queue. simpl. rewrite F. split; reflexivity.
Qed.

Lemma claim_first now busy q i it :
  q !! i = Some it -> eligible busy it = true ->
  (forall j x, (j < i)%nat -> q !! j = Some x -> eligible busy x = false) ->
  claim now busy q = Some (mark_processing now it, <[i := mark_processing now it]> q).
Proof.
  revert i. induction q as [|y q IH]; intros i L E First; [rewrite lookup_nil in L; discriminate|].
  destruct i as [|i]; simpl in *.
  - injection L as ->. rewrite E. reflexivity.
  - rewrite (First 0%nat y); [|lia|reflexivity].
    rewrite (IH i L E); [reflexivity|].
    intros j x Hj Lj. apply (First (S j) x); [lia | exact Lj].
Qed.

(** X18. Delivery is at least once. In a well-formed queue of picklable
    items none of which is [processing]: if the worker takes an item and
    the process dies before completing it, the process that starts on the
    saved file is handed that same item, with the same id and sequence
    number, by its first [dequeue]. *)
Theorem crash_after_dequeue_redelivers
    (now now' : Q) (mq mq1 : MessageQueue) (it : Item) :
  wf mq ->
  forallb item_picklable (queue mq) = true ->
  (forall x, x ∈ queue mq -> status x <> processing) ->
  dequeue now mq = (Some it, mq1) ->
  exists it' mq2,
    dequeue now' (restart mq1) = (Some it', mq2) /\
    item_id it' = item_id it /\ sequence it' = sequence it /\
    proxy_command it' = proxy_command it /\ status it' = processing.
Proof.
  intros W P NoProc D.
  destruct (dequeue_some now mq it mq1 W D) as (i & it0 & L & St & -> & Q1 & B1 & First & W1).
  pose proof (lookup_lt_Some _ _ _ L) as Li.
  assert (F1 : file mq1 = Pickled (queue mq1)).
  { unfold dequeue in D.
    destruct (claim now (processing_set mq) (queue mq)) as [[x q']|]; [|discriminate].
    injection D as _ <-. simpl.
    assert (Pq : forallb item_picklable q' = true).
    { simpl in Q1. subst q'. apply forallb_forall. intros y Hy.
      apply list_elem_of_In, list_elem_of_lookup in Hy as [j Lj].
      destruct (decide (i = j)) as [<-|Ne].
      - rewrite list_lookup_insert_eq in Lj by exact Li. injection Lj as <-.
        rewrite forallb_forall in P. apply (P it0).
        apply list_elem_of_In, list_elem_of_lookup. eauto.
      - rewrite list_lookup_insert_ne in Lj by exact Ne.
        rewrite forallb_forall in P. apply (P y).
        apply list_elem_of_In, list_elem_of_lookup. eauto. }
    rewrite Pq. reflexivity. }
  set (back := set_status pending (mark_processing now it0)).
  assert (Lr : (reset <$> queue mq1) !! i = Some back).
  { rewrite list_lookup_fmap, Q1, list_lookup_insert_eq by exact Li. reflexivity. }
  assert (C : claim now' ∅ (reset <$> queue mq1)
              = Some (mark_processing now' back, <[i := mark_processing now' back]>
                                                   (reset <$> queue mq1))).
  { apply claim_first; [exact Lr | reflexivity |].
    intros j x Hj Lj. rewrite list_lookup_fmap, Q1 in Lj.
    rewrite list_lookup_insert_ne in Lj by lia.
    destruct (queue mq !! j) as [y|] eqn:Ly; [|discriminate]. injection Lj as <-.
    assert (Iny : y ∈ queue mq) by (apply list_elem_of_lookup; eauto).
    rewrite (reset_other y (NoProc y Iny)).
    unfold eligible. rewrite (bool_decide_eq_false_2 _ (First j y Hj Ly)). reflexivity. }
  unfold restart, init, _load_queue, dequeue. simpl. rewrite F1. simpl. rewrite C.
  eexists _, _. split; [reflexivity|]. split_and!; reflexivity.
Qed.

(** X19. No item is handed out twice: in a well-formed queue two
    [dequeue]s in a row, with no completion in between, return two
    different items, the second with the higher sequence number. *)
Theorem dequeue_twice_distinct (now now' : Q) (mq mq1 mq2 : MessageQueue) (a b : Item) :
  wf mq ->
  dequeue now mq = (Some a, mq1) -> dequeue now' mq1 = (Some b, mq2) ->
  item_id a <> item_id b /\ (sequence a < sequence b)%nat.
Proof.
  intros W D1 D2.
  destruct (dequeue_some now mq a mq1 W D1) as (i & x & L & St & -> & Q1 & B1 & First & W1).
  destruct (dequeue_some now' mq1 b mq2 W1 D2) as (j & y & L' & St' & -> & _ & _ & First' & _).
  pose proof (lookup_lt_Some _ _ _ L) as Li.
  assert (Ne : i <> j).
  { intros <-. rewrite Q1, list_lookup_insert_eq in L' by exact Li.
    injection L' as <-. discriminate St'. }
  assert (Ly : queue mq !! j = Some y).
  { rewrite Q1, list_lookup_insert_ne in L' by exact Ne. exact L'. }
  assert (Lt : (i < j)%nat).
  { destruct (decide (j < i)%nat) as [Lt|]; [|lia]. exfalso. exact (First j y Lt Ly St'). }
  simpl. rewrite (wf_sequence mq W i x L), (wf_sequence mq W j y Ly). split; [|exact Lt].
  intros E. apply Ne. exact (same_id_same_index _ _ _ _ _ (wf_ids mq W) L Ly E).
Qed.

(** X20. [complete] on an id that no item has returns [False] and
    changes nothing; on the id of an item that was never dequeued it
    raises [KeyError] from [self.processing.remove], but only after the
    item has been marked completed with the result, and without saving:
    the file still holds the item as it was. *)
Theorem complete_unknown_or_not_busy (i : string) (r : Json) (now : Q) (mq : MessageQueue) :
  ((forall it, it ∈ queue mq -> item_id it <> i) -> complete i r now mq = (Ok false, mq)) /\
  (forall k it,
     wf mq -> queue mq !! k = Some it -> item_id it = i -> i ∉ processing_set mq ->
     exists e mq',
       complete i r now mq = (Raise e, mq') /\
       queue mq' = <[k := mark_completed r now it]> (queue mq) /\
       file mq' = file mq).
Proof.
  unfold complete, finish.
  pose proof (update_first_spec (mark_completed r now) i (queue mq)) as U.
  split.
  - intros No. destruct (update_first _ i (queue mq)) as [q'|]; [|reflexivity].
    destruct U as (k & it & L & Id & _). exfalso.
    apply (No it); [apply list_elem_of_lookup; eauto | exact Id].
  - intros k it W L Id NB.
    destruct (update_first _ i (queue mq)) as [q'|].
    + destruct U as (k' & it0 & L' & Id' & -> & _).
      assert (k' = k) as ->.
      { apply (same_id_same_index _ _ _ _ _ (wf_ids mq W) L' L). congruence. }
      assert (it0 = it) as -> by congruence.
      rewrite (bool_decide_eq_false_2 _ NB). eexists _, _. split_and!; reflexivity.
    + exfalso. apply (U it); [apply list_elem_of_lookup; eauto | exact Id].
Qed.

(** *** The persistence facts on concrete queues *)

Lemma save_restart_round_trip_witness :
  let mq' := restart (_save_queue (one_command None)) in
  queue mq' = reset <$> queue (one_command None) /\
  processing_set mq' = ∅ /\
  (wf (one_command None) -> wf mq').
Proof. exact (save_restart_round_trip (one_command None) eq_refl). Defined.

(** A lambda: it can be called, and [pickle] refuses it. *)
Definition lambda_callback : Callback :=
  {| picklable := false; call := fun _ => None |}.

Lemma unpicklable_callback_witness :
  file (_save_queue (one_command (Some lambda_callback))) = Corrupt /\
  queue (restart (_save_queue (one_command (Some lambda_callback)))) = [].
Proof.
  apply (unpicklable_callback_loses_queue (one_command (Some lambda_callback))
           (new_item (command "cmd_0_100" (Some lambda_callback)) 100 (init Missing))).
  - simpl. apply list_elem_of_here.
  - reflexivity.
Defined.

Lemma crash_after_dequeue_witness :
  exists it' mq2,
    dequeue 102 (restart (snd (dequeue 101 (one_command None)))) = (Some it', mq2) /\
    item_id it' = "cmd_0_100" /\ sequence it' = 0%nat /\
    proxy_command it' = "python -c ..." /\ status it' = processing.
Proof.
  apply (crash_after_dequeue_redelivers 101 102 (one_command None)
           (snd (dequeue 101 (one_command None)))
           (mark_processing 101 (new_item (command "cmd_0_100" None) 100 (init Missing)))).
  - apply one_command_wf.
  - reflexivity.
  - simpl. intros x H. apply list_elem_of_singleton in H as ->. discriminate.
  - reflexivity.
Defined.

Definition two_commands : MessageQueue :=
  snd (enqueue (command "cmd_1_100" None) 101 (one_command None)).

Lemma two_commands_wf : wf two_commands.
Proof.
  apply wf_enqueue; [apply one_command_wf|]. simpl. intros H.
  apply list_elem_of_singleton in H. discriminate H.
Qed.

Lemma dequeue_twice_distinct_witness :
  "cmd_0_100" <> "cmd_1_100" /\ (0 < 1)%nat.
Proof.
  apply (dequeue_twice_distinct 102 103 two_commands
           (snd (dequeue 102 two_commands))
           (snd (dequeue 103 (snd (dequeue 102 two_commands))))
           (mark_processing 102 (new_item (command "cmd_0_100" None) 100 (init Missing)))
           (mark_processing 103 (new_item (command "cmd_1_100" None) 101 (one_command None)))).
  - apply two_commands_wf.
  - reflexivity.
  - reflexivity.
Defined.

(** *** AsyncProxyManager: submitting commands *)

(** [get_queue_status]: the length of the queue and, for each status, the
    number of items that have it. *)
Record QueueStatus : Type := {
  total : nat;
  pending_count : nat;
  processing_count : nat;
  completed_count : nat;
  failed_count : nat
}.

Definition count (s : Status) (q : list Item) : nat :=
  length (filter (fun it => status it = s) q).

Definition get_queue_status (mq : MessageQueue) : QueueStatus :=
  {| total := length (queue mq);
     pending_count := count pending (queue mq);
     processing_count := count processing (queue mq);
     completed_count := count completed (queue mq);
     failed_count := count failed (queue mq) |}.

(** The manager: its queue and its command counter. *)
Record Manager : Type := {
  message_queue : MessageQueue;
  command_counter : nat
}.

(** [AsyncProxyManager.__init__] in a directory that holds the given
    queue file: the queue is loaded, the counter starts at zero. *)
Definition manager_init (f : File) : Manager :=
  {| message_queue := init f; command_counter := 0 |}.

(** The readings of [time.time()] in one [send_command], in the order in
    which they are taken: for the id, for the script, inside [enqueue]
    (which overwrites the time stamp put into the dict before), and for the
    receipt. *)
Record Readings : Type := {
  at_id : Q;
  at_script : Q;
  at_enqueue : Q;
  at_return : Q
}.

(** [f"cmd_{self.command_counter}_{int(time.time())}"] *)
Definition command_id (counter : nat) (now : Q) : string :=
  "cmd_" +:+ str_int (Z.of_nat counter) +:+ "_" +:+ str_int (Qfloor now).

Definition dquote : string := String (ascii_of_nat 34) EmptyString.
Definition newline : string := String (ascii_of_nat 10) EmptyString.

Section Manager.

Context {RT : Runtime}.

(** The script [send_command] builds for the relay, line by line. *)
Definition proxy_script (id command target_server : string) (now : Q) : string :=
  "python -c " +:+ dquote +:+
  "import json" +:+ newline +:+
  "import subprocess" +:+ newline +:+
  "import time" +:+ newline +:+
  newline +:+
  "# 命令信息" +:+ newline +:+
  "command_id = '" +:+ id +:+ "'" +:+ newline +:+
  "command = '" +:+ command +:+ "'" +:+ newline +:+
  "target_server = '" +:+ target_server +:+ "'" +:+ newline +:+
  "timestamp = " +:+ py_str (JNum now) +:+ newline +:+
  newline +:+
  "# 无状态邮局模式处理" +:+ newline +:+
  "print('🔄 中转服务器接收命令:', command_id)" +:+ newline +:+
  "print('🚀 向目标服务器推送指令...')" +:+ newline +:+
  newline +:+
  "# 执行命令（模拟目标服务器执行）" +:+ newline +:+
  "try:" +:+ newline +:+
  "    result = subprocess.check_output(command, shell=True, stderr=subprocess.STDOUT, text=True)" +:+ newline +:+
  "    status = 'success'" +:+ newline +:+
  "    print('✅ 目标服务器执行成功')" +:+ newline +:+
  "except Exception as e:" +:+ newline +:+
  "    result = str(e)" +:+ newline +:+
  "    status = 'error'" +:+ newline +:+
  "    print('❌ 目标服务器执行失败:', result)" +:+ newline +:+
  newline +:+
  "# 构建反馈信息" +:+ newline +:+
  "feedback = json.dumps({" +:+ newline +:+
  "    'id': command_id," +:+ newline +:+
  "    'status': status," +:+ newline +:+
  "    'result': result," +:+ newline +:+
  "    'timestamp': time.time()" +:+ newline +:+
  "})" +:+ newline +:+
  "print('📨 反馈信息:', feedback)" +:+ newline +:+
  dquote.

(** What [send_command] returns at once. *)
Record Receipt : Type := {
  receipt_id : string;
  receipt_status : string;
  receipt_message : string;
  receipt_sequence : nat;
  receipt_queue_status : QueueStatus;
  receipt_timestamp : Q
}.

(** [send_command(command, target_server, callback)] *)
Definition send_command (command target_server : string) (cb : option Callback)
    (t : Readings) (m : Manager) : Receipt * Manager :=
  let id := command_id (command_counter m) (at_id t) in
  let counter := S (command_counter m) in
  let proxy_command := proxy_script id command target_server (at_script t) in
  let queue_item :=
    {| cmd_id := Some id; cmd_proxy_command := proxy_command; cmd_callback := cb |} in
  let '(_, mq) := enqueue queue_item (at_enqueue t) (message_queue m) in
  let queue_status := get_queue_status mq in
  ({| receipt_id := id; receipt_status := "queued"; receipt_message := "命令已加入队列";
      receipt_sequence := sequence (new_item queue_item (at_enqueue t) (message_queue m));
      receipt_queue_status := queue_status; receipt_timestamp := at_return t |},
   {| message_queue := mq; command_counter := counter |}).

(** [send_batch_commands(commands, target_server)]: one [send_command]
    per command, in order, without a callback; [clock k] holds the readings
    of the [k]-th of them. *)
Fixpoint send_batch_commands (commands : list string) (target_server : string)
    (clock : nat -> Readings) (m : Manager) : list Receipt * Manager :=
  match commands with
  | [] => ([], m)
  | cmd :: rest =>
      let '(r, m) := send_command cmd target_server None (clock 0%nat) m in
      let '(results, m) :=
        send_batch_commands rest target_server (fun k => clock (S k)) m in
      (r :: results, m)
  end.

(** What happens to a manager: a command is sent, a batch is sent, or the
    queue processor goes round once. *)
Inductive Request : Type :=
| Send (command target_server : string) (cb : option Callback) (t : Readings)
| SendBatch (commands : list string) (target_server : string) (clock : nat -> Readings)
| Round (now : Q) (run : Res Json).

(** The ids handed out, in order, and the sequence numbers of the items
    completed, in the order in which they were completed. *)
Fixpoint serve (reqs : list Request) (m : Manager) : list string * list nat * Manager :=
  match reqs with
  | [] => ([], [], m)
  | Send command target_server cb t :: rest =>
      let '(r, m) := send_command command target_server cb t m in
      let '(ids, log, m) := serve rest m in
      (receipt_id r :: ids, log, m)
  | SendBatch commands target_server clock :: rest =>
      let '(rs, m) := send_batch_commands commands target_server clock m in
      let '(ids, log, m) := serve rest m in
      ((receipt_id <$> rs) ++ ids, log, m)
  | Round now run :: rest =>
      let '(ev, mq) := process_step now run (message_queue m) in
      let '(ids, log, m) :=
        serve rest {| message_queue := mq; command_counter := command_counter m |} in
      (ids, match ev with Completed it => sequence it :: log | _ => log end, m)
  end.

End Manager.

(** *** ProxyServerManager: the table of target servers *)

Record Target : Type := {
  target_host : string;
  target_port : Z;
  target_password : string
}.

Definition add_target_server (server_id server_host : string) (server_port : Z)
    (server_password : string) (target_servers : gmap string Target) : gmap string Target :=
  <[server_id := {| target_host := server_host; target_port := server_port;
                    target_password := server_password |}]> target_servers.

Definition get_target_server (server_id : string) (target_servers : gmap string Target)
  : option Target :=
  target_servers !! server_id.

Definition remove_target_server (server_id : string) (target_servers : gmap string Target)
  : gmap string Target :=
  if decide (is_Some (target_servers !! server_id)) then delete server_id target_servers
  else target_servers.

(** *** Ids of [send_command] are never shared *)









Lemma counts_add_up (q : list Item) :
  (count pending q + count processing q + count completed q + count failed q)%nat = length q.
Proof.
  unfold count. induction q as [|x q IH]; [reflexivity|].
  rewrite !filter_cons. destruct (status x); simpl; lia.
Qed.

Lemma count_app s q q' : count s (q ++ q') = (count s q + count s q')%nat.
Proof. unfold count. rewrite filter_app, length_app. reflexivity. Qed.

Section ManagerFacts.

Context {RT : Runtime}.

Lemma send_command_spec command target_server cb t m :
  let id := command_id (command_counter m) (at_id t) in
  let cmd := {| cmd_id := Some id;
                cmd_proxy_command := proxy_script id command target_server (at_script t);
                cmd_callback := cb |} in
  send_command command target_server cb t m
  = ({| receipt_id := id; receipt_status := "queued"; receipt_message := "命令已加入队列";
        receipt_sequence := length (queue (message_queue m));
        receipt_queue_status :=
          get_queue_status (snd (enqueue cmd (at_enqueue t) (message_queue m)));
        receipt_timestamp := at_return t |},
     {| message_queue := snd (enqueue cmd (at_enqueue t) (message_queue m));
        command_counter := S (command_counter m) |}).
Proof. reflexivity. Qed.

#[local] Arguments send_command : simpl never.

(** The receipt of [send_command] carries the id made from the
    counter, the position of the new item, and counts taken after the item
    was appended: the total is the sequence number plus one, the new item
    is among the pending, and the four counts add up to the total. *)
Lemma send_command_receipt (command target_server : string) (cb : option Callback)
    (t : Readings) (m : Manager) :
  let r := fst (send_command command target_server cb t m) in
  let m' := snd (send_command command target_server cb t m) in
  let qs := receipt_queue_status r in
  receipt_id r = command_id (command_counter m) (at_id t) /\
  queue (message_queue m') !! receipt_sequence r
    = Some {| item_id := receipt_id r; status := pending; timestamp := at_enqueue t;
              sequence := receipt_sequence r;
              proxy_command :=
                proxy_script (receipt_id r) command target_server (at_script t);
              callback := cb; processing_time := None; result := None; error := None;
              completion_time := None |} /\
  total qs = S (receipt_sequence r) /\
  pending_count qs = S (count pending (queue (message_queue m))) /\
  (pending_count qs + processing_count qs + completed_count qs + failed_count qs)%nat
    = total qs /\
  command_counter m' = S (command_counter m).
Proof.
  rewrite send_command_spec. simpl. split_and!.
  - reflexivity.
  - rewrite lookup_app_r by lia. rewrite Nat.sub_diag. reflexivity.
  - rewrite length_app. simpl. lia.
  - rewrite count_app. unfold count at 2. simpl. lia.
  - apply counts_add_up.
  - reflexivity.
Qed.






(** X22. When the command ran and its feedback decoded, but the callback
    raises on the feedback, the raise is taken for a parse failure: the
    callback is called again with an error dict, and if it returns this
    time, the worker completes the item with that error dict (status
    [error], text [解析反馈失败: ...]) in place of the feedback of the command
    that succeeded. *)
Theorem callback_raise_recorded_as_parse_failure
    (now : Q) (s : string) (feedback st : Json) (c : Callback) (e : Exn)
    (mq mq1 : MessageQueue) (it : Item) :
  wf mq ->
  dequeue now mq = (Some it, mq1) ->
  callback it = Some c ->
  json_loads_str (strip s) = Ok feedback ->
  dict_get feedback "status" JNull = Ok st ->
  call c feedback = Some e ->
  call c (error_feedback (item_id it) ("解析反馈失败: " +:+ exn_str e) now) = None ->
  exists mq',
    process_step now (Ok (JStr s)) mq = (Completed it, mq') /\
    queue mq' !! sequence it
      = Some (mark_completed
                (error_feedback (item_id it) ("解析反馈失败: " +:+ exn_str e) now) now it) /\
    dict_get (error_feedback (item_id it) ("解析反馈失败: " +:+ exn_str e) now) "status" JNull
      = Ok (JStr "error").
Proof.
  intros W D Cb J St C1 C2.
  destruct (dequeue_some now mq it mq1 W D) as (i & it0 & L & P & E & Q1 & B1 & First & W1).
  pose proof (lookup_lt_Some _ _ _ L) as Li.
  assert (L1 : queue mq1 !! i = Some it).
  { rewrite Q1. apply list_lookup_insert_eq. exact Li. }
  assert (Bu : item_id it ∈ processing_set mq1).
  { rewrite B1, E. apply elem_of_union_l, elem_of_singleton. reflexivity. }
  set (err := error_feedback (item_id it) ("解析反馈失败: " +:+ exn_str e) now) in *.
  assert (X : _execute_proxy_command (Ok (JStr s)) (item_id it) (callback it) now = Ok err).
  { unfold _execute_proxy_command, read_feedback, report, notify. simpl.
    rewrite J. simpl. rewrite St. simpl. rewrite Cb, C1. simpl. fold err. rewrite C2.
    reflexivity. }
  destruct (finish_busy (mark_completed err now) (item_id it) it mq1 i W1 L1 eq_refl Bu)
    as (mq2 & F & Q2 & _ & W2);
    [reflexivity | reflexivity | intros x; discriminate |].
  exists mq2. unfold process_step. rewrite D, X. unfold complete. rewrite F.
  split_and!; [reflexivity | | reflexivity].
  assert (Sq : sequence it = i).
  { rewrite E. simpl. exact (wf_sequence mq W i it0 L). }
  rewrite Sq, Q2. apply list_lookup_insert_eq. rewrite Q1, length_insert. exact Li.
Qed.

End ManagerFacts.

(** The table of target servers: a server that was added is found
    with the settings given, also when the id was in use before; a server
    that was removed is not found; neither operation touches another id;
    and removing an id that is not in the table changes nothing. *)
Lemma target_servers_add_get_remove
    (server_id other host password : string) (port : Z) (t : gmap string Target) :
  get_target_server server_id (add_target_server server_id host port password t)
    = Some {| target_host := host; target_port := port; target_password := password |} /\
  get_target_server server_id (remove_target_server server_id t) = None /\
  (get_target_server server_id t = None -> remove_target_server server_id t = t) /\
  (other <> server_id ->
     get_target_server other (add_target_server server_id host port password t)
       = get_target_server other t /\
     get_target_server other (remove_target_server server_id t)
       = get_target_server other t).
Proof.
  unfold get_target_server, add_target_server, remove_target_server. split_and!.
  - apply lookup_insert_eq.
  - destruct (decide _) as [_|N]; [apply lookup_delete_eq|].
    apply eq_None_not_Some. exact N.
  - intros N. destruct (decide _) as [[x S]|_]; [congruence | reflexivity].
  - intros Ne. split.
    + apply lookup_insert_ne. congruence.
    + destruct (decide _); [|reflexivity]. apply lookup_delete_ne. congruence.
Qed.

(** *** The manager on concrete requests *)

Definition at_second (n : Z) : Readings :=
  {| at_id := inject_Z n; at_script := inject_Z n; at_enqueue := inject_Z n;
     at_return := inject_Z n |}.

(** Two commands in the same second, a batch of two in that second too,
    and four rounds of the worker in between and after. *)
Definition busy_second : list Request :=
  [Send "uptime" "web1" None (at_second 100);
   Send "uptime" "web1" None (at_second 100);
   Round 100 (Ok (JStr Core.uptime_text));
   SendBatch ["df -h"; "free -m"] "web1" (fun _ => at_second 100);
   Round 101 (Raise (SocketError "timed out"));
   Round 102 (Ok (JStr "not json"));
   Round 103 (Ok (JStr Core.uptime_text))].


Example busy_second_served :
  let '(ids, log, m) := @serve Core.demo_runtime busy_second (manager_init Missing) in
  ids = ["cmd_0_100"; "cmd_1_100"; "cmd_2_100"; "cmd_3_100"] /\
  log = [0; 1; 2; 3]%nat.
Proof. vm_compute. split; reflexivity. Qed.

(** A manager that starts on a queue left by an earlier process counts
    from zero again: within the second of the earlier submission it hands
    out the id the stored item has. *)
Example restart_in_same_second_shares_id :
  let m := manager_init (Pickled [stored "cmd_0_100" pending 0]) in
  item_id <$> queue (message_queue
                       (snd (@send_command Core.demo_runtime "uptime" "web1" None
                               (at_second 100) m)))
  = ["cmd_0_100"; "cmd_0_100"].
Proof. vm_compute. reflexivity. Qed.

(** A callback that raises on a feedback that reports success, and
    returns on any other. *)
Definition strict_callback : Callback :=
  {| picklable := true;
     call := fun v =>
       match dict_get v "status" JNull with
       | Ok (JStr "error") => None
       | _ => Some (PyException "unexpected")
       end |}.

Lemma callback_raise_witness :
  let it := mark_processing 101
              (new_item (command "cmd_0_100" (Some strict_callback)) 100 (init Missing)) in
  let err := error_feedback "cmd_0_100" "解析反馈失败: unexpected" 101 in
  exists mq',
    @process_step Core.demo_runtime 101 (Ok (JStr Core.uptime_text))
      (one_command (Some strict_callback)) = (Completed it, mq') /\
    queue mq' !! 0%nat = Some (mark_completed err 101 it) /\
    dict_get err "status" JNull = Ok (JStr "error").
Proof.
  apply (@callback_raise_recorded_as_parse_failure Core.demo_runtime 101 Core.uptime_text
           (JObj [("stdout", JStr "up 3 days")]) JNull strict_callback
           (PyException "unexpected") (one_command (Some strict_callback))
           (snd (dequeue 101 (one_command (Some strict_callback))))
           (mark_processing 101
              (new_item (command "cmd_0_100" (Some strict_callback)) 100 (init Missing)))).
  - apply one_command_wf.
  - reflexivity.
  - reflexivity.
  - reflexivity.
  - reflexivity.
  - reflexivity.
  - reflexivity.
Defined.

End Queue.

(* ===================================================================== *)
(** ** async_feedback.py: class AsyncFeedback *)
(* ===================================================================== *)

Module Feedback.
Import Py.

Inductive Stability : Type := stable | unstable.

Definition stability_text (s : Stability) : string :=
  match s with
  | stable => "stable"
  | unstable => "unstable"
  end.

(** An entry of [_bandwidth_history]. *)
Record Sample : Type := {
  timestamp : Q;
  latency : Q;
  bandwidth : Q;
  status : Stability
}.

(** [l.append(x)] followed by [if len(l) > n: l.pop(0)]. *)
Definition append_capped {A} (n : nat) (x : A) (l : list A) : list A :=
  let l := l ++ [x] in
  if (n <? length l)%nat then tail l else l.

(** [f"{x:.2f}"], the number read as an exact rational: rounded to
    hundredths, ties to the even digit, then sign, integer part, point and
    two digits. *)
Definition round_half_even (q : Q) : Z :=
  let f := Qfloor q in
  let r := (q - inject_Z f)%Q in
  if Qltb r (1 # 2) then f
  else if Qltb (1 # 2) r then (f + 1)%Z
  else if Z.even f then f else (f + 1)%Z.

Definition two_digits (n : Z) : string := str_int (n / 10) +:+ str_int (n mod 10).

Definition fmt_2f (x : Q) : string :=
  let n := round_half_even (Qabs x * 100) in
  (if Qltb x 0 then "-" else EmptyString) +:+
  str_int (n / 100) +:+ "." +:+ two_digits (n mod 100).

Section Monitor.

(** [float(s)], [None] when it raises [ValueError]; and
    [time.strftime('%Y-%m-%d %H:%M:%S', time.localtime(t))]. *)
Variable float_of : string -> option Q.
Variable strftime : Q -> string.




(** [get_network_status]: the dict of texts made from the latest sample. *)
Definition get_network_status (history : list Sample) : list (string * string) :=
  match last history with
  | None => [("status", "unknown"); ("message", "网络状态尚未检测")]
  | Some latest =>
      [("status", stability_text (status latest));
       ("latency", fmt_2f (latency latest) +:+ "ms");
       ("bandwidth", fmt_2f (bandwidth latest) +:+ " MB/s");
       ("timestamp", strftime (timestamp latest))]
  end.

Definition get_bandwidth_trend (history : list Sample) : list Sample := history.

End Monitor.

(** *** _execute_with_retry *)

Section Retry.

(** What the [k]-th call of [remote_host.run_async] comes to. *)
Variable run : nat -> Res string.

(** What the loop does that can be seen from outside: messages on the
    status and progress queues, calls of [run_async], sleeps. *)
Inductive Event : Type :=
| StatusRetry (retry_count max_retries : Z)
| Call
| Progress (percent : Z)
| StatusRetryWait (retry_count delay : Z) (err : string)
| Sleep (delay : Z).

Inductive Result : Type :=
| Returned (r : string)
| ReturnedNone
| Raised (e : Exn)
| OutOfFuel.

Definition is_call (e : Event) : bool :=
  match e with Call => true | _ => false end.

Definition calls (trace : list Event) : nat := length (List.filter is_call trace).

Definition sleeps (trace : list Event) : list Z :=
  omap (fun e => match e with Sleep d => Some d | _ => None end) trace.

(** The [while retry_count <= max_retries] loop; [k] counts the calls of
    [run_async] made so far. *)
Fixpoint retry_loop (fuel : nat) (max_retries retry_count : Z) (k : nat)
    (trace : list Event) : Result * list Event :=
  match fuel with
  | O => (OutOfFuel, trace)
  | S fuel =>
      if (retry_count <=? max_retries)%Z then
        let trace :=
          if (0 <? retry_count)%Z then trace ++ [StatusRetry retry_count max_retries]
          else trace in
        let trace := trace ++ [Call] in
        match run k with
        | Ok result => (Returned result, trace ++ [Progress 75])
        | Raise e =>
            let retry_count := (retry_count + 1)%Z in
            if (max_retries <? retry_count)%Z then (Raised e, trace)
            else
              let delay := (1 * 2 ^ (retry_count - 1))%Z in
              let trace := trace ++ [StatusRetryWait retry_count delay (exn_str e)] in
              let trace := trace ++ [Sleep delay] in
              retry_loop fuel max_retries retry_count (S k) trace
        end
      else (ReturnedNone, trace)
  end.

(** [_execute_with_retry(command, task_id, use_cache, max_retries)] *)
Definition _execute_with_retry (fuel : nat) (max_retries : Z) : Result * list Event :=
  retry_loop fuel max_retries 0 0 [].

Lemma calls_app a b : calls (a ++ b) = (calls a + calls b)%nat.
Proof. unfold calls. rewrite List.filter_app, length_app. reflexivity. Qed.

Lemma sleeps_app a b : sleeps (a ++ b) = sleeps a ++ sleeps b.
Proof. unfold sleeps. apply omap_app. Qed.

Definition powers (from : nat) (n : nat) : list Z :=
  (fun i => 2 ^ Z.of_nat i)%Z <$> seq from n.

Lemma retry_loop_spec (max_retries : Z) : forall fuel k trace,
  (Z.of_nat k <= max_retries)%Z -> (Z.to_nat max_retries - k < fuel)%nat ->
  let r := retry_loop fuel max_retries (Z.of_nat k) k trace in
  exists n : nat,
    (k < n <= S (Z.to_nat max_retries))%nat /\
    calls (snd r) = (calls trace + (n - k))%nat /\
    sleeps (snd r) = sleeps trace ++ powers k (n - 1 - k) /\
    (forall j, (k <= j < n - 1)%nat -> exists e, run j = Raise e) /\
    match fst r with
    | Returned x => run (n - 1)%nat = Ok x
    | Raised e => run (n - 1)%nat = Raise e /\ n = S (Z.to_nat max_retries)
    | ReturnedNone | OutOfFuel => False
    end.
Proof.
  induction fuel as [|fuel IH]; intros k trace Le Fuel; [lia|].
  cbn [retry_loop]. cbv zeta.
  destruct (Z.leb_spec (Z.of_nat k) max_retries) as [_|]; [|lia].
  set (trace1 := (if (0 <? Z.of_nat k)%Z then _ else _) ++ [Call]).
  assert (C1 : calls trace1 = S (calls trace)).
  { unfold trace1. destruct (0 <? Z.of_nat k)%Z; rewrite !calls_app; cbn; lia. }
  assert (S1 : sleeps trace1 = sleeps trace).
  { unfold trace1. destruct (0 <? Z.of_nat k)%Z; rewrite !sleeps_app; cbn;
      rewrite ?app_nil_r; reflexivity. }
  assert (P0 : powers k 0 = []) by reflexivity.
  destruct (run k) as [x|e] eqn:R.
  - exists (S k). cbn [fst snd]. rewrite calls_app, sleeps_app, C1, S1.
    replace (S k - 1 - k)%nat with 0%nat by lia. replace (S k - 1)%nat with k by lia.
    rewrite P0. cbn. rewrite !app_nil_r. split_and!; try lia; auto.
  - destruct (Z.ltb_spec max_retries (Z.of_nat k + 1)) as [Last|More].
    + exists (S k). cbn [fst snd]. rewrite C1, S1.
      replace (S k - 1 - k)%nat with 0%nat by lia. replace (S k - 1)%nat with k by lia.
      rewrite P0, app_nil_r. split_and!; try lia; auto.
    + replace (Z.of_nat k + 1)%Z with (Z.of_nat (S k)) by lia.
      specialize (IH (S k)
        ((trace1 ++ [StatusRetryWait (Z.of_nat (S k)) (1 * 2 ^ (Z.of_nat (S k) - 1))
                       (exn_str e)])
         ++ [Sleep (1 * 2 ^ (Z.of_nat (S k) - 1))])).
      destruct IH as (n & Hn & Cn & Sn & Fn & On); [lia | lia |].
      exists n. split_and!.
      * lia.
      * lia.
      * rewrite Cn, !calls_app, C1. cbn. lia.
      * rewrite Sn, !sleeps_app, S1. cbn [sleeps omap list_omap].
        rewrite !app_nil_r, <- app_assoc. f_equal.
        replace (n - 1 - k)%nat with (S (n - 1 - S k)) by lia.
        unfold powers. cbn [seq fmap list_fmap app]. f_equal.
        replace (Z.of_nat (S k) - 1)%Z with (Z.of_nat k) by lia.
        apply Z.mul_1_l.
      * intros j Hj. destruct (decide (j = k)) as [->|Ne]; [eauto|]. apply Fn. lia.
      * exact On.
Qed.

(** X23. [_execute_with_retry] runs the command at least once and at most
    [max_retries + 1] times, stops at the first run that returns, sleeps
    1, 2, 4, ... seconds between consecutive runs (doubling, with no cap)
    and not after the last, and raises the exception of the last run only
    when all [max_retries + 1] runs have failed. *)
Theorem execute_with_retry_backs_off (fuel : nat) (max_retries : Z) :
  (0 <= max_retries)%Z -> (Z.to_nat max_retries < fuel)%nat ->
  let r := _execute_with_retry fuel max_retries in
  exists n : nat,
    (1 <= n <= S (Z.to_nat max_retries))%nat /\
    calls (snd r) = n /\
    sleeps (snd r) = powers 0 (n - 1) /\
    (forall j, (j < n - 1)%nat -> exists e, run j = Raise e) /\
    match fst r with
    | Returned x => run (n - 1)%nat = Ok x
    | Raised e => run (n - 1)%nat = Raise e /\ n = S (Z.to_nat max_retries)
    | ReturnedNone | OutOfFuel => False
    end.
Proof.
  intros Le Fuel.
  destruct (retry_loop_spec max_retries fuel 0%nat [] Le ltac:(lia))
    as (n & Hn & Cn & Sn & Fn & On).
  exists n. unfold _execute_with_retry. cbn in *.
  rewrite Nat.sub_0_r in Cn, Sn. split_and!; auto; try lia.
  intros j Hj. apply Fn. lia.
Qed.

End Retry.

(** Two failures, then an answer. *)
Definition third_time_lucky (k : nat) : Res string :=
  match k with
  | 0%nat => Raise (SocketError "timed out")
  | 1%nat => Raise (SocketError "Connection reset by peer")
  | _ => Ok "up 3 days"
  end.

Lemma execute_with_retry_witness :
  let r := _execute_with_retry third_time_lucky 4 3 in
  exists n : nat,
    (1 <= n <= S (Z.to_nat 3))%nat /\
    calls (snd r) = n /\
    sleeps (snd r) = powers 0 (n - 1) /\
    (forall j, (j < n - 1)%nat -> exists e, third_time_lucky j = Raise e) /\
    match fst r with
    | Returned x => third_time_lucky (n - 1)%nat = Ok x
    | Raised e => third_time_lucky (n - 1)%nat = Raise e /\ n = S (Z.to_nat 3)
    | ReturnedNone | OutOfFuel => False
    end.
Proof.
  apply (execute_with_retry_backs_off third_time_lucky 4 3); [lia | simpl; lia].
Defined.

Example third_time_lucky_trace :
  _execute_with_retry third_time_lucky 4 3
  = (Returned "up 3 days",
     [Call; StatusRetryWait 1 1 "timed out"; Sleep 1;
      StatusRetry 1 3; Call; StatusRetryWait 2 2 "Connection reset by peer"; Sleep 2;
      StatusRetry 2 3; Call; Progress 75]).
Proof. reflexivity. Qed.

(** *** The history of the monitor *)

(** [l[-n:]] for a positive [n]. *)
Definition last_n {A} (n : nat) (l : list A) : list A := drop (length l - n) l.

Lemma append_capped_last_n {A} (n : nat) (x : A) (l : list A) :
  (1 <= n)%nat -> append_capped n x (last_n n l) = last_n n (l ++ [x]).
Proof.
  intros Hn. unfold append_capped, last_n.
  rewrite !length_app, length_drop. simpl.
  destruct (Nat.ltb_spec n (length l - (length l - n) + 1)) as [Full|Room].
  - assert (Len : (n <= length l)%nat) by lia.
    replace (length l + 1 - n)%nat with (S (length l - n)) by lia.
    rewrite drop_app_le by lia.
    destruct (drop (length l - n) l) as [|y rest] eqn:D.
    + apply (f_equal length) in D. rewrite length_drop in D. simpl in D. lia.
    + simpl. f_equal.
      replace (S (length l - n)) with (length l - n + 1)%nat by lia.
      rewrite <- drop_drop, D. reflexivity.
  - replace (length l - n)%nat with 0%nat by lia.
    replace (length l + 1 - n)%nat with 0%nat by lia. reflexivity.
Qed.

Section MonitorFacts.

Variable float_of : string -> option Q.

(** The inputs of one round of the monitor. *)
Record Round : Type := {
  start_time : Q;
  end_time : Q;
  stamp : Q;
  echo : Res string;
  speed : Res string
}.







End MonitorFacts.

(** *** The texts of [get_network_status] *)

Fixpoint all_chars (p : ascii -> bool) (s : string) : bool :=
  match s with
  | EmptyString => true
  | String c t => p c && all_chars p t
  end.

Definition not_space (c : ascii) : bool := negb (Queue.is_space c).

Lemma all_chars_app p a b : all_chars p (a +:+ b) = all_chars p a && all_chars p b.
Proof.
  induction a as [|c a IH]; simpl; [reflexivity|]. rewrite IH. apply andb_assoc.
Qed.

Lemma str_int_not_space z : all_chars not_space (str_int z) = true.
Proof.
  assert (U : forall d, all_chars not_space (NilEmpty.string_of_uint d) = true).
  { induction d; simpl; auto. }
  assert (V : forall d, all_chars not_space (NilZero.string_of_uint d) = true).
  { intros d. destruct d; try apply U. reflexivity. }
  unfold str_int. destruct (Z.to_int z) as [d|d]; simpl; apply V.
Qed.

Lemma fmt_2f_not_space x : all_chars not_space (fmt_2f x) = true.
Proof.
  unfold fmt_2f, two_digits.
  rewrite !all_chars_app, !str_int_not_space. destruct (Qltb x 0); reflexivity.
Qed.

End Feedback.

(* ===================================================================== *)
(** ** auto_optimizer.py: _detect_network_scenario *)
(* ===================================================================== *)

Module Optimizer.
Import Py.

Inductive Scenario : Type :=
| unknown
| local_network
| low_bandwidth
| very_low_bandwidth
| high_latency
| very_high_latency
| unstable_network
| very_unstable_network
| proxy_transfer.

(** What [_detect_network_scenario] reads: whether a feedback object is
    set; the bandwidth and the latency of the current network status, each
    present only if the status has the key and [float] accepts the first
    word of its text; the [bandwidth] member of each entry of the trend,
    if the entry has one; whether the remote host goes through a proxy. *)
Record Reading : Type := {
  feedback : bool;
  status_bandwidth : option Q;
  status_latency : option Q;
  bandwidth_trend : list (option Q);
  proxy_server : bool
}.

(** [l[-5:]] *)
Definition last5 {A} (l : list A) : list A := drop (length l - 5) l.

Definition Qsum (l : list Q) : Q := fold_right Qplus 0%Q l.

(** [sum(bandwidths) / len(bandwidths)] *)
Definition mean (l : list Q) : Q := (Qsum l / inject_Z (Z.of_nat (length l)))%Q.

(** [sum((b - mean) ** 2 for b in bandwidths) / len(bandwidths)] *)
Definition variance (l : list Q) : Q :=
  let m := mean l in
  (Qsum ((fun b => (b - m) * (b - m)) <$> l) / inject_Z (Z.of_nat (length l)))%Q.

(** [variance ** 0.5 > x], read in exact arithmetic: the root of a
    non-negative number exceeds [x] when [x] is negative or its square is
    below the number. *)
Definition std_dev_gt (v x : Q) : bool := Qltb x 0 || Qltb (x * x)%Q v.

(** The three tests on the measurements, in the order of the source; each
    overrides the scenario found so far. *)
Definition by_bandwidth (r : Reading) (scenario : Scenario) : Scenario :=
  match status_bandwidth r with
  | Some bandwidth =>
      if Qltb bandwidth (1 # 2) then low_bandwidth
      else if Qltb bandwidth (1 # 5) then very_low_bandwidth
      else scenario
  | None => scenario
  end.

Definition by_latency (r : Reading) (scenario : Scenario) : Scenario :=
  match status_latency r with
  | Some latency =>
      if Qltb 500 latency then high_latency
      else if Qltb 1000 latency then very_high_latency
      else scenario
  | None => scenario
  end.

Definition by_stability (r : Reading) (scenario : Scenario) : Scenario :=
  if (5 <=? length (bandwidth_trend r))%nat then
    let bandwidths := omap id (last5 (bandwidth_trend r)) in
    if (3 <=? length bandwidths)%nat then
      let m := mean bandwidths in
      let v := variance bandwidths in
      if std_dev_gt v (m * (3 # 10)) then unstable_network
      else if std_dev_gt v (m * (1 # 2)) then very_unstable_network
      else scenario
    else scenario
  else scenario.

(** [_detect_network_scenario], as to the scenario it returns (it also
    appends the scenario to its history). *)
Definition _detect_network_scenario (r : Reading) : Scenario :=
  if negb (feedback r) then unknown
  else
    let scenario := local_network in
    let scenario := by_bandwidth r scenario in
    let scenario := by_latency r scenario in
    let scenario := by_stability r scenario in
    if proxy_server r then proxy_transfer else scenario.

(** The samples of high variation: 0.4, 0.1, 0.6, 0.05 and 0.5 MB/s. *)
Definition jumpy : Reading := {|
  feedback := true;
  status_bandwidth := None;
  status_latency := None;
  bandwidth_trend := [Some (2 # 5); Some (1 # 10); Some (3 # 5); Some (1 # 20); Some (1 # 2)];
  proxy_server := false
|}.

(** A standard deviation above half the mean is above three tenths of the
    mean as well, so the second test of [by_stability] is never reached
    with a chance to succeed. *)
Lemma std_dev_gt_half m v :
  std_dev_gt v (m * (3 # 10)) = false -> std_dev_gt v (m * (1 # 2)) = false.
Proof.
  unfold std_dev_gt. rewrite !orb_false_iff, !Qltb_ge. intros [M V]. split; nra.
Qed.

Lemma by_stability_never_very_unstable r scenario :
  scenario <> very_unstable_network -> by_stability r scenario <> very_unstable_network.
Proof.
  intros S. unfold by_stability.
  destruct (5 <=? _)%nat; [|exact S].
  destruct (3 <=? _)%nat; [|exact S].
  destruct (std_dev_gt _ (_ * (3 # 10))) eqn:E; [discriminate|].
  rewrite (std_dev_gt_half _ _ E). exact S.
Qed.

(** No reading makes [_detect_network_scenario] return the very unstable
    scenario. *)
Lemma very_unstable_unreachable r : _detect_network_scenario r <> very_unstable_network.
Proof.
  unfold _detect_network_scenario.
  destruct (feedback r); simpl; [|discriminate].
  destruct (proxy_server r); [discriminate|].
  apply by_stability_never_very_unstable.
  unfold by_latency, by_bandwidth.
  destruct (status_latency r) as [l|]; [destruct (Qltb 500 l); [discriminate|];
                                        destruct (Qltb 1000 l); [discriminate|]|];
    (destruct (status_bandwidth r) as [b|]; [destruct (Qltb b (1 # 2)); [discriminate|];
                                             destruct (Qltb b (1 # 5)); discriminate
                                            |discriminate]).
Qed.

(** C6 (refuted on the code). On the five samples 0.4, 0.1, 0.6, 0.05 and
    0.5 MB/s the standard deviation is above half the mean (a coefficient
    of variation of about 0.66), and the scenario selected is the unstable
    one, not the very unstable one: the test against 0.3 comes first and
    holds whenever the test against 0.5 would. *)
Theorem C6_high_variation_selects_unstable :
  let bandwidths := omap id (last5 (bandwidth_trend jumpy)) in
  std_dev_gt (variance bandwidths) (mean bandwidths * (1 # 2)) = true /\
  _detect_network_scenario jumpy = unstable_network.
Proof. split; reflexivity. Qed.

(** *** The scenarios that can be selected *)

#[global] Instance Scenario_eq_dec : EqDecision Scenario.
Proof. solve_decision. Defined.

(** The test on the trend of [by_stability] that selects a scenario. *)
Definition unstable (r : Reading) : bool :=
  (5 <=? length (bandwidth_trend r))%nat &&
  let bandwidths := omap id (last5 (bandwidth_trend r)) in
  (3 <=? length bandwidths)%nat &&
  std_dev_gt (variance bandwidths) (mean bandwidths * (3 # 10)).

Definition slow (r : Reading) : bool :=
  match status_latency r with
  | Some latency => Qltb 500 latency
  | None => false
  end.

Definition narrow (r : Reading) : bool :=
  match status_bandwidth r with
  | Some bandwidth => Qltb bandwidth (1 # 2)
  | None => false
  end.

Lemma detect_table r :
  _detect_network_scenario r =
    if negb (feedback r) then unknown
    else if proxy_server r then proxy_transfer
    else if unstable r then unstable_network
    else if slow r then high_latency
    else if narrow r then low_bandwidth
    else local_network.
Proof.
  unfold _detect_network_scenario.
  destruct (feedback r); cbn [negb]; [|reflexivity].
  destruct (proxy_server r); [reflexivity|].
  assert (L : by_latency r (by_bandwidth r local_network) =
              if slow r then high_latency else if narrow r then low_bandwidth
              else local_network).
  { unfold by_latency, by_bandwidth, slow, narrow.
    destruct (status_latency r) as [l|].
    - destruct (Qltb 500 l) eqn:E; [reflexivity|].
      destruct (Qltb 1000 l) eqn:E'.
      + apply Qltb_ge in E. apply Qltb_lt in E'. exfalso.
        apply (Qlt_not_le _ _ E'). eapply Qle_trans; [exact E|]. discriminate.
      + destruct (status_bandwidth r) as [b|]; [|reflexivity].
        destruct (Qltb b (1 # 2)) eqn:B; [reflexivity|].
        destruct (Qltb b (1 # 5)) eqn:B'; [|reflexivity].
        apply Qltb_ge in B. apply Qltb_lt in B'. exfalso.
        apply (Qlt_not_le _ _ B'). eapply Qle_trans; [|exact B]. discriminate.
    - destruct (status_bandwidth r) as [b|]; [|reflexivity].
      destruct (Qltb b (1 # 2)) eqn:B; [reflexivity|].
      destruct (Qltb b (1 # 5)) eqn:B'; [|reflexivity].
      apply Qltb_ge in B. apply Qltb_lt in B'. exfalso.
      apply (Qlt_not_le _ _ B'). eapply Qle_trans; [|exact B]. discriminate. }
  cbv zeta. rewrite L. unfold by_stability, unstable.
  destruct (5 <=? _)%nat; cbn [andb]; [|reflexivity].
  cbv zeta. destruct (3 <=? _)%nat; cbn [andb]; [|reflexivity].
  destruct (std_dev_gt _ (_ * (3 # 10))) eqn:E; [reflexivity|].
  rewrite (std_dev_gt_half _ _ E). reflexivity.
Qed.

Lemma detect_reachable r :
  _detect_network_scenario r
  ∈ [unknown; proxy_transfer; unstable_network; high_latency; low_bandwidth; local_network].
Proof.
  rewrite detect_table.
  destruct (negb (feedback r)); [set_solver|].
  destruct (proxy_server r); [set_solver|].
  destruct (unstable r); [set_solver|].
  destruct (slow r); [set_solver|].
  destruct (narrow r); set_solver.
Qed.

(** X25. [_detect_network_scenario] comes to a table of five tests in a
    fixed order of precedence: no feedback object gives [unknown]; else a
    proxy gives [proxy_transfer]; else a trend of five entries, three of
    them with a bandwidth, whose standard deviation is above 0.3 of the
    mean gives [unstable_network]; else a latency above 500 gives
    [high_latency]; else a bandwidth below 0.5 gives [low_bandwidth]; else
    [local_network]. The thresholds 0.2, 1000 and 0.5 of the [elif]
    branches play no part, and the three scenarios they name are never
    selected. *)
Theorem detect_decision_table (r : Reading) :
  _detect_network_scenario r =
    (if negb (feedback r) then unknown
     else if proxy_server r then proxy_transfer
     else if unstable r then unstable_network
     else if slow r then high_latency
     else if narrow r then low_bandwidth
     else local_network) /\
  _detect_network_scenario r
  ∈ [unknown; proxy_transfer; unstable_network; high_latency; low_bandwidth; local_network].
Proof. split; [apply detect_table | apply detect_reachable]. Qed.

(** *** The strategies and the client they are applied to *)

Module Strategy.

(** A strategy dict: each key is present or not. *)
Record t : Type := {
  enable_compression : option bool;
  enable_connection_pool : option bool;
  connection_pool_size : option Z;
  timeout : option Q;
  retry_count : option Z;
  retry_delay : option Q;
  batch_size : option Z;
  use_cache : option bool;
  cache_expiry : option Q;
  lightweight_monitoring : option bool;
  enable_minimal_payload : option bool;
  enable_breakpoint_resume : option bool;
  enable_exponential_backoff : option bool;
  max_output_lines : option Z
}.

Definition present {A} (o : option A) : bool :=
  match o with
  | Some _ => true
  | None => false
  end.

(** The truth value of the dict: false when it has no key. *)
Definition truthy (s : t) : bool :=
  present (enable_compression s) || present (enable_connection_pool s) ||
  present (connection_pool_size s) || present (timeout s) ||
  present (retry_count s) || present (retry_delay s) ||
  present (batch_size s) || present (use_cache s) ||
  present (cache_expiry s) || present (lightweight_monitoring s) ||
  present (enable_minimal_payload s) || present (enable_breakpoint_resume s) ||
  present (enable_exponential_backoff s) || present (max_output_lines s).

(** The ten keys every strategy of [default_config] has. *)
Definition basic (compression : bool) (pool_size : Z) (timeout_ : Q) (retries : Z)
    (delay : Q) (batch : Z) (expiry : Q) (lightweight : bool) : t := {|
  enable_compression := Some compression;
  enable_connection_pool := Some true;
  connection_pool_size := Some pool_size;
  timeout := Some timeout_;
  retry_count := Some retries;
  retry_delay := Some delay;
  batch_size := Some batch;
  use_cache := Some true;
  cache_expiry := Some expiry;
  lightweight_monitoring := Some lightweight;
  enable_minimal_payload := None;
  enable_breakpoint_resume := None;
  enable_exponential_backoff := None;
  max_output_lines := None
|}.

Definition with_minimal_payload (s : t) : t := {|
  enable_compression := enable_compression s;
  enable_connection_pool := enable_connection_pool s;
  connection_pool_size := connection_pool_size s;
  timeout := timeout s; retry_count := retry_count s; retry_delay := retry_delay s;
  batch_size := batch_size s; use_cache := use_cache s; cache_expiry := cache_expiry s;
  lightweight_monitoring := lightweight_monitoring s;
  enable_minimal_payload := Some true;
  enable_breakpoint_resume := enable_breakpoint_resume s;
  enable_exponential_backoff := enable_exponential_backoff s;
  max_output_lines := max_output_lines s
|}.

Definition with_breakpoint_resume (s : t) : t := {|
  enable_compression := enable_compression s;
  enable_connection_pool := enable_connection_pool s;
  connection_pool_size := connection_pool_size s;
  timeout := timeout s; retry_count := retry_count s; retry_delay := retry_delay s;
  batch_size := batch_size s; use_cache := use_cache s; cache_expiry := cache_expiry s;
  lightweight_monitoring := lightweight_monitoring s;
  enable_minimal_payload := enable_minimal_payload s;
  enable_breakpoint_resume := Some true;
  enable_exponential_backoff := enable_exponential_backoff s;
  max_output_lines := max_output_lines s
|}.

Definition with_exponential_backoff (s : t) : t := {|
  enable_compression := enable_compression s;
  enable_connection_pool := enable_connection_pool s;
  connection_pool_size := connection_pool_size s;
  timeout := timeout s; retry_count := retry_count s; retry_delay := retry_delay s;
  batch_size := batch_size s; use_cache := use_cache s; cache_expiry := cache_expiry s;
  lightweight_monitoring := lightweight_monitoring s;
  enable_minimal_payload := enable_minimal_payload s;
  enable_breakpoint_resume := enable_breakpoint_resume s;
  enable_exponential_backoff := Some true;
  max_output_lines := max_output_lines s
|}.

End Strategy.

(** The configuration, as far as the optimizer reads it: the strategies
    by scenario name, and the default strategy. *)
Record Config : Type := {
  scenarios : list (string * Strategy.t);
  default_strategy : Strategy.t
}.

(** [default_config] of [_load_config]. *)
Definition default_config : Config := {|
  scenarios := [
    ("low_bandwidth", Strategy.basic true 10 120 5 2 3 120 true);
    ("very_low_bandwidth",
       Strategy.with_minimal_payload (Strategy.basic true 12 180 8 3 1 180 true));
    ("high_latency", Strategy.basic true 8 180 3 3 2 180 true);
    ("very_high_latency", Strategy.basic true 6 240 5 5 1 240 true);
    ("unstable_network",
       Strategy.with_breakpoint_resume (Strategy.basic true 5 240 8 1 1 60 true));
    ("very_unstable_network",
       Strategy.with_exponential_backoff
         (Strategy.with_breakpoint_resume (Strategy.basic true 3 300 10 2 1 30 true)));
    ("proxy_transfer", Strategy.basic true 10 150 5 2 4 90 false);
    ("local_network", Strategy.basic false 5 60 2 1 10 30 false)];
  default_strategy := Strategy.basic true 5 60 3 1 5 60 false
|}.

Definition name (scenario : Scenario) : string :=
  match scenario with
  | unknown => "unknown"
  | local_network => "local_network"
  | low_bandwidth => "low_bandwidth"
  | very_low_bandwidth => "very_low_bandwidth"
  | high_latency => "high_latency"
  | very_high_latency => "very_high_latency"
  | unstable_network => "unstable_network"
  | very_unstable_network => "very_unstable_network"
  | proxy_transfer => "proxy_transfer"
  end.

Fixpoint lookup_name {A} (k : string) (kv : list (string * A)) : option A :=
  match kv with
  | [] => None
  | (k', v) :: rest => if String.eqb k k' then Some v else lookup_name k rest
  end.

(** [_get_strategy(scenario)] *)
Definition _get_strategy (config : Config) (scenario : Scenario) : Strategy.t :=
  match lookup_name (name scenario) (scenarios config) with
  | Some strategies => strategies
  | None => default_strategy config
  end.

(** The attributes of the [RcoderCore] behind the remote host that
    [_apply_strategy] and [_detect_network_scenario] touch: the settings
    the client works with, and the ones nothing reads. *)
Record Rcoder : Type := {
  core : Core.Config;
  proxy : bool;
  connection_pool_size : Z;
  _timeout : Q;
  enable_minimal_payload : bool;
  enable_breakpoint_resume : bool
}.

(** [RcoderCore(...)] as [get_remote_host] of core_optimized.py calls it. *)
Definition new_rcoder (via_proxy : bool) (enable_compression enable_connection_pool : bool)
    (password : option string) : Rcoder := {|
  core := {|
    Core.password := password;
    Core.enable_compression := enable_compression;
    Core.enable_connection_pool := enable_connection_pool;
    Core.pool_maxsize := 5;
    Core.connection_expiry := 300;
    Core.cache_expiry := 60;
    Core.retry_delay := 1 # 2;
    Core.max_retry_delay := 5;
    Core.enable_exponential_backoff := false |};
  proxy := via_proxy;
  connection_pool_size := 5;
  _timeout := 60;
  enable_minimal_payload := false;
  enable_breakpoint_resume := false
|}.

(** [_apply_strategy(strategy)]: nine attributes are set from the
    strategy, each with its default; the pool itself, built by the
    constructor, and [_max_retry_delay] are not touched. *)
Definition _apply_strategy (strategy : Strategy.t) (remote_host : option Rcoder)
  : option Rcoder :=
  match remote_host with
  | None => None
  | Some rcoder =>
      Some {|
        core := {|
          Core.password := Core.password (core rcoder);
          Core.enable_compression := default true (Strategy.enable_compression strategy);
          Core.enable_connection_pool :=
            default true (Strategy.enable_connection_pool strategy);
          Core.pool_maxsize := Core.pool_maxsize (core rcoder);
          Core.connection_expiry := Core.connection_expiry (core rcoder);
          Core.cache_expiry := default 60%Q (Strategy.cache_expiry strategy);
          Core.retry_delay := default 1%Q (Strategy.retry_delay strategy);
          Core.max_retry_delay := Core.max_retry_delay (core rcoder);
          Core.enable_exponential_backoff :=
            default false (Strategy.enable_exponential_backoff strategy) |};
        proxy := proxy rcoder;
        connection_pool_size := default 5%Z (Strategy.connection_pool_size strategy);
        _timeout := default 60%Q (Strategy.timeout strategy);
        enable_minimal_payload := default false (Strategy.enable_minimal_payload strategy);
        enable_breakpoint_resume :=
          default false (Strategy.enable_breakpoint_resume strategy)
      |}
  end.

(** *** What the optimizer reads from the feedback object *)

Fixpoint take_word (s : string) : string :=
  match s with
  | String c t => if Queue.is_space c then EmptyString else String c (take_word t)
  | EmptyString => EmptyString
  end.

(** [s.split()[0]]; [None] for the [IndexError] of a text without a
    word. *)
Definition first_word (s : string) : option string :=
  match Queue.lstrip s with
  | EmptyString => None
  | w => Some (take_word w)
  end.

(** An entry of [_scenario_history]. *)
Record Entry : Type := {
  timestamp : Q;
  scenario : Scenario;
  network_status : list (string * string)
}.

(** The optimizer; [_feedback] records whether a feedback object is set
    (the object itself has its own life, see [Feedback.monitor]). *)
Record AutoOptimizer : Type := {
  config : Config;
  _remote_host : option Rcoder;
  _feedback : bool;
  _current_scenario : option Scenario;
  _current_strategy : option Strategy.t;
  _scenario_history : list Entry
}.

(** [AutoOptimizer.__init__], given what [_load_config] returned. *)
Definition init (config : Config) : AutoOptimizer := {|
  config := config; _remote_host := None; _feedback := false;
  _current_scenario := None; _current_strategy := None; _scenario_history := []
|}.

Section Lifecycle.

(** [float(s)], [None] when it raises; and the [strftime] of
    [get_network_status]. *)
Variable float_of : string -> option Q.
Variable strftime : Q -> string.

(** [key in network_status], then [float(network_status[key].split()[0])]
    under [try] ... [except: pass]. *)
Definition measurement (status : list (string * string)) (key : string) : option Q :=
  match lookup_name key status with
  | Some text =>
      match first_word text with
      | Some w => float_of w
      | None => None
      end
  | None => None
  end.

(** The reading [_detect_network_scenario] takes when the feedback object,
    if there is one, holds the given history. *)
Definition reading_of (fb : option (list Feedback.Sample)) (via_proxy : bool) : Reading :=
  match fb with
  | None =>
      {| feedback := false; status_bandwidth := None; status_latency := None;
         bandwidth_trend := []; proxy_server := via_proxy |}
  | Some history =>
      let status := Feedback.get_network_status strftime history in
      {| feedback := true;
         status_bandwidth := measurement status "bandwidth";
         status_latency := measurement status "latency";
         bandwidth_trend :=
           (fun entry => Some (Feedback.bandwidth entry))
             <$> Feedback.get_bandwidth_trend history;
         proxy_server := via_proxy |}
  end.

Definition observe (history : list Feedback.Sample) (o : AutoOptimizer) : Reading :=
  reading_of (if _feedback o then Some history else None)
             (match _remote_host o with Some rcoder => proxy rcoder | None => false end).

(** [_detect_network_scenario] with what it records: when there is a
    feedback object, an entry is appended to the scenario history, which
    keeps fifty of them. *)
Definition detect (now : Q) (history : list Feedback.Sample) (o : AutoOptimizer)
  : Scenario * AutoOptimizer :=
  let found := _detect_network_scenario (observe history o) in
  if _feedback o then
    (found,
     {| config := config o; _remote_host := _remote_host o; _feedback := _feedback o;
        _current_scenario := _current_scenario o; _current_strategy := _current_strategy o;
        _scenario_history :=
          Feedback.append_capped 50
            {| timestamp := now; scenario := found;
               network_status := Feedback.get_network_status strftime history |}
            (_scenario_history o) |})
  else (found, o).

(** One round of [_monitor_and_adjust]. *)
Definition adjust (o : AutoOptimizer) (step : Q * list Feedback.Sample) : AutoOptimizer :=
  let '(found, o) := detect (fst step) (snd step) o in
  if decide (Some found = _current_scenario o) then o
  else
    let strategy := _get_strategy (config o) found in
    {| config := config o;
       _remote_host := _apply_strategy strategy (_remote_host o);
       _feedback := _feedback o;
       _current_scenario := Some found;
       _current_strategy := Some strategy;
       _scenario_history := _scenario_history o |}.

(** [get_remote_host(host, port, proxy_server, password)]: the scenario is
    detected with the feedback object the optimizer has at that moment (the
    temporary one is not assigned to it), the remote host is built from the
    strategy found, the feedback object is set, the strategy applied.
    [history] is what the feedback object of an earlier call, if any,
    holds. *)
Definition get_remote_host (via_proxy : bool) (password : option string) (now : Q)
    (history : list Feedback.Sample) (o : AutoOptimizer) : AutoOptimizer :=
  let '(found, o) := detect now history o in
  let strategy := _get_strategy (config o) found in
  let remote_host :=
    new_rcoder via_proxy
      (default true (Strategy.enable_compression strategy))
      (default true (Strategy.enable_connection_pool strategy))
      password in
  {| config := config o;
     _remote_host := _apply_strategy strategy (Some remote_host);
     _feedback := true;
     _current_scenario := Some found;
     _current_strategy := Some strategy;
     _scenario_history := _scenario_history o |}.

(** An optimizer's life: created, asked once for a remote host, then
    adjusted round after round by the monitor thread. *)
Definition lifetime (c : Config) (via_proxy : bool) (password : option string)
    (now : Q) (steps : list (Q * list Feedback.Sample)) : AutoOptimizer :=
  fold_left adjust steps (get_remote_host via_proxy password now [] (init c)).

End Lifecycle.

(** *** The optimizer on the texts of AsyncFeedback *)

Lemma take_word_plain s :
  Feedback.all_chars Feedback.not_space s = true -> take_word s = s.
Proof.
  induction s as [|c s IH]; simpl; [reflexivity|].
  unfold Feedback.not_space at 1. intros [C P]%andb_true_iff.
  apply negb_true_iff in C. rewrite C, (IH P). reflexivity.
Qed.

Lemma first_word_plain s :
  Feedback.all_chars Feedback.not_space s = true -> s <> EmptyString ->
  first_word s = Some s.
Proof.
  intros P N. destruct s as [|c s]; [contradiction|].
  pose proof (take_word_plain _ P) as T.
  simpl in P. apply andb_true_iff in P as [C _].
  unfold Feedback.not_space in C. apply negb_true_iff in C.
  unfold first_word. simpl Queue.lstrip. rewrite C, T. reflexivity.
Qed.

Definition reachable : list Scenario :=
  [unknown; proxy_transfer; unstable_network; high_latency; low_bandwidth; local_network].

Lemma shipped_reachable_strategy s :
  s ∈ reachable ->
  let strategy := _get_strategy default_config s in
  Strategy.enable_exponential_backoff strategy = None /\
  Strategy.enable_minimal_payload strategy = None /\
  Strategy.enable_connection_pool strategy = Some true /\
  Strategy.max_output_lines strategy = None.
Proof.
  unfold reachable. intros H.
  repeat (apply elem_of_cons in H as [->|H]; [repeat split|]).
  inversion H.
Qed.

Section LifecycleFacts.

Variable float_of : string -> option Q.
Variable strftime : Q -> string.

(** X26. The latency that [AsyncFeedback] reports is never read: its text
    is the number followed directly by [ms], so the first word of the text
    ends in [ms], [float] refuses it and the bare [except] passes. Given
    only that [float] refuses a text ending in [ms], a feedback object of
    this class never makes the optimizer select [high_latency]: whatever
    the samples, the scenario found is [proxy_transfer], [unstable_network],
    [low_bandwidth] or [local_network]. *)
Theorem latency_of_feedback_never_read
    (history : list Feedback.Sample) (via_proxy : bool) :
  (forall w, float_of (w +:+ "ms") = None) ->
  let r := reading_of float_of strftime (Some history) via_proxy in
  status_latency r = None /\
  _detect_network_scenario r
  ∈ [proxy_transfer; unstable_network; low_bandwidth; local_network].
Proof.
  intros F r.
  assert (L : status_latency r = None).
  { unfold r, reading_of, measurement, Feedback.get_network_status. simpl.
    destruct (last history) as [latest|]; simpl; [|reflexivity].
    rewrite first_word_plain.
    - apply F.
    - rewrite Feedback.all_chars_app, Feedback.fmt_2f_not_space. reflexivity.
    - destruct (Feedback.fmt_2f _); discriminate. }
  split; [exact L|].
  rewrite detect_table. unfold slow. rewrite L.
  change (feedback r) with true. cbn [negb].
  destruct (proxy_server r); [set_solver|].
  destruct (unstable r); [set_solver|].
  destruct (narrow r); set_solver.
Qed.

(** The entry a round of the monitor records. *)
Definition entry_of (via_proxy : bool) (step : Q * list Feedback.Sample) : Entry :=
  {| timestamp := fst step;
     scenario := _detect_network_scenario
                   (reading_of float_of strftime (Some (snd step)) via_proxy);
     network_status := Feedback.get_network_status strftime (snd step) |}.

(** What holds of a running optimizer: the feedback object is set, and
    the remote host is there, with the proxy setting it was built with. *)
Definition running (via_proxy : bool) (o : AutoOptimizer) : Prop :=
  _feedback o = true /\
  exists rcoder, _remote_host o = Some rcoder /\ proxy rcoder = via_proxy.

Lemma adjust_running via_proxy o step :
  running via_proxy o ->
  running via_proxy (adjust float_of strftime o step) /\
  config (adjust float_of strftime o step) = config o /\
  _scenario_history (adjust float_of strftime o step)
  = Feedback.append_capped 50 (entry_of via_proxy step) (_scenario_history o) /\
  exists found,
    found = _detect_network_scenario
              (reading_of float_of strftime (Some (snd step)) via_proxy) /\
    (_current_scenario (adjust float_of strftime o step) = Some found) /\
    (Some found = _current_scenario o -> 
       _remote_host (adjust float_of strftime o step) = _remote_host o /\
       _current_strategy (adjust float_of strftime o step) = _current_strategy o) /\
    (Some found <> _current_scenario o ->
       _remote_host (adjust float_of strftime o step)
       = _apply_strategy (_get_strategy (config o) found) (_remote_host o) /\
       _current_strategy (adjust float_of strftime o step)
       = Some (_get_strategy (config o) found)).
Proof.
  intros (Fb & rc & R & P). unfold adjust, detect, observe, entry_of.
  rewrite Fb, R, P. cbn [_current_scenario _feedback config _remote_host _scenario_history].
  set (found := _detect_network_scenario _).
  destruct (decide (Some found = _current_scenario o)) as [E|N];
    cbn [_current_scenario _feedback config _remote_host _scenario_history _current_strategy].
  - split_and!; [| reflexivity | reflexivity |].
    + split; [reflexivity|]. exists rc. split; [reflexivity | exact P].
    + exists found. split_and!; auto. intros N. contradiction.
  - split_and!; [| reflexivity | reflexivity |].
    + split; [reflexivity|]. eexists. split; [reflexivity | exact P].
    + exists found. split_and!; auto. intros E. contradiction.
Qed.

Lemma lifetime_start c via_proxy password now :
  let o := get_remote_host float_of strftime via_proxy password now [] (init c) in
  running via_proxy o /\ config o = c /\ _scenario_history o = [] /\
  _current_scenario o = Some unknown /\
  _current_strategy o = Some (_get_strategy c unknown) /\
  _remote_host o
  = _apply_strategy (_get_strategy c unknown)
      (Some (new_rcoder via_proxy
               (default true (Strategy.enable_compression (_get_strategy c unknown)))
               (default true (Strategy.enable_connection_pool (_get_strategy c unknown)))
               password)).
Proof.
  cbv zeta. unfold get_remote_host, detect, init. simpl.
  split_and!; try reflexivity. split; [reflexivity|]. eauto.
Qed.

Lemma history_fold via_proxy steps : forall o l,
  running via_proxy o -> _scenario_history o = Feedback.last_n 50 l ->
  _scenario_history (fold_left (adjust float_of strftime) steps o)
  = Feedback.last_n 50 (l ++ (entry_of via_proxy <$> steps)).
Proof.
  induction steps as [|step steps IH]; intros o l R H; simpl.
  - rewrite app_nil_r. exact H.
  - destruct (adjust_running via_proxy o step R) as (R' & _ & H' & _).
    rewrite (IH _ (l ++ [entry_of via_proxy step]) R').
    + rewrite <- app_assoc. reflexivity.
    + rewrite H', H. apply Feedback.append_capped_last_n. lia.
Qed.

(** X27. An optimizer's scenario history. The detection that
    [get_remote_host] makes comes before the feedback object is set: on a
    new optimizer it finds [unknown] whatever the network is like, takes the
    strategy for that name (the default strategy, when the configuration
    has no such scenario) and records nothing. From then on every round of
    [_monitor_and_adjust] records one entry, and the history is exactly the
    last fifty of them, oldest first. *)
Theorem scenario_history_keeps_last_fifty
    (c : Config) (via_proxy : bool) (password : option string) (now : Q)
    (steps : list (Q * list Feedback.Sample)) :
  let first := lifetime float_of strftime c via_proxy password now [] in
  let o := lifetime float_of strftime c via_proxy password now steps in
  _current_scenario first = Some unknown /\
  _current_strategy first
  = Some (default (default_strategy c) (lookup_name "unknown" (scenarios c))) /\
  _scenario_history first = [] /\
  _scenario_history o = Feedback.last_n 50 (entry_of via_proxy <$> steps) /\
  (length (_scenario_history o) <= 50)%nat.
Proof.
  cbv zeta. unfold lifetime.
  destruct (lifetime_start c via_proxy password now) as (R & _ & H & S & St & _).
  assert (E : _scenario_history
                (fold_left (adjust float_of strftime) steps
                   (get_remote_host float_of strftime via_proxy password now []
                      (init c)))
              = Feedback.last_n 50 (entry_of via_proxy <$> steps)).
  { apply (history_fold via_proxy steps _ [] R). rewrite H. reflexivity. }
  split_and!.
  - exact S.
  - simpl fold_left. rewrite St. unfold _get_strategy. simpl.
    destruct (lookup_name "unknown" (scenarios c)); reflexivity.
  - exact H.
  - exact E.
  - rewrite E. unfold Feedback.last_n. rewrite length_drop. lia.
Qed.

(** What holds of an optimizer that works with the configuration the
    code ships. *)
Definition shipped (o : AutoOptimizer) : Prop :=
  config o = default_config /\
  (exists rcoder,
     _remote_host o = Some rcoder /\
     Core.enable_exponential_backoff (core rcoder) = false /\
     enable_minimal_payload rcoder = false /\
     Core.enable_connection_pool (core rcoder) = true /\
     Core.pool_maxsize (core rcoder) = 5%nat /\
     Core.max_retry_delay (core rcoder) = 5%Q) /\
  (exists s, _current_scenario o = Some s /\ s ∈ reachable /\
             _current_strategy o = Some (_get_strategy default_config s)).

Lemma apply_reachable s rcoder :
  s ∈ reachable ->
  Core.pool_maxsize (core rcoder) = 5%nat -> Core.max_retry_delay (core rcoder) = 5%Q ->
  exists rcoder',
    _apply_strategy (_get_strategy default_config s) (Some rcoder) = Some rcoder' /\
    Core.enable_exponential_backoff (core rcoder') = false /\
    enable_minimal_payload rcoder' = false /\
    Core.enable_connection_pool (core rcoder') = true /\
    Core.pool_maxsize (core rcoder') = 5%nat /\
    Core.max_retry_delay (core rcoder') = 5%Q /\
    proxy rcoder' = proxy rcoder.
Proof.
  intros In Pm Md. destruct (shipped_reachable_strategy s In) as (B & M & P & _).
  eexists. split; [reflexivity|]. simpl. rewrite B, M, P. split_and!; auto.
Qed.

Lemma shipped_fold via_proxy steps : forall o,
  running via_proxy o -> shipped o ->
  shipped (fold_left (adjust float_of strftime) steps o).
Proof.
  induction steps as [|step steps IH]; intros o R S; simpl; [exact S|].
  destruct (adjust_running via_proxy o step R)
    as (R' & C' & _ & found & Fd & Cur & Same & Changed).
  apply IH; [exact R'|].
  destruct S as (C & (rc & Rh & B & M & P & Pm & Md) & (s & Cs & In & St)).
  assert (InF : found ∈ reachable) by (rewrite Fd; apply detect_reachable).
  destruct (decide (Some found = _current_scenario o)) as [E|N].
  - destruct (Same E) as [Rh' St']. split_and!.
    + congruence.
    + exists rc. rewrite Rh'. split_and!; auto.
    + exists found. split_and!; auto. rewrite St', St. congruence.
  - destruct (Changed N) as [Rh' St']. rewrite C in Rh', St'. split_and!.
    + congruence.
    + destruct (apply_reachable found rc InF Pm Md) as (rc' & A & B' & M' & P' & Pm' & Md' & _).
      exists rc'. rewrite Rh', Rh, A. split_and!; auto.
    + exists found. split_and!; auto.
Qed.

(** X28. With the configuration the code ships, no optimizer ever
    switches exponential backoff or the minimal payload on: the only
    strategies that set them belong to scenarios the detection never
    selects. Through the whole life of an optimizer (created,
    [get_remote_host], any number of rounds of the monitor on any samples)
    the client keeps backoff off, its retry delays capped by the
    [_max_retry_delay] of 5 seconds and its pool at the five connections
    the constructor built it for, whatever [connection_pool_size] the
    strategies name; and the current strategy is the one the configuration
    has for the current scenario. *)
Theorem shipped_strategies_never_enable_backoff
    (via_proxy : bool) (password : option string) (now : Q)
    (steps : list (Q * list Feedback.Sample)) :
  let o := lifetime float_of strftime default_config via_proxy password now steps in
  exists rcoder s,
    _remote_host o = Some rcoder /\
    Core.enable_exponential_backoff (core rcoder) = false /\
    enable_minimal_payload rcoder = false /\
    Core.delay_cap (core rcoder) = 5%Q /\
    Core.pool_maxsize (core rcoder) = 5%nat /\
    _current_scenario o = Some s /\ s ∈ reachable /\
    _current_strategy o = Some (_get_strategy default_config s).
Proof.
  cbv zeta. unfold lifetime.
  destruct (lifetime_start default_config via_proxy password now)
    as (R & C & _ & S & St & Rh).
  assert (Sh : shipped (get_remote_host float_of strftime via_proxy password now []
                          (init default_config))).
  { split_and!; [exact C | | ].
    - rewrite Rh. eexists. split; [reflexivity|]. split_and!; reflexivity.
    - exists unknown. split_and!; [exact S | set_solver | exact St]. }
  destruct (shipped_fold via_proxy steps _ R Sh)
    as (_ & (rc & Rh' & B & M & _ & Pm & Md) & (s & Cs & In & St')).
  exists rc, s. split_and!; auto.
  unfold Core.delay_cap. rewrite B. exact Md.
Qed.

End LifecycleFacts.

(** *** optimize_command *)



(** [s.replace(old, new)] for a non-empty [old]: the occurrences are
    replaced from left to right, without overlap; [skip] counts the
    characters of an occurrence still to be passed over. *)
Fixpoint replace_from (skip : nat) (old new s : string) : string :=
  match s with
  | EmptyString => EmptyString
  | String c t =>
      match skip with
      | S k => replace_from k old new t
      | O =>
          if String.prefix old s
          then new +:+ replace_from (String.length old - 1) old new t
          else String c (replace_from 0 old new t)
      end
  end.

Definition replace (old new s : string) : string := replace_from 0 old new s.









(** *** _merge_config *)

(** [d[key] = value] on a dict: a key that is there keeps its place, a new
    key goes to the end. *)
Fixpoint set_key (key : string) (value : Json) (d : list (string * Json))
  : list (string * Json) :=
  match d with
  | [] => [(key, value)]
  | (k, x) :: rest =>
      if String.eqb key k then (key, value) :: rest else (k, x) :: set_key key value rest
  end.

(** The loop of [_merge_config(default, user)] over the items of a dict
    [user], on the items of the dict [default]. *)
Fixpoint merge_items (user : Json) (default : list (string * Json)) {struct user}
  : list (string * Json) :=
  match user with
  | JObj items =>
      (fix loop (items : list (string * Json)) (default : list (string * Json))
         : list (string * Json) :=
         match items with
         | [] => default
         | (key, value) :: rest =>
             loop rest
               match assoc key default, value with
               | Some (JObj sub), JObj _ =>
                   set_key key (JObj (merge_items value sub)) default
               | _, _ => set_key key value default
               end
         end) items default
  | _ => default
  end.

(** [_merge_config(default, user)] for a dict [default]: [user.items()]
    raises unless [user] is a dict. *)
Definition _merge_config (default : list (string * Json)) (user : Json)
  : Res (list (string * Json)) :=
  match user with
  | JObj _ => Ok (merge_items user default)
  | _ => Raise (PyException "object has no attribute 'items'")
  end.

(** What one item of [user] puts under its key. *)
Definition merged_value (default : list (string * Json)) (key : string) (value : Json)
  : Json :=
  match assoc key default, value with
  | Some (JObj sub), JObj _ => JObj (merge_items value sub)
  | _, _ => value
  end.

Lemma merge_items_cons key value rest default :
  merge_items (JObj ((key, value) :: rest)) default
  = merge_items (JObj rest) (set_key key (merged_value default key value) default).
Proof.
  unfold merged_value. simpl.
  destruct (assoc key default) as [[]|]; destruct value; reflexivity.
Qed.

Lemma assoc_set_key_eq key value d : assoc key (set_key key value d) = Some value.
Proof.
  induction d as [|[k x] d IH]; simpl.
  - rewrite String.eqb_refl. reflexivity.
  - destruct (String.eqb key k) eqn:E; simpl; rewrite ?String.eqb_refl, ?E; auto.
Qed.

Lemma assoc_set_key_ne k key value d :
  k <> key -> assoc k (set_key key value d) = assoc k d.
Proof.
  intros Ne. induction d as [|[k' x] d IH]; simpl.
  - destruct (String.eqb_spec k key); [contradiction | reflexivity].
  - destruct (String.eqb_spec key k') as [<-|N]; simpl.
    + destruct (String.eqb_spec k key); [contradiction | reflexivity].
    + rewrite IH. reflexivity.
Qed.

Lemma keys_set_key key value d :
  (set_key key value d).*1
  = match assoc key d with Some _ => d.*1 | None => d.*1 ++ [key] end.
Proof.
  induction d as [|[k x] d IH]; [reflexivity|].
  cbn [set_key assoc]. destruct (String.eqb_spec key k) as [->|N]; [reflexivity|].
  rewrite !fmap_cons, IH. destruct (assoc key d); reflexivity.
Qed.

Lemma assoc_None_keys {A} k (d : list (string * A)) :
  lookup_name k d = None <-> k ∉ d.*1.
Proof.
  induction d as [|[k' x] d IH]; simpl.
  - split; [intros _ H; inversion H | reflexivity].
  - destruct (String.eqb_spec k k') as [->|N].
    + split; [discriminate|]. intros H. exfalso. apply H. left.
    + rewrite IH. rewrite not_elem_of_cons. tauto.
Qed.

Lemma assoc_lookup_name k d : assoc k d = lookup_name k d.
Proof. induction d as [|[k' x] d IH]; simpl; [reflexivity|]. rewrite IH. reflexivity. Qed.

Lemma merge_items_other items : forall default k,
  k ∉ items.*1 -> assoc k (merge_items (JObj items) default) = assoc k default.
Proof.
  induction items as [|[key value] items IH]; intros default k N; [reflexivity|].
  simpl in N. apply not_elem_of_cons in N as [Ne N].
  rewrite merge_items_cons, IH by exact N. apply assoc_set_key_ne. exact Ne.
Qed.

Lemma merge_items_mentioned items : forall default k v,
  NoDup items.*1 -> assoc k items = Some v ->
  assoc k (merge_items (JObj items) default) = Some (merged_value default k v).
Proof.
  induction items as [|[key value] items IH]; intros default k v ND A; [discriminate|].
  simpl in ND. apply NoDup_cons in ND as [Nk ND]. simpl in A.
  rewrite merge_items_cons.
  destruct (String.eqb_spec k key) as [->|Ne].
  - injection A as <-. rewrite merge_items_other by exact Nk. apply assoc_set_key_eq.
  - rewrite (IH _ k v ND A). f_equal. unfold merged_value.
    rewrite assoc_set_key_ne by exact Ne. reflexivity.
Qed.

Lemma merge_items_keys items : forall default,
  NoDup items.*1 ->
  (merge_items (JObj items) default).*1
  = default.*1 ++ List.filter (fun k => negb (bool_decide (k ∈ default.*1))) items.*1.
Proof.
  induction items as [|[key value] items IH]; intros default ND.
  - simpl. rewrite app_nil_r. reflexivity.
  - simpl in ND. apply NoDup_cons in ND as [Nk ND].
    rewrite merge_items_cons, IH by exact ND. rewrite keys_set_key.
    cbn [fmap list_fmap fst List.filter].
    destruct (assoc key default) as [x|] eqn:A.
    + assert (In : key ∈ default.*1).
      { destruct (decide (key ∈ default.*1)) as [|N]; [assumption|].
        apply assoc_None_keys in N. rewrite <- assoc_lookup_name in N. congruence. }
      rewrite (bool_decide_eq_true_2 _ In). reflexivity.
    + assert (N : key ∉ default.*1).
      { apply assoc_None_keys. rewrite <- assoc_lookup_name. exact A. }
      rewrite (bool_decide_eq_false_2 _ N). cbn [negb]. rewrite <- app_assoc.
      cbn [app]. f_equal. f_equal.
      apply List.filter_ext_in. intros k Hk. f_equal.
      apply bool_decide_ext. rewrite elem_of_app, list_elem_of_singleton.
      split; [|tauto]. intros [H| ->]; [exact H|].
      exfalso. apply Nk. apply list_elem_of_In. exact Hk.
Qed.

(** X30. [_merge_config] is a deep override. For a user dict (its keys
    distinct, as [json.load] gives them): a key the user does not mention
    keeps the default's value; a key the user mentions gets the user's
    value, except that where both sides hold a dict the two are merged in
    the same way; the keys of the default keep their order and the user's
    new keys follow in the user's order. A user document that is not a dict
    raises before anything is changed. *)
Theorem merge_config_deep_override
    (default items : list (string * Json)) :
  NoDup items.*1 ->
  (exists merged,
     _merge_config default (JObj items) = Ok merged /\
     (forall k, assoc k items = None -> assoc k merged = assoc k default) /\
     (forall k v, assoc k items = Some v ->
        assoc k merged =
          Some match assoc k default, v with
               | Some (JObj sub), JObj _ => JObj (merge_items v sub)
               | _, _ => v
               end) /\
     merged.*1
     = default.*1 ++ List.filter (fun k => negb (bool_decide (k ∈ default.*1))) items.*1) /\
  (forall user,
     match user with
     | JObj _ => True
     | _ => exists e, _merge_config default user = Raise e
     end).
Proof.
  intros ND. split.
  - exists (merge_items (JObj items) default). split_and!.
    + reflexivity.
    + intros k A. apply merge_items_other. apply assoc_None_keys.
      rewrite <- assoc_lookup_name. exact A.
    + intros k v A. apply (merge_items_mentioned items default k v ND A).
    + apply merge_items_keys. exact ND.
  - intros [| | | | |kv]; try exact I; eexists; reflexivity.
Qed.

(** A default configuration of two keys and a user file that overrides
    one member of the nested dict and adds a key. *)
Definition small_default : list (string * Json) :=
  [("auto_adjust", JBool true);
   ("default_strategy", JObj [("timeout", JNum 60); ("retry_count", JNum 3)])].

Definition small_user : list (string * Json) :=
  [("default_strategy", JObj [("timeout", JNum 120)]); ("log_level", JStr "debug")].

Lemma merge_config_witness :
  (exists merged,
     _merge_config small_default (JObj small_user) = Ok merged /\
     (forall k, assoc k small_user = None -> assoc k merged = assoc k small_default) /\
     (forall k v, assoc k small_user = Some v ->
        assoc k merged =
          Some match assoc k small_default, v with
               | Some (JObj sub), JObj _ => JObj (merge_items v sub)
               | _, _ => v
               end) /\
     merged.*1
     = small_default.*1
       ++ List.filter (fun k => negb (bool_decide (k ∈ small_default.*1))) small_user.*1) /\
  (forall user,
     match user with
     | JObj _ => True
     | _ => exists e, _merge_config small_default user = Raise e
     end).
Proof.
  apply (merge_config_deep_override small_default small_user).
  apply NoDup_cons. split.
  - intros H. apply list_elem_of_singleton in H. discriminate H.
  - apply NoDup_singleton.
Defined.

Example small_merge :
  _merge_config small_default (JObj small_user)
  = Ok [("auto_adjust", JBool true);
        ("default_strategy", JObj [("timeout", JNum 120); ("retry_count", JNum 3)]);
        ("log_level", JStr "debug")].
Proof. reflexivity. Qed.

(** *** The facts on a concrete feedback object *)

Definition digit_of (c : ascii) : option Z :=
  let n := nat_of_ascii c in
  if (48 <=? n)%nat && (n <=? 57)%nat then Some (Z.of_nat (n - 48)) else None.

(** A [float] for plain decimal texts: digits with at most one point. *)
Fixpoint scan (num : Z) (den : positive) (seen_point : bool) (s : string) : option Q :=
  match s with
  | EmptyString => Some (num # den)
  | String c t =>
      if Ascii.eqb c "." then
        if seen_point then None else scan num den true t
      else
        match digit_of c with
        | Some d =>
            scan (10 * num + d) (if seen_point then 10 * den else den)%positive seen_point t
        | None => None
        end
  end.

Definition plain_float (s : string) : option Q :=
  match s with
  | EmptyString => None
  | _ => scan 0 1 false s
  end.

Lemma scan_rejects_ms w : forall num den seen_point,
  scan num den seen_point (w +:+ "ms") = None.
Proof.
  induction w as [|c w IH]; intros num den seen_point; [reflexivity|].
  simpl. destruct (Ascii.eqb c "."); [destruct seen_point; [reflexivity | apply IH]|].
  destruct (digit_of c); [apply IH | reflexivity].
Qed.

Lemma plain_float_rejects_ms w : plain_float (w +:+ "ms") = None.
Proof.
  unfold plain_float. destruct (w +:+ "ms") eqn:E; [reflexivity|].
  rewrite <- E. apply scan_rejects_ms.
Qed.

Definition some_time : Q -> string := fun _ => "2026-01-01 00:00:00".

(** One sample: 612.34 ms, 3.2 MB/s. *)
Definition slow_link : list Feedback.Sample :=
  [{| Feedback.timestamp := 100; Feedback.latency := 61234 # 100;
      Feedback.bandwidth := 32 # 10; Feedback.status := Feedback.unstable |}].

Lemma latency_never_read_witness :
  let r := reading_of plain_float some_time (Some slow_link) false in
  status_latency r = None /\
  _detect_network_scenario r
  ∈ [proxy_transfer; unstable_network; low_bandwidth; local_network].
Proof.
  exact (latency_of_feedback_never_read plain_float some_time slow_link false
           plain_float_rejects_ms).
Defined.

Example slow_link_is_local :
  Feedback.get_network_status some_time slow_link
  = [("status", "unstable"); ("latency", "612.34ms"); ("bandwidth", "3.20 MB/s");
     ("timestamp", "2026-01-01 00:00:00")] /\
  status_bandwidth (reading_of plain_float some_time (Some slow_link) false)
  = Some (320 # 100) /\
  _detect_network_scenario (reading_of plain_float some_time (Some slow_link) false)
  = local_network.
Proof. vm_compute. repeat split. Qed.

End Optimizer.
